(** * pufferlib.policy_pool: the policy store, the pool orchestrator and
      its batch partition, score ledger and rank update.

    A shallow embedding of [src/pufferlib/policy_pool.py].  Python integers
    are [Z]; a Python exception is a value of [exn]; code that mutates the
    database, the file system or model objects is written in a state and
    exception monad in which the state reached before a [raise] is kept. *)

From stdpp Require Import gmap strings list fin_maps.

Local Open Scope Z_scope.

(** ** Python primitives *)

(** The exceptions the modelled code can raise.  [ReferenceError] stands for
    the use of an object reference that is outside the modelled heap, which
    no Python program can hold. *)
Inductive exn : Type :=
  | AssertionError
  | ZeroDivisionError
  | IndexError
  | KeyError
  | ValueError
  | AttributeError
  | FileNotFoundError
  | IntegrityError
  | ReferenceError.

Global Instance exn_eq_dec : EqDecision exn.
Proof. solve_decision. Defined.

(** Fallible pure code: [inl e] is [raise e]. *)
Definition res (A : Type) : Type := exn + A.

Definition res_bind {A B} (m : res A) (k : A → res B) : res B :=
  match m with
  | inl e => inl e
  | inr a => k a
  end.

Notation "x ←! m ; k" := (res_bind m (λ x, k))
  (at level 20, m at level 100, k at level 200, right associativity,
   format "x  ←!  m ;  '/' k").

(** A [for] loop with a fallible body that threads an accumulator. *)
Fixpoint res_fold {A B} (f : B → A → res B) (acc : B) (l : list A) : res B :=
  match l with
  | [] => inr acc
  | x :: l => acc' ←! f acc x; res_fold f acc' l
  end.

(** [a % b]: floored remainder, the sign follows the divisor, as [Z.modulo]. *)
Definition py_mod (a b : Z) : res Z :=
  if decide (b = 0) then inl ZeroDivisionError else inr (a `mod` b).

(** [range(n)]: empty when [n <= 0]. *)
Definition py_range (n : Z) : list Z := seqZ 0 n.

(** [sum(l)]: left to right from [0]. *)
Definition py_sum (l : list Z) : Z := foldl Z.add 0 l.

(** [l[i]] on a list: a negative index counts from the end, anything outside
    [-len, len) raises [IndexError]. *)
Definition py_index {A} (l : list A) (i : Z) : res A :=
  let n := Z.of_nat (length l) in
  let j := if decide (i < 0) then i + n else i in
  if decide (0 ≤ j) then
    match l !! Z.to_nat j with
    | Some x => inr x
    | None => inl IndexError
    end
  else inl IndexError.

(** ** The sample partition table ([PolicyPool.__init__], lines 112-122) *)

(** [[i for i, weight in enumerate(sample_weights) for _ in range(weight)]].
    The slot index [i] comes from [enumerate], hence a natural number. *)
Definition pattern (sample_weights : list Z) : list nat :=
  mjoin (imap (λ i weight, (λ _, i) <$> py_range weight) sample_weights).

(** One iteration of [for idx in range(evaluation_batch_size)]:
    [sublist_idx = pattern[idx % chunk_size]] and
    [self.sample_idxs[sublist_idx].append(idx)]. *)
Definition distribute (pat : list nat) (chunk_size : Z)
    (sample_idxs : list (list Z)) (idx : Z) : res (list (list Z)) :=
  r ←! py_mod idx chunk_size;
  sublist_idx ←! py_index pat r;
  match sample_idxs !! sublist_idx with
  | Some sub => inr (<[sublist_idx := sub ++ [idx]]> sample_idxs)
  | None => inl IndexError
  end.

(** Lines 113-122: the divisibility assertion and the partition loop. *)
Definition make_sample_idxs (sample_weights : list Z)
    (evaluation_batch_size : Z) : res (list (list Z)) :=
  let chunk_size := py_sum sample_weights in
  r ←! py_mod evaluation_batch_size chunk_size;
  if decide (r = 0) then
    let pat := pattern sample_weights in
    let sample_idxs := replicate (length sample_weights) [] in
    res_fold (distribute pat chunk_size) sample_idxs
      (py_range evaluation_batch_size)
  else inl AssertionError.

(** Lines 125-126: [np.zeros(evaluation_batch_size)], which rejects a
    negative size, with ones at the learner's indices [self.sample_idxs[0]]. *)
Definition make_learner_mask (sample_idxs : list (list Z))
    (evaluation_batch_size : Z) : res (list Z) :=
  if decide (evaluation_batch_size < 0) then inl ValueError else
  learner_idxs ←! py_index sample_idxs 0;
  inr ((λ idx, if decide (idx ∈ learner_idxs) then 1 else 0)
         <$> py_range evaluation_batch_size).

(** ** State and exceptions *)

(** A computation over a mutable state [S]: it returns a value or raises,
    and in both cases hands back the state it reached. *)
Definition M (S A : Type) : Type := S → res A * S.

Definition ret {S A} (a : A) : M S A := λ s, (inr a, s).

Definition bind {S A B} (m : M S A) (k : A → M S B) : M S B :=
  λ s, match m s with
       | (inl e, s') => (inl e, s')
       | (inr a, s') => k a s'
       end.

Definition raise {S A} (e : exn) : M S A := λ s, (inl e, s).
Definition get {S} : M S S := λ s, (inr s, s).
Definition put {S} (s : S) : M S unit := λ _, (inr tt, s).
Definition modify {S} (f : S → S) : M S unit := λ s, (inr tt, f s).
Definition lift_res {S A} (r : res A) : M S A := λ s, (r, s).

Global Instance M_ret {S} : MRet (M S) := @ret S.
Global Instance M_bind {S} : MBind (M S) := λ A B k m, bind m k.

(** Unfold the monad's operations. *)
Ltac munfold :=
  unfold mbind, mret, M_bind, M_ret, bind, ret, get, put, modify, raise,
    lift_res; simpl.

(** [for x in l: body(x)]. *)
Fixpoint for_ {S A} (l : list A) (body : A → M S unit) : M S unit :=
  match l with
  | [] => ret tt
  | x :: l => bind (body x) (λ _, for_ l body)
  end.

(** Run a computation on one component of a pair of states. *)
Definition on_snd {S1 S2 A} (m : M S2 A) : M (S1 * S2) A :=
  λ s, let '(r, s2) := m s.2 in (r, (s.1, s2)).
Definition on_fst {S1 S2 A} (m : M S1 A) : M (S1 * S2) A :=
  λ s, let '(r, s1) := m s.1 in (r, (s1, s.2)).

(** ** Insertion-ordered dictionaries ([dict], [defaultdict(list)]) *)

Section dict.
Context {V : Type}.

Fixpoint dict_get (k : string) (d : list (string * V)) : option V :=
  match d with
  | [] => None
  | (k', v) :: d => if decide (k' = k) then Some v else dict_get k d
  end.

(** [d[k] = v]: in place when [k] is a key, at the end otherwise. *)
Fixpoint dict_set (k : string) (v : V) (d : list (string * V))
    : list (string * V) :=
  match d with
  | [] => [(k, v)]
  | (k', v') :: d =>
      if decide (k' = k) then (k, v) :: d else (k', v') :: dict_set k v d
  end.
End dict.

(** [d[k].append(x)] on a [defaultdict(list)]: a missing key is first bound
    to the empty list. *)
Definition dict_append {V} (k : string) (x : V) (d : list (string * list V))
    : list (string * list V) :=
  dict_set k (default [] (dict_get k d) ++ [x]) d.

(** [d[k] += xs] when [k] is a key of a plain [dict], [d[k] = xs] otherwise
    (lines 240-243). *)
Definition dict_extend {V} (k : string) (xs : list V)
    (d : list (string * list V)) : list (string * list V) :=
  match dict_get k d with
  | None => dict_set k xs d
  | Some old => dict_set k (old ++ xs) d
  end.

(** ** Data model *)

(** A live [torch.nn.Module]: the name of its class, [str(type(model))], and
    its parameters, [model.state_dict()]. *)
Record Module {Params : Type} := {
  module_class : string;
  state_dict : Params;
}.
Global Arguments Module : clear implicits.

(** [class Policy(Base)]: the columns of table [policies] and the attribute
    [model], which is not a column and refers to a live module.  The primary
    key [id] is the key of the object in [objects] below. *)
Record Policy {Float : Type} := {
  model_path : string;
  model_class : string;
  name : string;
  mu : Float;
  sigma : Float;
  episodes : Z;
  additional_data : list (string * bool);
  model : option nat;
}.
Global Arguments Policy : clear implicits.

(** [cast(Policy.additional_data['tenured'], Boolean)]. *)
Definition tenured {Float} (p : Policy Float) : bool :=
  default false (dict_get "tenured" (additional_data p)).

(** What the pool works on besides its own attributes: the module objects,
    the files written by [torch.save], the [Policy] objects of the session
    and the rows of the table, in insertion order, as references to these
    objects. *)
Record World {Float Params : Type} := {
  heap : gmap nat (Module Params);
  files : gmap string Params;
  objects : gmap nat (Policy Float);
  table : list nat;
}.
Global Arguments World : clear implicits.

(** One entry of [tournament.ratings]. *)
Record Rating {Float : Type} := {
  rating_mu : Float;
  rating_sigma : Float;
}.
Global Arguments Rating : clear implicits.

(** [pufferlib.rating.OpenSkillRating], as far as this module reads and
    writes it: the mutable mapping [ratings] and whatever else the engine
    keeps. *)
Record OpenSkillRating {Float Internal : Type} := {
  ratings : gmap string (Rating Float);
  internal : Internal;
}.
Global Arguments OpenSkillRating : clear implicits.

(** Modelled from the spec: the Rating Engine capability
    ([pufferlib/rating.py], which is not among the sources).  The spec gives
    its interface: construction from the default [mu], [anchor_mu] and
    [sigma]; [addPolicy(name)]; [setAnchor(name)]; and
    [update(names, listsOfOutcomeSamples)], which recomputes and stores the
    ratings.  What the operations compute is left open. *)
Class RatingEngine (Float Value : Type) := {
  Internal : Type;
  rating_init : Float → Float → Float → OpenSkillRating Float Internal;
  rating_add_policy :
    OpenSkillRating Float Internal → string → OpenSkillRating Float Internal;
  rating_set_anchor :
    OpenSkillRating Float Internal → string → OpenSkillRating Float Internal;
  rating_update :
    OpenSkillRating Float Internal → list string → list (list Value) →
    OpenSkillRating Float Internal;
}.

(** The attributes of a [PolicyPool]. *)
Record PolicyPool {Float Value : Type} `{!RatingEngine Float Value} := {
  learner : nat;
  learner_name : string;
  allocated : bool;
  tournament : OpenSkillRating Float Internal;
  scores : list (string * list Value);
  pool_mu : Float;
  anchor_mu : Float;
  pool_sigma : Float;
  num_scores : Z;
  num_active_policies : Z;
  active_policies : list (option nat);
  path : string;
  sample_idxs : list (list Z);
  learner_mask : list Z;
}.
Global Arguments PolicyPool _ _ {_}.

(** [[f(x) for x in l]] with a fallible [f]. *)
Fixpoint res_map {A B} (f : A → res B) (l : list A) : res (list B) :=
  match l with
  | [] => inr []
  | x :: l => y ←! f x; ys ←! res_map f l; inr (y :: ys)
  end.

(** A [for] loop in the state monad that threads a local variable. *)
Fixpoint fold_ {S A B} (l : list A) (acc : B) (body : B → A → M S B)
    : M S B :=
  match l with
  | [] => ret acc
  | x :: l => bind (body acc x) (λ acc', fold_ l acc' body)
  end.

(** [np.random.choice(a, size, replace=True).tolist()].  The generator is
    the sequence [rng] of its raw draws; the [i]-th sample is the element at
    position [rng i mod len(a)].  A negative size is rejected, and so is an
    empty population unless no sample is taken. *)
Definition np_random_choice {A} (rng : nat → nat) (a : list A) (size : Z)
    : res (list A) :=
  if decide (size < 0) then inl ValueError else
  match a with
  | [] => if decide (size = 0) then inr [] else inl ValueError
  | x :: _ =>
      inr ((λ i, default x (a !! (rng i `mod` length a)%nat))
             <$> seq 0 (Z.to_nat size))
  end.

(** [np.array(a)[idxs]] for a list [idxs] of integers. *)
Definition np_take {A} (a : list A) (idxs : list Z) : res (list A) :=
  res_map (py_index a) idxs.

Section policy_pool.
Context {Float Params Value : Type} `{!RatingEngine Float Value}.

Local Abbreviation World := (World Float Params).
Local Abbreviation Policy := (Policy Float).
Local Abbreviation PolicyPool := (PolicyPool Float Value).
Local Abbreviation State := (PolicyPool * World)%type.

(** *** Objects and files *)

Definition with_heap (h : gmap nat (Module Params)) (w : World) : World :=
  {| heap := h; files := files w; objects := objects w; table := table w |}.
Definition with_files (f : gmap string Params) (w : World) : World :=
  {| heap := heap w; files := f; objects := objects w; table := table w |}.
Definition with_objects (o : gmap nat Policy) (w : World) : World :=
  {| heap := heap w; files := files w; objects := o; table := table w |}.
Definition with_table (t : list nat) (w : World) : World :=
  {| heap := heap w; files := files w; objects := objects w; table := t |}.

Definition get_module (l : nat) : M World (Module Params) :=
  w ← get;
  match heap w !! l with
  | Some m => ret m
  | None => raise ReferenceError
  end.

(** [copy.deepcopy(model)]: a new module object with the same class and
    equal parameters. *)
Definition deepcopy (l : nat) : M World nat :=
  m ← get_module l;
  w ← get;
  let l' := fresh (dom (heap w)) in
  put (with_heap (<[l' := m]> (heap w)) w);;
  ret l'.

(** [torch.save(params, path)] and [torch.load(path)]. *)
Definition torch_save (params : Params) (file : string) : M World unit :=
  modify (λ w, with_files (<[file := params]> (files w)) w).

Definition torch_load (file : string) : M World Params :=
  w ← get;
  match files w !! file with
  | Some params => ret params
  | None => raise FileNotFoundError
  end.

(** [model.load_state_dict(params)]. *)
Definition load_state_dict (l : nat) (params : Params) : M World unit :=
  m ← get_module l;
  modify (λ w, with_heap
    (<[l := {| module_class := module_class m; state_dict := params |}]>
       (heap w)) w).

Definition get_policy (oid : nat) : M World Policy :=
  w ← get;
  match objects w !! oid with
  | Some p => ret p
  | None => raise ReferenceError
  end.

Definition set_policy (oid : nat) (p : Policy) : M World unit :=
  modify (λ w, with_objects (<[oid := p]> (objects w)) w).

(** [Policy(...)]: a new object, not yet a row of the table. *)
Definition new_policy (p : Policy) : M World nat :=
  w ← get;
  let oid := fresh (dom (objects w)) in
  put (with_objects (<[oid := p]> (objects w)) w);;
  ret oid.

(** *** [class Policy] *)

Definition with_model (l : nat) (cls : string) (p : Policy) : Policy :=
  {| model_path := model_path p; model_class := cls; name := name p;
     mu := mu p; sigma := sigma p; episodes := episodes p;
     additional_data := additional_data p; model := Some l |}.

Definition with_rating (r : Rating Float) (p : Policy) : Policy :=
  {| model_path := model_path p; model_class := model_class p;
     name := name p; mu := rating_mu r; sigma := rating_sigma r;
     episodes := episodes p; additional_data := additional_data p;
     model := model p |}.

(** [Policy.load_model] (lines 36-38); [model.cuda()] is the module
    itself. *)
Definition load_model (self : nat) (l : nat) : M World unit :=
  p ← get_policy self;
  params ← torch_load (model_path p);
  load_state_dict l params;;
  set_policy self (with_model l (model_class p) p).

(** [Policy.save_model] (lines 40-43). *)
Definition save_model (self : nat) (l : nat) : M World unit :=
  m ← get_module l;
  p ← get_policy self;
  torch_save (state_dict m) (model_path p);;
  set_policy self (with_model l (module_class m) p).

(** *** [class PolicyDatabase] *)

Definition has_name (w : World) (nm : string) (oid : nat) : Prop :=
  name <$> objects w !! oid = Some nm.

Global Instance has_name_dec w nm oid : Decision (has_name w nm oid).
Proof. unfold has_name. apply _. Defined.

(** [query(Policy).filter_by(name=name).first()] *)
Definition query_policy_by_name (nm : string) : M World (option nat) :=
  w ← get;
  ret (snd <$> list_find (has_name w nm) (table w)).

(** [session.add(policy); session.commit()]; column [name] is declared
    [unique=True]. *)
Definition db_add_policy (oid : nat) : M World unit :=
  p ← get_policy oid;
  existing ← query_policy_by_name (name p);
  match existing with
  | Some _ => raise IntegrityError
  | None => modify (λ w, with_table (table w ++ [oid]) w)
  end.

Definition delete_policy (oid : nat) : M World unit :=
  modify (λ w, with_table (filter (λ o, o ≠ oid) (table w)) w).

Definition query_all_policies : M World (list nat) :=
  w ← get; ret (table w).

Definition is_tenured (w : World) (oid : nat) : Prop :=
  tenured <$> objects w !! oid = Some true.

Global Instance is_tenured_dec w oid : Decision (is_tenured w oid).
Proof. unfold is_tenured. apply _. Defined.

Definition query_tenured_policies : M World (list nat) :=
  w ← get; ret (filter (is_tenured w) (table w)).

Definition query_untenured_policies : M World (list nat) :=
  w ← get; ret (filter (λ oid, ¬ is_tenured w oid) (table w)).

(** [session.commit()]: the attributes of the session's objects are the
    row already. *)
Definition update_policy (oid : nat) : M World unit := ret tt.

(** *** [class PolicyPool] *)

Definition with_tournament (t : OpenSkillRating Float Internal)
  (self : PolicyPool) : PolicyPool :=
  {| learner := learner self; learner_name := learner_name self;
     allocated := allocated self; tournament := t; scores := scores self;
     pool_mu := pool_mu self; anchor_mu := anchor_mu self;
     pool_sigma := pool_sigma self; num_scores := num_scores self;
     num_active_policies := num_active_policies self;
     active_policies := active_policies self; path := path self;
     sample_idxs := sample_idxs self; learner_mask := learner_mask self |}.

Definition with_scores (sc : list (string * list Value)) (n : Z)
  (self : PolicyPool) : PolicyPool :=
  {| learner := learner self; learner_name := learner_name self;
     allocated := allocated self; tournament := tournament self;
     scores := sc;
     pool_mu := pool_mu self; anchor_mu := anchor_mu self;
     pool_sigma := pool_sigma self; num_scores := n;
     num_active_policies := num_active_policies self;
     active_policies := active_policies self; path := path self;
     sample_idxs := sample_idxs self; learner_mask := learner_mask self |}.

Definition with_active_policies (ps : list (option nat))
  (self : PolicyPool) : PolicyPool :=
  {| learner := learner self; learner_name := learner_name self;
     allocated := allocated self; tournament := tournament self;
     scores := scores self;
     pool_mu := pool_mu self; anchor_mu := anchor_mu self;
     pool_sigma := pool_sigma self; num_scores := num_scores self;
     num_active_policies := num_active_policies self;
     active_policies := ps; path := path self;
     sample_idxs := sample_idxs self; learner_mask := learner_mask self |}.

Definition with_partition (idxs : list (list Z)) (mask : list Z)
  (self : PolicyPool) : PolicyPool :=
  {| learner := learner self; learner_name := learner_name self;
     allocated := allocated self; tournament := tournament self;
     scores := scores self;
     pool_mu := pool_mu self; anchor_mu := anchor_mu self;
     pool_sigma := pool_sigma self; num_scores := num_scores self;
     num_active_policies := num_active_policies self;
     active_policies := active_policies self; path := path self;
     sample_idxs := idxs; learner_mask := mask |}.

Definition with_ratings (r : gmap string (Rating Float))
  (t : OpenSkillRating Float Internal) : OpenSkillRating Float Internal :=
  {| ratings := r; internal := internal t |}.

Definition get_self : M State PolicyPool := on_fst get.

(** [self.tournament.ratings[name].mu = mu] and the same for [sigma]: the
    subscript raises [KeyError] on a name the engine does not list. *)
Definition set_rating_mu (nm : string) (x : Float) : M State unit :=
  self ← get_self;
  let t := tournament self in
  match ratings t !! nm with
  | None => raise KeyError
  | Some r =>
      on_fst (modify (with_tournament (with_ratings
        (<[nm := {| rating_mu := x; rating_sigma := rating_sigma r |}]>
           (ratings t)) t)))
  end.

Definition set_rating_sigma (nm : string) (x : Float) : M State unit :=
  self ← get_self;
  let t := tournament self in
  match ratings t !! nm with
  | None => raise KeyError
  | Some r =>
      on_fst (modify (with_tournament (with_ratings
        (<[nm := {| rating_mu := rating_mu r; rating_sigma := x |}]>
           (ratings t)) t)))
  end.

(** [PolicyPool.add_policy] (lines 140-183).  [mu] and [sigma] are [None]
    when not given; [overwrite_existing] is [None] when the caller omits it,
    and the signature's default is [True]. *)
Definition add_policy (model : nat) (nm : string) (is_tenured : bool)
  (mu sigma : option Float) (anchor : bool)
  (overwrite_existing : option bool) : M State unit :=
  self ← get_self;
  let model_path := path self +:+ "/" +:+ nm in
  existing_policy ← on_snd (query_policy_by_name nm);
  match existing_policy with
  | Some existing =>
      if default true overwrite_existing
      then on_snd (delete_policy existing)
      else raise ValueError
  | None => ret tt
  end;;
  let mu := default (pool_mu self) mu in
  let sigma := default (pool_sigma self) sigma in
  model ← on_snd (deepcopy model);
  m ← on_snd (get_module model);
  policy ← on_snd (new_policy
    {| model_path := model_path; model_class := module_class m; name := nm;
       mu := mu; sigma := sigma; episodes := 0;
       additional_data := [("tenured", is_tenured)];
       model := Some model |});
  on_snd (save_model policy model);;
  on_snd (db_add_policy policy);;
  if anchor then
    on_fst (modify (λ self,
      with_tournament (rating_set_anchor (tournament self) nm) self))
  else
    on_fst (modify (λ self,
      with_tournament (rating_add_policy (tournament self) nm) self));;
    set_rating_mu nm mu;;
    set_rating_sigma nm sigma.

(** [PolicyPool.add_policy_copy] (lines 132-138). *)
Definition add_policy_copy (key nm : string) (is_tenured anchor : bool)
  : M State unit :=
  original_policy ← on_snd (query_policy_by_name key);
  match original_policy with
  | None => raise AssertionError
  | Some original =>
      p ← on_snd (get_policy original);
      match model p with
      | None => raise AttributeError
      | Some l =>
          add_policy l nm is_tenured (Some (mu p)) (Some (sigma p)) anchor None
      end
  end.

(** [PolicyPool.update_active_policies] (lines 272-279).  The callee
    [policy.load_model] is looked up before its argument is evaluated, so a
    [None] in slot 0 raises before any copy is made. *)
Definition update_active_policies (rng : nat → nat) : M State unit :=
  self ← get_self;
  learner_policy ← on_snd (query_policy_by_name (learner_name self));
  all_policies ← on_snd query_all_policies;
  sampled ← lift_res
    (np_random_choice rng all_policies (num_active_policies self - 1));
  on_fst (modify (with_active_policies (learner_policy :: (Some <$> sampled))));;
  for_ (learner_policy :: (Some <$> sampled)) (λ policy,
    match policy with
    | None => raise AttributeError
    | Some oid =>
        l ← on_snd (deepcopy (learner self));
        on_snd (load_model oid l)
    end).

(** [PolicyPool.update_scores] (lines 231-252).  An info is a [dict] from
    agent to entry, an entry a [dict] from key to value. *)
Definition update_scores (infos : list (list (Z * gmap string Value)))
  (info_key : string) : M State (list (string * list (gmap string Value))) :=
  let agent_infos := infos ≫= (λ info, info.*2) in
  self ← get_self;
  fold_ (zip (sample_idxs self) (active_policies self)) []
    (λ policy_infos '(samp, policy),
      pol_infos ← lift_res (np_take agent_infos samp);
      nm ← match policy with
           | None => raise AttributeError
           | Some oid => p ← on_snd (get_policy oid); ret (name p)
           end;
      let policy_infos := dict_extend nm pol_infos policy_infos in
      for_ pol_infos (λ i,
        match i !! info_key with
        | None => ret tt
        | Some v =>
            on_fst (modify (λ self,
              with_scores (dict_append nm v (scores self))
                          (num_scores self + 1) self))
        end);;
      ret policy_infos).

(** [PolicyPool.update_ranks] (lines 254-270). *)
Definition update_ranks : M State unit :=
  on_fst (modify (λ self,
    with_tournament
      (rating_update (tournament self) (scores self).*1 (scores self).*2)
      self));;
  self ← get_self;
  for_ (map_to_list (ratings (tournament self))) (λ '(nm, rating),
    policy ← on_snd (query_policy_by_name nm);
    match policy with
    | Some oid =>
        p ← on_snd (get_policy oid);
        on_snd (set_policy oid (with_rating rating p));;
        on_snd (update_policy oid)
    | None => ret tt
    end);;
  on_fst (modify (λ self, with_scores [] (num_scores self) self)).

(** The attributes assigned on lines 89-106, before the learner is
    registered. *)
Definition new_pool (learner : nat) (nm : string) (active_policies : Z)
  (path : string) (mu anchor_mu sigma : Float) : PolicyPool :=
  {| learner := learner; learner_name := nm; allocated := false;
     tournament := rating_init mu anchor_mu sigma; scores := [];
     pool_mu := mu; anchor_mu := anchor_mu; pool_sigma := sigma;
     num_scores := 0; num_active_policies := active_policies;
     active_policies := []; path := path;
     sample_idxs := []; learner_mask := [] |}.

(** [PolicyPool.__init__] (lines 83-126).  It returns the constructed pool,
    or raises and leaves the world it reached; the attributes assigned to
    the unfinished object are lost with it.  [PolicyDatabase()] opens the
    database that persists between runs: its rows are the ones of the world
    the constructor starts in.  The defaults of the signature are not
    modelled; every argument is given. *)
Definition init (rng : nat → nat) (evaluation_batch_size : Z)
  (learner : nat) (nm : string) (sample_weights : list Z)
  (active_policies : Z) (path : string) (mu anchor_mu sigma : Float)
  : M World PolicyPool :=
  if decide (Z.of_nat (length sample_weights) = active_policies) then
    λ w,
      match (add_policy learner nm true (Some mu) (Some sigma) false None;;
             update_active_policies rng)
              (new_pool learner nm active_policies path mu anchor_mu sigma, w)
      with
      | (inl e, (_, w')) => (inl e, w')
      | (inr _, (self, w')) =>
          match make_sample_idxs sample_weights evaluation_batch_size with
          | inl e => (inl e, w')
          | inr idxs =>
              match make_learner_mask idxs evaluation_batch_size with
              | inl e => (inl e, w')
              | inr mask => (inr (with_partition idxs mask self), w')
              end
          end
      end
  else raise AssertionError.

End policy_pool.

(** ** The calls a client can make on a constructed pool *)

Section calls.
Context {Float Params Value : Type} `{!RatingEngine Float Value}.

Inductive call : Type :=
  | AddPolicy (model : nat) (nm : string) (is_tenured : bool)
      (mu sigma : option Float) (anchor : bool)
      (overwrite_existing : option bool)
  | AddPolicyCopy (key nm : string) (is_tenured anchor : bool)
  | UpdateActivePolicies (rng : nat → nat)
  | UpdateScores (infos : list (list (Z * gmap string Value)))
      (info_key : string)
  | UpdateRanks.

Definition run_call (c : call)
  : M (PolicyPool Float Value * World Float Params) unit :=
  match c with
  | AddPolicy model nm is_tenured mu sigma anchor overwrite_existing =>
      add_policy model nm is_tenured mu sigma anchor overwrite_existing
  | AddPolicyCopy key nm is_tenured anchor =>
      add_policy_copy key nm is_tenured anchor
  | UpdateActivePolicies rng => update_active_policies rng
  | UpdateScores infos info_key => update_scores infos info_key ≫= λ _, ret tt
  | UpdateRanks => update_ranks
  end.

(** A client that makes the calls one after the other and carries on after
    a call that raised. *)
Definition run_calls (cs : list call)
  (st : PolicyPool Float Value * World Float Params)
  : PolicyPool Float Value * World Float Params :=
  foldl (λ st c, (run_call c st).2) st cs.

(** ** Vocabulary of the statements *)

(** The record stored under a name, with the object that holds it. *)
Definition stored (w : World Float Params) (nm : string) (oid : nat)
  (p : Policy Float) : Prop :=
  (query_policy_by_name nm w).1 = inr (Some oid) ∧ objects w !! oid = Some p.

(** The name a roster slot scores under. *)
Definition slot_name (w : World Float Params) (policy : option nat)
  : option string :=
  oid ← policy; name <$> objects w !! oid.

(** The samples a slot contributes: the value under [info_key] of each entry
    at the slot's indices that has this key, in index order. *)
Definition slot_samples (agent_infos : list (gmap string Value))
  (info_key : string) (samp : list Z) : list Value :=
  omap (λ idx, match py_index agent_infos idx with
               | inr i => i !! info_key
               | inl _ => None
               end) samp.

(** The samples of all slots that hold the name [nm], in slot order. *)
Definition name_samples (w : World Float Params)
  (agent_infos : list (gmap string Value)) (info_key nm : string)
  (slots : list (list Z * option nat)) : list Value :=
  slots ≫= (λ '(samp, policy),
    if decide (slot_name w policy = Some nm)
    then slot_samples agent_infos info_key samp else []).

(** The samples recorded under a name; a name that is not a key has none. *)
Definition ledger (self : PolicyPool Float Value) (nm : string)
  : list Value :=
  default [] (dict_get nm (scores self)).

(** The integrity of the table: every row has its object, and no two rows
    have the same name (column [name] is [unique=True]). *)
Definition store_ok (w : World Float Params) : Prop :=
  Forall (λ oid, is_Some (objects w !! oid)) (table w) ∧
  NoDup ((λ oid, name <$> objects w !! oid) <$> table w).

(** Object [oid] has been activated between the worlds [w] and [w']: its
    attribute [model] now refers to a module that did not exist in [w], of
    the class of the module [lrn], holding the parameters of the object's
    own snapshot file; its columns are as in [w]. *)
Definition materialized (lrn : Module Params) (w w' : World Float Params)
  (oid : nat) : Prop :=
  ∃ p0 l params,
    objects w !! oid = Some p0 ∧
    objects w' !! oid = Some (with_model l (model_class p0) p0) ∧
    (l ∉ dom (heap w)) ∧
    heap w' !! l = Some {| module_class := module_class lrn;
                           state_dict := params |} ∧
    files w !! model_path p0 = Some params.

(** A state in which a roster rotation goes through: the learner is a live
    module and is registered, there is at least one slot, and every row has
    its object and its snapshot file. *)
Definition rotation_ready (st : PolicyPool Float Value * World Float Params)
  : Prop :=
  is_Some (heap st.2 !! learner st.1) ∧
  (∃ oid, (query_policy_by_name (learner_name st.1) st.2).1 = inr (Some oid)) ∧
  1 ≤ num_active_policies st.1 ∧
  ∀ oid, oid ∈ table st.2 →
    ∃ p, objects st.2 !! oid = Some p ∧ is_Some (files st.2 !! model_path p).

(** The entries a slot contributes to the result of [update_scores]: the
    entries at the slot's indices, in index order. *)
Definition slot_entries (agent_infos : list (gmap string Value))
  (samp : list Z) : list (gmap string Value) :=
  omap (λ idx, match py_index agent_infos idx with
               | inr i => Some i
               | inl _ => None
               end) samp.

(** The entries of all slots that hold the name [nm], in slot order. *)
Definition name_entries (w : World Float Params)
  (agent_infos : list (gmap string Value)) (nm : string)
  (slots : list (list Z * option nat)) : list (gmap string Value) :=
  slots ≫= (λ '(samp, policy),
    if decide (slot_name w policy = Some nm)
    then slot_entries agent_infos samp else []).


(** The attributes of a pool that are assigned by the constructor's
    arguments, and the partition made from them. *)
Definition same_configuration (self self' : PolicyPool Float Value) : Prop :=
  learner self' = learner self ∧ learner_name self' = learner_name self ∧
  path self' = path self ∧
  pool_mu self' = pool_mu self ∧ anchor_mu self' = anchor_mu self ∧
  pool_sigma self' = pool_sigma self ∧
  num_active_policies self' = num_active_policies self ∧
  sample_idxs self' = sample_idxs self ∧
  learner_mask self' = learner_mask self.

(** What a call keeps of a pool: the configuration, a counter [num_scores]
    that has not decreased, and a roster that is the same or has
    [num_active_policies] slots. *)
Definition call_kept (st st' : PolicyPool Float Value * World Float Params)
  : Prop :=
  same_configuration st.1 st'.1 ∧
  num_scores st.1 ≤ num_scores st'.1 ∧
  (active_policies st'.1 = active_policies st.1 ∨
   Z.of_nat (length (active_policies st'.1)) = num_active_policies st.1).

(** A computation on the world, or on a pool and the world, that keeps the
    integrity of the table whether it returns or raises. *)
Definition keeps_store {A} (m : M (World Float Params) A) : Prop :=
  ∀ w, store_ok w → store_ok (m w).2.

Definition keeps_store_st {A}
  (m : M (PolicyPool Float Value * World Float Params) A) : Prop :=
  ∀ st, store_ok st.2 → store_ok (m st).2.2.

End calls.

(** ** A concrete engine and world *)

(** A small rating engine over integers, to run the model on concrete pools:
    it remembers the defaults and the anchor; a registered name starts at
    the defaults, the anchor at the anchor mean; an update adds the sum of a
    name's samples to its mean and leaves the anchor and every name it was
    not given as they are. *)
Definition sample_rate (t : OpenSkillRating Z (Z * Z * Z * option string))
  (rs : gmap string (Rating Z)) (entry : string * list Z)
  : gmap string (Rating Z) :=
  let '(mu0, _, sigma0, anchor) := internal t in
  if decide (anchor = Some entry.1) then rs else
  match rs !! entry.1 with
  | Some r =>
      <[entry.1 := {| rating_mu := rating_mu r + py_sum entry.2;
                      rating_sigma := rating_sigma r |}]> rs
  | None =>
      <[entry.1 := {| rating_mu := mu0 + py_sum entry.2;
                      rating_sigma := sigma0 |}]> rs
  end.

Global Instance sample_engine : RatingEngine Z Z := {|
  Internal := Z * Z * Z * option string;
  rating_init mu0 anchor_mu0 sigma0 :=
    {| ratings := ∅; internal := (mu0, anchor_mu0, sigma0, None) |};
  rating_add_policy t nm :=
    let '(mu0, _, sigma0, _) := internal t in
    {| ratings := <[nm := {| rating_mu := mu0; rating_sigma := sigma0 |}]>
                    (ratings t);
       internal := internal t |};
  rating_set_anchor t nm :=
    let '(mu0, anchor_mu0, sigma0, _) := internal t in
    {| ratings := <[nm := {| rating_mu := anchor_mu0;
                             rating_sigma := sigma0 |}]> (ratings t);
       internal := (mu0, anchor_mu0, sigma0, Some nm) |};
  rating_update t names samples :=
    {| ratings := foldl (sample_rate t) (ratings t) (zip names samples);
       internal := internal t |};
|}.

(** A world with one live module, the learner, and an empty store. *)
Definition sample_world : World Z Z :=
  {| heap := {[ 0%nat := {| module_class := "Net"; state_dict := 7 |} ]};
     files := ∅; objects := ∅; table := [] |}.

(** The generator that always draws [0]. *)
Definition sample_rng : nat → nat := λ _, 0%nat.

(** The pool built over [sample_world] for weights [3, 1] and a batch of 8,
    and the world it leaves. *)
Definition sample_init :=
  init sample_rng 8 0%nat "learner" [3; 1] 2 "pool" 1000 1000 33 sample_world.

(** The pool and the world after that construction. *)
Definition sample_state : PolicyPool Z Z * World Z Z :=
  match sample_init with
  | (inr pool, w) => (pool, w)
  | (inl _, w) => (new_pool 0%nat "learner" 2 "pool" 1000 1000 33, w)
  end.

(** The same after a second policy, ["rival"], was registered. *)
Definition sample_state2 : PolicyPool Z Z * World Z Z :=
  (run_call (AddPolicy 0%nat "rival" false None None false None)
     sample_state).2.

(** The same with samples recorded under ["learner"] and under ["ghost"], a
    name that is not in the Store. *)
Definition sample_state3 : PolicyPool Z Z * World Z Z :=
  (with_scores [("learner", [3; 4]); ("ghost", [5])] 3 sample_state2.1,
   sample_state2.2).

(** Per-step infos of eight agents; the entry of agent 1 lacks ["score"]. *)
Definition sample_infos : list (list (Z * gmap string Z)) :=
  [[(0, {["score" := 10]}); (1, {["other" := 11]}); (2, {["score" := 12]});
    (3, {["score" := 13]})];
   [(4, {["score" := 14]}); (5, {["score" := 15]}); (6, {["score" := 16]});
    (7, {["score" := 17]})]].

(** A Store by itself: two rows, ["a"] and ["b"], a third object that is
    not a row, and two live modules. *)
Definition sample_policy (nm : string) (m : option nat) : Policy Z :=
  {| model_path := "pool/" +:+ nm; model_class := "Net"; name := nm;
     mu := 1000; sigma := 33; episodes := 0;
     additional_data := [("tenured", false)]; model := m |}.

Definition sample_store : World Z Z :=
  {| heap := {[ 0%nat := {| module_class := "Net"; state_dict := 7 |};
                1%nat := {| module_class := "Mlp"; state_dict := 9 |} ]};
     files := ∅;
     objects := {[ 0%nat := sample_policy "a" None;
                   1%nat := sample_policy "b" None;
                   2%nat := sample_policy "c" None ]};
     table := [0%nat; 1%nat] |}.

(** * Properties *)

(** ** The partition table *)

Section partition.

Lemma py_sum_foldr l : py_sum l = foldr Z.add 0 l.
Proof.
  unfold py_sum.
  assert (∀ a, foldl Z.add a l = a + foldr Z.add 0 l) as H; [|by rewrite H].
  induction l as [|x l IH]; intros a; simpl; [lia|]. rewrite IH. lia.
Qed.

Lemma py_mod_divide a b : b ≠ 0 → py_mod a b = inr 0 ↔ (b | a).
Proof.
  intros Hb. unfold py_mod. destruct (decide (b = 0)) as [|_]; [done|].
  rewrite <- Z.mod_divide by done. split; [by intros [= ->]|by intros ->].
Qed.

Lemma fmap_const_range (w : Z) (i : nat) :
  (λ _, i) <$> py_range w = replicate (Z.to_nat w) i.
Proof.
  unfold py_range. rewrite <- (length_seqZ 0 w). by apply const_fmap.
Qed.

Lemma pattern_replicate ws :
  pattern ws = mjoin (imap (λ i w, replicate (Z.to_nat w) i) ws).
Proof.
  unfold pattern. f_equal. apply imap_ext. intros i w _.
  apply fmap_const_range.
Qed.

Lemma imap_shift (k : nat) (ws : list Z) :
  imap ((λ i w, replicate (Z.to_nat w) (k + i)%nat) ∘ S) ws
  = imap (λ i w, replicate (Z.to_nat w) (S k + i)%nat) ws.
Proof. apply imap_ext. intros i w _. simpl. f_equal. lia. Qed.

Lemma length_pattern_from (k : nat) ws :
  Forall (λ w, 0 ≤ w) ws →
  Z.of_nat (length (mjoin (imap (λ i w, replicate (Z.to_nat w) (k + i)%nat) ws)))
  = foldr Z.add 0 ws.
Proof.
  intros Hws. revert k. induction Hws as [|w ws Hw _ IH]; intros k; [done|].
  rewrite imap_cons, imap_shift.
  change (mjoin (?a :: ?b)) with (a ++ mjoin b).
  rewrite length_app, length_replicate, Nat2Z.inj_add, IH. simpl. lia.
Qed.

Lemma bound_pattern_from (k : nat) ws :
  Forall (λ s, (s < k + length ws)%nat)
    (mjoin (imap (λ i w, replicate (Z.to_nat w) (k + i)%nat) ws)).
Proof.
  revert k. induction ws as [|w ws IH]; intros k; [by constructor|].
  rewrite imap_cons, imap_shift.
  change (mjoin (?a :: ?b)) with (a ++ mjoin b). apply Forall_app. split.
  - apply Forall_forall. intros x [-> _]%elem_of_replicate. simpl. lia.
  - eapply Forall_impl; [apply IH|]. simpl. intros; lia.
Qed.

Lemma count_replicate (n s x : nat) :
  length (filter (λ y, y = s) (replicate n x))
  = if decide (x = s) then n else 0%nat.
Proof.
  induction n as [|n IH]; [by case_decide|].
  change (replicate (S n) x) with (x :: replicate n x).
  rewrite filter_cons. destruct (decide (x = s)); simpl; by rewrite IH.
Qed.

Lemma count_pattern_from (k s : nat) ws :
  length (filter (λ x, x = s)
            (mjoin (imap (λ i w, replicate (Z.to_nat w) (k + i)%nat) ws)))
  = if decide (k ≤ s)%nat then Z.to_nat (default 0 (ws !! (s - k)%nat))
    else 0%nat.
Proof.
  revert k. induction ws as [|w ws IH]; intros k.
  - simpl. by case_decide.
  - rewrite imap_cons, imap_shift.
    change (mjoin (?a :: ?b)) with (a ++ mjoin b).
    rewrite filter_app, length_app, IH, count_replicate, Nat.add_0_r.
    destruct (decide (k = s)) as [->|Hne].
    + rewrite Nat.sub_diag. simpl. repeat case_decide; lia.
    + repeat case_decide; try lia.
      replace (s - k)%nat with (S (s - S k)) by lia. done.
Qed.

Lemma length_filter_fmap {A B} (f : A → B) (P : B → Prop)
  `{!∀ y, Decision (P y)} (l : list A) :
  length (filter P (f <$> l)) = length (filter (λ x, P (f x)) l).
Proof.
  induction l as [|x l IH]; [done|]. rewrite fmap_cons, !filter_cons.
  destruct (decide (P (f x))); simpl; by rewrite IH.
Qed.

Lemma length_filter_ext_in {A} (P Q : A → Prop) `{!∀ x, Decision (P x)}
  `{!∀ x, Decision (Q x)} (l : list A) :
  (∀ x, x ∈ l → P x ↔ Q x) →
  length (filter P l) = length (filter Q l).
Proof.
  induction l as [|x l IH]; intros Hext; [done|]. rewrite !filter_cons.
  assert (P x ↔ Q x) as HPQ by (apply Hext; left).
  assert (length (filter P l) = length (filter Q l)) as Hl.
  { apply IH. intros y Hy. apply Hext. by right. }
  destruct (decide (P x)), (decide (Q x)); simpl; tauto || lia.
Qed.

(** Counting the positions of a list that hold [s] is counting its
    occurrences. *)
Lemma count_positions (s : nat) (pre pat : list nat) :
  length (filter (λ j, (pre ++ pat) !! j = Some s)
            (seq (length pre) (length pat)))
  = length (filter (λ x, x = s) pat).
Proof.
  revert pre. induction pat as [|x pat IH]; intros pre; [done|]. simpl.
  rewrite !filter_cons.
  assert ((pre ++ x :: pat) !! length pre = Some x) as Hx
    by apply list_lookup_middle, eq_refl.
  specialize (IH (pre ++ [x])).
  rewrite <- app_assoc, length_app, Nat.add_1_r in IH. simpl in IH.
  destruct (decide ((pre ++ x :: pat) !! length pre = Some s)) as [Hs|Hs],
    (decide (x = s)) as [Hxs|Hxs]; simpl; rewrite ?IH; try done.
  - rewrite Hx in Hs. congruence.
  - rewrite Hx in Hs. congruence.
Qed.

(** The loop of lines 120-122 appends to sublist [s] the indices whose
    pattern entry is [s], in order. *)
Lemma res_fold_distribute (pat : list nat) (c : Z) (n : nat) :
  0 < c → Z.of_nat (length pat) = c → Forall (λ s, (s < n)%nat) pat →
  ∀ (idxs : list Z) (acc : list (list Z)), length acc = n →
  ∃ tbl, res_fold (distribute pat c) acc idxs = inr tbl ∧ length tbl = n ∧
    ∀ s, tbl !! s =
      (λ sub, sub ++ filter (λ idx, pat !! Z.to_nat (idx `mod` c) = Some s) idxs)
        <$> acc !! s.
Proof.
  intros Hc Hlen Hpat. induction idxs as [|idx idxs IH]; intros acc Hacc.
  - exists acc. split_and!; [done..|]. intros s.
    destruct (acc !! s); simpl; by rewrite ?app_nil_r.
  - assert (0 ≤ idx `mod` c < c) as Hr by (apply Z.mod_pos_bound; lia).
    destruct (lookup_lt_is_Some_2 pat (Z.to_nat (idx `mod` c))) as [s0 Hs0];
      [lia|].
    assert (s0 < n)%nat as Hs0n.
    { eapply Forall_forall in Hpat; [done|]. by eapply list_elem_of_lookup_2. }
    destruct (lookup_lt_is_Some_2 acc s0) as [sub Hsub]; [lia|].
    assert (distribute pat c acc idx = inr (<[s0 := sub ++ [idx]]> acc)) as Hd.
    { unfold distribute, py_mod, py_index.
      rewrite (decide_False (P := c = 0)) by lia. simpl.
      rewrite (decide_False (P := idx `mod` c < 0)) by lia.
      rewrite (decide_True (P := 0 ≤ idx `mod` c)) by lia.
      rewrite Hs0. simpl. by rewrite Hsub. }
    destruct (IH (<[s0 := sub ++ [idx]]> acc)) as (tbl & Htbl & Hn & Hlook).
    { by rewrite length_insert. }
    exists tbl. split_and!; [|done|].
    { simpl. by rewrite Hd. }
    intros s. rewrite Hlook, filter_cons. destruct (decide (s = s0)) as [->|Hne].
    + rewrite list_lookup_insert_eq by lia. rewrite Hsub. simpl.
      rewrite decide_True by done. by rewrite <- app_assoc.
    + rewrite list_lookup_insert_ne by done.
      rewrite decide_False by congruence. done.
Qed.

(** Over whole cycles of the pattern every slot receives as many indices as
    the pattern has entries for it, once per cycle. *)
Lemma count_cycles (pat : list nat) (s : nat) (q : nat) :
  pat ≠ [] →
  length (filter (λ idx, pat !! Z.to_nat (idx `mod` Z.of_nat (length pat)) = Some s)
            (seqZ 0 (Z.of_nat q * Z.of_nat (length pat))))
  = (q * length (filter (λ x, x = s) pat))%nat.
Proof.
  intros Hne. set (c := Z.of_nat (length pat)).
  assert (0 < c) as Hc by (destruct pat; [done|simpl in c; lia]).
  induction q as [|q IH]; [done|].
  replace (Z.of_nat (S q) * c) with (Z.of_nat q * c + c) by lia.
  rewrite seqZ_app, filter_app, length_app, IH by lia.
  rewrite Z.add_0_l. simpl. rewrite Nat.add_comm. f_equal.
  rewrite <- (count_positions s [] pat). simpl.
  unfold seqZ. rewrite length_filter_fmap.
  replace (Z.to_nat c) with (length pat) by (unfold c; lia).
  apply length_filter_ext_in. intros i Hi%elem_of_seq.
  replace ((Z.of_nat i + Z.of_nat q * c) `mod` c) with (Z.of_nat i).
  - by rewrite Nat2Z.id.
  - rewrite Z.mod_add by lia. rewrite Z.mod_small; lia.
Qed.

End partition.

(** C1.  For positive weights and a non-negative batch size that the sum of
    the weights divides (the constructor's assertion
    [evaluation_batch_size % chunk_size == 0] holds), the constructor builds
    a table with one sublist per slot; the pattern repeats slot [i]
    [sample_weights[i]] times in slot order; every batch index lies in the
    sublist of slot [pattern[idx % chunk_size]] and in no other, and occurs
    there once; slot [i] receives
    [evaluation_batch_size * sample_weights[i] / chunk_size] indices; and for
    weights [3, 1] and batch size 8 the table is
    [[0, 1, 2, 4, 5, 6], [3, 7]].  By [init_sample_idxs] this is the table
    of every constructed pool, and no pool is constructed for a negative
    batch size. *)
Theorem sample_idxs_partition (sample_weights : list Z)
    (evaluation_batch_size : Z) :
  Forall (λ weight, 0 < weight) sample_weights →
  0 ≤ evaluation_batch_size →
  py_mod evaluation_batch_size (py_sum sample_weights) = inr 0 →
  ∃ table,
    make_sample_idxs sample_weights evaluation_batch_size = inr table ∧
    length table = length sample_weights ∧
    pattern sample_weights
      = mjoin (imap (λ i weight, replicate (Z.to_nat weight) i) sample_weights) ∧
    (∀ idx, 0 ≤ idx < evaluation_batch_size →
       ∃ slot,
         py_index (pattern sample_weights) (idx `mod` py_sum sample_weights)
           = inr slot ∧
         (slot < length table)%nat ∧
         ∀ i sub, table !! i = Some sub → idx ∈ sub ↔ i = slot) ∧
    (∀ i sub, table !! i = Some sub →
       NoDup sub ∧ ∀ idx, idx ∈ sub → 0 ≤ idx < evaluation_batch_size) ∧
    (∀ i weight sub,
       sample_weights !! i = Some weight → table !! i = Some sub →
       Z.of_nat (length sub)
       = (evaluation_batch_size * weight) `div` py_sum sample_weights) ∧
    (sample_weights = [3; 1] → evaluation_batch_size = 8 →
       table = [[0; 1; 2; 4; 5; 6]; [3; 7]]).
Proof.
  intros Hpos Hbatch Hmod.
  set (c := py_sum sample_weights) in *.
  set (pat := pattern sample_weights).
  set (n := length sample_weights).
  assert (Forall (λ w, 0 ≤ w) sample_weights) as Hnn
    by (eapply Forall_impl; [done|]; simpl; lia).
  assert (pat = mjoin (imap (λ i w, replicate (Z.to_nat w) (0 + i)%nat)
                         sample_weights)) as Hpat by apply pattern_replicate.
  assert (Z.of_nat (length pat) = c) as Hlen.
  { rewrite Hpat, length_pattern_from by done. by rewrite <- py_sum_foldr. }
  assert (Forall (λ s, (s < n)%nat) pat) as Hbound.
  { rewrite Hpat. apply (bound_pattern_from 0). }
  assert (c ≠ 0 ∧ evaluation_batch_size `mod` c = 0) as [Hc0 Hdiv].
  { unfold py_mod in Hmod. case_decide; [done|]. by injection Hmod. }
  assert (0 < c) as Hc by lia.
  destruct (res_fold_distribute pat c n Hc Hlen Hbound
              (py_range evaluation_batch_size) (replicate n []))
    as (table & Htable & Hn & Hlook); [apply length_replicate|].
  assert (∀ i sub, table !! i = Some sub →
            (i < n)%nat ∧
            sub = filter (λ idx, pat !! Z.to_nat (idx `mod` c) = Some i)
                    (py_range evaluation_batch_size)) as Hsub.
  { intros i sub Hi. rewrite Hlook in Hi.
    destruct (replicate n [] !! i) as [e|] eqn:He; [|done].
    apply lookup_replicate in He as [-> ?]. simpl in Hi. by injection Hi. }
  assert (make_sample_idxs sample_weights evaluation_batch_size = inr table)
    as Hmake.
  { unfold make_sample_idxs. fold c. rewrite Hmod. simpl. exact Htable. }
  exists table. split_and!; [done|done|apply pattern_replicate|..].
  - intros idx Hidx.
    assert (0 ≤ idx `mod` c < c) as Hr by (apply Z.mod_pos_bound; lia).
    destruct (lookup_lt_is_Some_2 pat (Z.to_nat (idx `mod` c))) as [slot Hslot];
      [lia|].
    exists slot. split_and!.
    + unfold py_index. fold pat.
      rewrite (decide_False (P := idx `mod` c < 0)) by lia.
      rewrite (decide_True (P := 0 ≤ idx `mod` c)) by lia.
      by rewrite Hslot.
    + rewrite Hn. eapply Forall_forall in Hbound; [done|].
      by eapply list_elem_of_lookup_2.
    + intros i sub [_ ->]%Hsub. rewrite list_elem_of_filter.
      unfold py_range. rewrite elem_of_seqZ, Hslot. split.
      * by intros [[= ->] _].
      * intros ->. split; [done|lia].
  - intros i sub [_ ->]%Hsub. split.
    + apply NoDup_filter, NoDup_seqZ.
    + intros idx [_ Hin]%list_elem_of_filter.
      unfold py_range in Hin. apply elem_of_seqZ in Hin. lia.
  - intros i weight sub Hw [_ ->]%Hsub.
    assert (0 < weight) as Hweight.
    { eapply Forall_forall in Hpos; [done|]. by eapply list_elem_of_lookup_2. }
    assert (pat ≠ []) as Hne by (intros E; rewrite E in Hlen; simpl in Hlen; lia).
    pose proof (count_cycles pat i (Z.to_nat (evaluation_batch_size `div` c)) Hne)
      as Hcount.
    rewrite Hlen in Hcount.
    assert (0 ≤ evaluation_batch_size `div` c) as Hq by (apply Z.div_pos; lia).
    assert (evaluation_batch_size = evaluation_batch_size `div` c * c) as Hbq.
    { rewrite (Z.div_mod evaluation_batch_size c) at 1 by done. lia. }
    rewrite Z2Nat.id, <- Hbq in Hcount by done.
    unfold py_range. rewrite Hcount.
    rewrite Hpat, (count_pattern_from 0), decide_True by lia.
    rewrite Nat.sub_0_r, Hw. simpl.
    rewrite Nat2Z.inj_mul, !Z2Nat.id by lia.
    rewrite Hbq at 2.
    replace (evaluation_batch_size `div` c * c * weight)
      with (evaluation_batch_size `div` c * weight * c) by lia.
    by rewrite Z.div_mul.
  - intros -> ->. vm_compute in Hmake. by injection Hmake.
Qed.

Lemma sample_idxs_partition_witness :
  make_sample_idxs [3; 1] 8 = inr [[0; 1; 2; 4; 5; 6]; [3; 7]].
Proof.
  destruct (sample_idxs_partition [3; 1] 8) as (table & -> & _ & _ & _ & _ & _ & ->).
  - repeat constructor; lia.
  - lia.
  - reflexivity.
  - reflexivity.
  - reflexivity.
  - reflexivity.
Defined.

(** ** Running the monad *)

Section monad.
Context {S : Type}.

Lemma bind_ok {A B} (m : M S A) (k : A → M S B) s a s' :
  m s = (inr a, s') → (m ≫= k) s = k a s'.
Proof. intros H. unfold mbind, M_bind, bind. by rewrite H. Qed.

Lemma bind_err {A B} (m : M S A) (k : A → M S B) s e s' :
  m s = (inl e, s') → (m ≫= k) s = (inl e, s').
Proof. intros H. unfold mbind, M_bind, bind. by rewrite H. Qed.

Lemma bind_inv_ok {A B} (m : M S A) (k : A → M S B) s b s' :
  (m ≫= k) s = (inr b, s') → ∃ a s1, m s = (inr a, s1) ∧ k a s1 = (inr b, s').
Proof.
  unfold mbind, M_bind, bind. destruct (m s) as [[e|a] s1]; simpl; [done|]. eauto.
Qed.

Lemma bind_inv_err {A B} (m : M S A) (k : A → M S B) s e s' :
  (m ≫= k) s = (inl e, s') →
  m s = (inl e, s') ∨ ∃ a s1, m s = (inr a, s1) ∧ k a s1 = (inl e, s').
Proof.
  unfold mbind, M_bind, bind. destruct (m s) as [[e1|a] s1]; simpl; intros Heq.
  - injection Heq as -> ->. by left.
  - right; eauto.
Qed.
End monad.

Lemma on_snd_eq {S1 S2 A} (m : M S2 A) (s1 : S1) s2 r s2' :
  m s2 = (r, s2') → on_snd m (s1, s2) = (r, (s1, s2')).
Proof. intros H. unfold on_snd. simpl. by rewrite H. Qed.

Lemma on_fst_eq {S1 S2 A} (m : M S1 A) s1 (s2 : S2) r s1' :
  m s1 = (r, s1') → on_fst m (s1, s2) = (r, (s1', s2)).
Proof. intros H. unfold on_fst. simpl. by rewrite H. Qed.

(** ** Equations of the primitives *)

Section primitives.
Context {Float Params Value : Type} `{!RatingEngine Float Value}.
Implicit Types (w : World Float Params) (self : PolicyPool Float Value)
  (p : Policy Float).

Lemma query_policy_by_name_eq nm w :
  query_policy_by_name nm w
  = (inr (snd <$> list_find (has_name w nm) (table w)), w).
Proof. reflexivity. Qed.

Lemma get_module_eq l w :
  get_module l w
  = (match heap w !! l with Some m => inr m | None => inl ReferenceError end, w).
Proof. unfold get_module, mbind, M_bind, bind, get. by destruct (heap w !! l). Qed.

Lemma get_policy_eq oid w :
  get_policy oid w
  = (match objects w !! oid with Some p => inr p | None => inl ReferenceError end, w).
Proof. unfold get_policy, mbind, M_bind, bind, get. by destruct (objects w !! oid). Qed.

Lemma deepcopy_eq l w :
  deepcopy l w
  = match heap w !! l with
    | Some m => (inr (fresh (dom (heap w))),
                 with_heap (<[fresh (dom (heap w)) := m]> (heap w)) w)
    | None => (inl ReferenceError, w)
    end.
Proof.
  unfold deepcopy. unfold mbind at 1, M_bind, bind.
  rewrite get_module_eq. by destruct (heap w !! l).
Qed.

Lemma torch_load_eq file w :
  torch_load file w
  = (match files w !! file with Some x => inr x | None => inl FileNotFoundError end, w).
Proof. unfold torch_load, mbind, M_bind, bind, get. by destruct (files w !! file). Qed.

Lemma load_state_dict_eq l params w :
  load_state_dict l params w
  = match heap w !! l with
    | Some m => (inr tt, with_heap
        (<[l := {| module_class := module_class m; state_dict := params |}]>
           (heap w)) w)
    | None => (inl ReferenceError, w)
    end.
Proof.
  unfold load_state_dict. unfold mbind at 1, M_bind, bind.
  rewrite get_module_eq. by destruct (heap w !! l).
Qed.

Lemma save_model_eq oid l w :
  save_model oid l w
  = match heap w !! l, objects w !! oid with
    | Some m, Some p =>
        (inr tt, with_objects (<[oid := with_model l (module_class m) p]> (objects w))
                   (with_files (<[model_path p := state_dict m]> (files w)) w))
    | _, _ => (inl ReferenceError, w)
    end.
Proof.
  unfold save_model, get_module, get_policy, torch_save, set_policy. munfold.
  by destruct (heap w !! l), (objects w !! oid).
Qed.

Lemma load_model_eq oid l w :
  load_model oid l w
  = match objects w !! oid with
    | None => (inl ReferenceError, w)
    | Some p =>
      match files w !! model_path p with
      | None => (inl FileNotFoundError, w)
      | Some params =>
        match heap w !! l with
        | None => (inl ReferenceError, w)
        | Some m =>
          (inr tt,
           with_objects (<[oid := with_model l (model_class p) p]> (objects w))
             (with_heap (<[l := {| module_class := module_class m;
                                   state_dict := params |}]> (heap w)) w))
        end
      end
    end.
Proof.
  unfold load_model, load_state_dict, get_module, get_policy, torch_load,
    set_policy. munfold.
  destruct (objects w !! oid); [|done]. simpl.
  destruct (files w !! _); [|done]. simpl. by destruct (heap w !! l).
Qed.

Lemma new_policy_eq p w :
  new_policy p w
  = (inr (fresh (dom (objects w))),
     with_objects (<[fresh (dom (objects w)) := p]> (objects w)) w).
Proof. reflexivity. Qed.

Lemma db_add_policy_eq oid w :
  db_add_policy oid w
  = match objects w !! oid with
    | None => (inl ReferenceError, w)
    | Some p =>
      match list_find (has_name w (name p)) (table w) with
      | Some _ => (inl IntegrityError, w)
      | None => (inr tt, with_table (table w ++ [oid]) w)
      end
    end.
Proof.
  unfold db_add_policy, get_policy, query_policy_by_name. munfold.
  destruct (objects w !! oid); [|done]. simpl. by destruct (list_find _ _).
Qed.

End primitives.

(** ** Registration *)

Section registration.
Context {Float Params Value : Type} `{!RatingEngine Float Value}.
Implicit Types (w : World Float Params) (self : PolicyPool Float Value)
  (p : Policy Float).

Lemma has_name_fresh w nm p oid :
  oid ∈ table w → Forall (λ oid, is_Some (objects w !! oid)) (table w) →
  has_name (with_objects (<[fresh (dom (objects w)) := p]> (objects w)) w) nm oid
  ↔ has_name w nm oid.
Proof.
  intros Hin Hall. unfold has_name. simpl.
  rewrite lookup_insert_ne; [done|]. intros <-.
  eapply Forall_forall in Hall; [|done].
  apply elem_of_dom in Hall. by apply is_fresh in Hall.
Qed.

Lemma NoDup_fmap_inj_on {A B} (f : A → B) (l : list A) x y :
  NoDup (f <$> l) → x ∈ l → y ∈ l → f x = f y → x = y.
Proof.
  induction l as [|a l IH]; [by intros _ ?%elem_of_nil|].
  rewrite fmap_cons, NoDup_cons, !elem_of_cons.
  intros [Ha Hl] [->|Hx] [->|Hy] Hf; [done| | |by apply IH].
  - destruct Ha. rewrite Hf. by apply list_elem_of_fmap_2.
  - destruct Ha. rewrite <- Hf. by apply list_elem_of_fmap_2.
Qed.

Lemma row_not_fresh w oid :
  Forall (λ oid, is_Some (objects w !! oid)) (table w) →
  oid ∈ table w → oid ≠ fresh (dom (objects w)).
Proof.
  intros Hall Hin ->. eapply Forall_forall in Hall; [|done].
  apply elem_of_dom in Hall. by apply is_fresh in Hall.
Qed.

(** Two rows with the same name are the same row. *)
Lemma store_ok_unique w nm o1 o2 :
  store_ok w → o1 ∈ table w → o2 ∈ table w →
  has_name w nm o1 → has_name w nm o2 → o1 = o2.
Proof.
  intros [_ Hnd] H1 H2 Hn1 Hn2.
  eapply NoDup_fmap_inj_on; [exact Hnd|done..|].
  unfold has_name in *. simpl. congruence.
Qed.

Lemma list_find_deleted w w' nm :
  store_ok w →
  (∀ o, o ∈ table w → objects w' !! o = objects w !! o) →
  list_find (has_name w' nm)
    (match list_find (has_name w nm) (table w) with
     | Some (_, old) => filter (λ o, o ≠ old) (table w)
     | None => table w
     end) = None.
Proof.
  intros Hok Hagree. apply list_find_None, Forall_forall. intros o Ho Hname.
  assert (o ∈ table w) as Hin.
  { destruct (list_find _ _) as [[i old]|]; [|done].
    by apply list_elem_of_filter in Ho as [_ ?]. }
  assert (has_name w nm o) as Hname'.
  { unfold has_name in *. by rewrite <- Hagree. }
  destruct (list_find _ _) as [[i old]|] eqn:Hfind.
  - apply list_find_Some in Hfind as (Hold & Hnold & _).
    apply list_elem_of_filter in Ho as [Hne _]. apply Hne.
    eapply store_ok_unique; [done..| |done|done].
    by eapply list_elem_of_lookup_2.
  - apply list_find_None in Hfind. eapply Forall_forall in Hfind; done.
Qed.

Lemma add_policy_run model nm is_tenured mu sigma anchor overwrite_existing
    self w m r0 :
  heap w !! model = Some m →
  store_ok w →
  (is_Some (list_find (has_name w nm) (table w)) →
   default true overwrite_existing = true) →
  (anchor = false →
   ratings (rating_add_policy (tournament self) nm) !! nm = Some r0) →
  let l := fresh (dom (heap w)) in
  let oid := fresh (dom (objects w)) in
  let p := {| model_path := path self +:+ "/" +:+ nm;
              model_class := module_class m; name := nm;
              mu := default (pool_mu self) mu;
              sigma := default (pool_sigma self) sigma; episodes := 0;
              additional_data := [("tenured", is_tenured)];
              model := Some l |} in
  add_policy model nm is_tenured mu sigma anchor overwrite_existing (self, w)
  = (inr tt,
     (with_tournament
        (if anchor then rating_set_anchor (tournament self) nm
         else with_ratings
                (<[nm := {| rating_mu := default (pool_mu self) mu;
                            rating_sigma := default (pool_sigma self) sigma |}]>
                   (ratings (rating_add_policy (tournament self) nm)))
                (rating_add_policy (tournament self) nm)) self,
      {| heap := <[l := m]> (heap w);
         files := <[model_path p := state_dict m]> (files w);
         objects := <[oid := p]> (objects w);
         table := match list_find (has_name w nm) (table w) with
                  | Some (_, old) => filter (λ o, o ≠ old) (table w)
                  | None => table w
                  end ++ [oid] |})).
Proof.
  intros Hm [Hobj Hnd] Hov Hreg l oid p. unfold add_policy.
  rewrite (bind_ok _ _ (self, w) self (self, w)) by done.
  erewrite bind_ok; [|apply on_snd_eq, query_policy_by_name_eq].
  set (w1 := with_table (match list_find (has_name w nm) (table w) with
                  | Some (_, old) => filter (λ o, o ≠ old) (table w)
                  | None => table w
                  end) w).
  erewrite (bind_ok _ _ _ tt (self, w1)); cycle 1.
  { destruct (list_find _ _) as [[i old]|] eqn:Hfind; simpl.
    - rewrite Hov by eauto. done.
    - by destruct w. }
  erewrite bind_ok; [|apply on_snd_eq; rewrite deepcopy_eq; simpl; rewrite Hm; done].
  erewrite bind_ok; cycle 1.
  { apply on_snd_eq. rewrite get_module_eq. simpl. by rewrite lookup_insert_eq. }
  erewrite bind_ok; [|apply on_snd_eq, new_policy_eq].
  erewrite bind_ok; cycle 1.
  { apply on_snd_eq. rewrite save_model_eq. simpl.
    rewrite !lookup_insert_eq. reflexivity. }
  erewrite bind_ok; cycle 1.
  { apply on_snd_eq. rewrite db_add_policy_eq. simpl.
    rewrite lookup_insert_eq. simpl.
    rewrite (list_find_deleted w _ nm); [reflexivity|done|].
    intros o Ho. simpl. rewrite !lookup_insert_ne; [done|..];
      by apply not_eq_sym, row_not_fresh. }
  rewrite insert_insert_eq. destruct anchor.
  - reflexivity.
  - specialize (Hreg eq_refl).
    erewrite bind_ok; [|apply on_fst_eq; reflexivity].
    erewrite bind_ok; cycle 1.
    { unfold set_rating_mu.
      erewrite bind_ok; [|apply on_fst_eq; reflexivity].
      simpl. rewrite Hreg. apply on_fst_eq. reflexivity. }
    unfold set_rating_sigma.
    erewrite bind_ok; [|apply on_fst_eq; reflexivity].
    simpl. rewrite lookup_insert_eq. simpl. rewrite insert_insert_eq.
    reflexivity.
Qed.

(** After an insertion the name resolves to the new row. *)
Lemma list_find_added w w' nm new p :
  store_ok w →
  new = fresh (dom (objects w)) →
  objects w' = <[new := p]> (objects w) →
  name p = nm →
  ∃ i, list_find (has_name w' nm)
         (match list_find (has_name w nm) (table w) with
          | Some (_, old) => filter (λ o, o ≠ old) (table w)
          | None => table w
          end ++ [new]) = Some (i, new).
Proof.
  intros Hok -> Hobj Hname. eexists.
  rewrite list_find_app_r.
  - simpl. rewrite decide_True; [done|].
    unfold has_name. by rewrite Hobj, lookup_insert_eq, <- Hname.
  - apply list_find_deleted; [done|]. intros o Ho.
    rewrite Hobj, lookup_insert_ne; [done|].
    apply not_eq_sym, row_not_fresh; [apply Hok|done].
Qed.



(** C3.  When the Store holds a record named [nm], [add_policy] with that
    name and [overwrite_existing=False] raises [ValueError] and changes
    nothing: the pool's attributes (the Rating Engine among them) and the
    world (rows, objects, snapshot files, modules) are the ones before the
    call, so the prior record is still the one stored under the name. *)
Theorem add_policy_naming_conflict model nm is_tenured mu sigma anchor
    self w oid p :
  stored w nm oid p →
  add_policy model nm is_tenured mu sigma anchor (Some false) (self, w)
  = (inl ValueError, (self, w)).
Proof.
  intros [Hq _]. rewrite query_policy_by_name_eq in Hq. simpl in Hq.
  injection Hq as Hq. unfold add_policy.
  rewrite (bind_ok _ _ (self, w) self (self, w)) by done.
  erewrite bind_ok; [|apply on_snd_eq, query_policy_by_name_eq].
  rewrite Hq. reflexivity.
Qed.



(** [add_policy] raises [ValueError] only on the naming conflict. *)
Lemma add_policy_ValueError model nm is_tenured mu_arg sigma_arg anchor
    overwrite_existing (st st' : PolicyPool Float Value * World Float Params) :
  add_policy model nm is_tenured mu_arg sigma_arg anchor overwrite_existing st
  = (inl ValueError, st') →
  overwrite_existing = Some false ∧
  ∃ oid, (query_policy_by_name nm st.2).1 = inr (Some oid).
Proof.
  destruct st as [self w]. unfold add_policy.
  rewrite (bind_ok _ _ (self, w) self (self, w)) by done.
  erewrite bind_ok; [|apply on_snd_eq, query_policy_by_name_eq].
  rewrite query_policy_by_name_eq. simpl.
  destruct (list_find _ _) as [[i old]|] eqn:Hfind; simpl;
    [destruct overwrite_existing as [[|]|]; simpl|].
  2:{ intros _. eauto. }
  all: unfold save_model, db_add_policy, deepcopy, get_module, new_policy,
    get_policy, torch_save, set_policy, query_policy_by_name, delete_policy,
    set_rating_mu, set_rating_sigma, get_self, on_fst, on_snd;
    munfold; intros Herr; exfalso;
    repeat (case_match; simpl in *; simplify_eq).
Qed.

(** C10.  With [overwrite_existing] omitted, [add_policy] on a name that is
    in the Store returns without raising: the old row is gone and the name
    resolves to a new record with the supplied values; and whatever the
    arguments and the state, [add_policy] raises [ValueError] only when
    [overwrite_existing=False] was passed. *)
Theorem add_policy_overwrites_by_default model nm is_tenured mu_arg sigma_arg
    anchor self w m old p_old r0 :
  stored w nm old p_old →
  store_ok w →
  heap w !! model = Some m →
  (anchor = false →
   ratings (rating_add_policy (tournament self) nm) !! nm = Some r0) →
  (∃ self' w' added p_new,
     add_policy model nm is_tenured mu_arg sigma_arg anchor None (self, w)
     = (inr tt, (self', w')) ∧
     (old ∉ table w') ∧
     added ≠ old ∧
     stored w' nm added p_new ∧
     mu p_new = default (pool_mu self) mu_arg ∧
     sigma p_new = default (pool_sigma self) sigma_arg ∧
     episodes p_new = 0 ∧
     tenured p_new = is_tenured) ∧
  (∀ model' nm' is_tenured' mu' sigma' anchor' overwrite_existing
     (st st' : PolicyPool Float Value * World Float Params),
     add_policy model' nm' is_tenured' mu' sigma' anchor' overwrite_existing st
     = (inl ValueError, st') →
     overwrite_existing = Some false).
Proof.
  intros [Hq Hold] Hok Hm Hreg. split; [|intros; by eapply add_policy_ValueError].
  rewrite query_policy_by_name_eq in Hq. simpl in Hq.
  destruct (list_find (has_name w nm) (table w)) as [[i old']|] eqn:Hfind;
    [|done]. simpl in Hq. injection Hq as ->.
  pose proof (add_policy_run model nm is_tenured mu_arg sigma_arg anchor
    None self w m r0 Hm Hok) as Hrun.
  simpl in Hrun. rewrite Hfind in Hrun.
  assert (old ∈ table w) as Hin.
  { apply list_find_Some in Hfind as [? _]. by eapply list_elem_of_lookup_2. }
  assert (old ≠ fresh (dom (objects w))) as Hne
    by (apply row_not_fresh; [apply Hok|done]).
  eexists _, _, (fresh (dom (objects w))), _.
  split; [apply Hrun; done|]. simpl.
  assert (∀ A B C D E : Prop,
            A → B → D → (D → C) → E → A ∧ B ∧ (C ∧ D) ∧ E) as Hsplit by tauto.
  apply Hsplit; [| |apply lookup_insert_eq| |by split_and!].
  - rewrite elem_of_app, list_elem_of_filter, list_elem_of_singleton.
    intros [[? _]|?]; done.
  - done.
  - intros _. rewrite query_policy_by_name_eq. simpl.
    edestruct (list_find_added w) as [j Hj]; [done|reflexivity| | |].
    3:{ rewrite Hfind in Hj. rewrite Hj. reflexivity. }
    + reflexivity.
    + reflexivity.
Qed.

End registration.

(** ** Relations kept by every step of a computation *)

Section preserve.
Context {S : Type} (R : S → S → Prop).
Hypothesis R_refl : ∀ s, R s s.
Hypothesis R_trans : ∀ s1 s2 s3, R s1 s2 → R s2 s3 → R s1 s3.

Lemma bind_preserves {A B} (m : M S A) (k : A → M S B) :
  (∀ s, R s (m s).2) → (∀ a s, R s (k a s).2) → ∀ s, R s ((m ≫= k) s).2.
Proof.
  intros Hm Hk s. unfold mbind, M_bind, bind. specialize (Hm s).
  destruct (m s) as [[e|a] s1]; simpl in *; [done|].
  eapply R_trans; [exact Hm|apply Hk].
Qed.

Lemma for_preserves {A} (body : A → M S unit) :
  (∀ x s, R s (body x s).2) → ∀ l s, R s (for_ l body s).2.
Proof.
  intros Hbody l. induction l as [|x l IH]; intros s; simpl; [apply R_refl|].
  apply (bind_preserves (body x) (λ _, for_ l body)); [apply Hbody|done].
Qed.

Lemma fold_preserves {A B} (body : B → A → M S B) :
  (∀ acc x s, R s (body acc x s).2) → ∀ l acc s, R s (fold_ l acc body s).2.
Proof.
  intros Hbody l. induction l as [|x l IH]; intros acc s; simpl;
    [apply R_refl|].
  apply (bind_preserves (body acc x) (λ acc', fold_ l acc' body));
    [apply Hbody|done].
Qed.
End preserve.

Section frame.
Context {Float Params Value : Type} `{!RatingEngine Float Value}.
Implicit Types (w : World Float Params) (self : PolicyPool Float Value)
  (p : Policy Float) (st : PolicyPool Float Value * World Float Params).

Lemma insert_fresh_subseteq {A} (h : gmap nat A) (x : A) :
  h ⊆ <[fresh (dom h) := x]> h.
Proof. apply insert_subseteq, not_elem_of_dom, is_fresh. Qed.

(** Module objects are never overwritten by a registration. *)
Lemma add_policy_heap model nm is_tenured mu_arg sigma_arg anchor
    overwrite_existing st :
  heap st.2 ⊆
  heap (add_policy model nm is_tenured mu_arg sigma_arg anchor
          overwrite_existing st).2.2.
Proof.
  destruct st as [self w].
  unfold add_policy, save_model, db_add_policy, deepcopy, get_module,
    new_policy, get_policy, torch_save, set_policy, query_policy_by_name,
    delete_policy, set_rating_mu, set_rating_sigma, get_self, on_fst, on_snd.
  munfold.
  repeat (case_match; simpl in *; simplify_eq);
    done || apply insert_fresh_subseteq.
Qed.

Lemma add_policy_copy_heap key nm is_tenured anchor st :
  heap st.2 ⊆ heap (add_policy_copy key nm is_tenured anchor st).2.2.
Proof.
  destruct st as [self w]. unfold add_policy_copy.
  unfold mbind at 1, M_bind, bind. simpl.
  destruct (snd <$> list_find _ _) as [original|]; [|done].
  unfold mbind at 1, M_bind, bind, on_snd. simpl. rewrite get_policy_eq.
  destruct (objects w !! original) as [p|]; [|done]. simpl.
  destruct (model p); [|done]. apply (add_policy_heap _ _ _ _ _ _ _ (self, w)).
Qed.

(** One iteration of the activation loop allocates a module and writes to
    it alone. *)
Lemma activate_heap (lrn : nat) (policy : option nat) st :
  heap st.2 ⊆
  heap (match policy with
        | None => raise AttributeError
        | Some oid => l ← on_snd (deepcopy lrn); on_snd (load_model oid l)
        end st).2.2.
Proof.
  destruct st as [self w], policy as [oid|]; [|done].
  unfold mbind, M_bind, bind, on_snd. simpl. rewrite deepcopy_eq.
  destruct (heap w !! lrn) as [m|]; [|done]. rewrite load_model_eq. simpl.
  destruct (objects w !! oid) as [p|]; [|apply insert_fresh_subseteq].
  destruct (files w !! model_path p); [|apply insert_fresh_subseteq].
  rewrite lookup_insert_eq. simpl. rewrite insert_insert_eq.
  apply insert_fresh_subseteq.
Qed.

Lemma update_active_policies_heap rng st :
  heap st.2 ⊆ heap (update_active_policies rng st).2.2.
Proof.
  destruct st as [self w]. unfold update_active_policies.
  rewrite (bind_ok _ _ (self, w) self (self, w)) by done.
  erewrite bind_ok; [|apply on_snd_eq, query_policy_by_name_eq].
  erewrite (bind_ok _ _ _ (table w)); [|apply on_snd_eq; reflexivity].
  destruct (np_random_choice _ _ _) as [e|sampled] eqn:Hchoice.
  { erewrite bind_err; [|reflexivity]. done. }
  erewrite bind_ok; [|reflexivity].
  erewrite bind_ok; [|apply on_fst_eq; reflexivity].
  etrans; [|apply (for_preserves (λ st st', heap st.2 ⊆ heap st'.2))];
    [done|done| |].
  - intros s1 s2 s3 ? ?. by etrans.
  - intros policy st. apply activate_heap.
Qed.

Lemma update_scores_world infos info_key st :
  (update_scores infos info_key st).2.2 = st.2.
Proof.
  destruct st as [self w]. unfold update_scores.
  rewrite (bind_ok _ _ (self, w) self (self, w)) by done.
  apply eq_sym.
  apply (fold_preserves (λ st st' : PolicyPool Float Value * World Float Params,
                           st.2 = st'.2)); [done|congruence|].
  intros acc [samp policy] [self1 w1]. cbv beta iota.
  destruct (np_take (infos ≫= λ info, info.*2) samp) as [e|pol_infos] eqn:Htake.
  { erewrite bind_err; [done|reflexivity]. }
  erewrite bind_ok; [|reflexivity].
  assert (∃ r, match policy with
               | None => raise AttributeError
               | Some oid => p ← on_snd (get_policy oid); ret (name p)
               end (self1, w1) = (r, (self1, w1))) as [r Hr].
  { destruct policy as [oid|]; [|by eexists].
    unfold mbind, M_bind, bind, on_snd. simpl. rewrite get_policy_eq.
    destruct (objects w1 !! oid); by eexists. }
  destruct r as [e|nm]; [by erewrite bind_err|].
  erewrite bind_ok; [|done].
  apply (bind_preserves (λ st st' : PolicyPool Float Value * World Float Params,
                           st.2 = st'.2)); [congruence| |by intros ? [? ?]].
  apply (for_preserves (λ st st' : PolicyPool Float Value * World Float Params,
                           st.2 = st'.2)); [done|congruence|].
  intros i [self2 w2]. by destruct (i !! info_key).
Qed.

End frame.

Lemma for_cons {S A} (x : A) (l : list A) (body : A → M S unit) :
  for_ (x :: l) body = body x ≫= λ _, for_ l body.
Proof. reflexivity. Qed.

Lemma fold_cons {S A B} (x : A) (l : list A) (acc : B) (body : B → A → M S B) :
  fold_ (x :: l) acc body = body acc x ≫= λ acc', fold_ l acc' body.
Proof. reflexivity. Qed.

(** ** The rank update *)

Section ranks.
Context {Float Params Value : Type} `{!RatingEngine Float Value}.
Implicit Types (w : World Float Params) (self : PolicyPool Float Value)
  (p : Policy Float) (st : PolicyPool Float Value * World Float Params).

(** The body of the write-back loop of [update_ranks] (lines 262-267). *)
Lemma write_back_eq nm (rating : Rating Float) self w :
  (policy ← on_snd (query_policy_by_name nm);
   match policy with
   | Some oid =>
       p ← on_snd (get_policy oid);
       on_snd (set_policy oid (with_rating rating p));;
       on_snd (update_policy oid)
   | None => ret tt
   end) (self, w)
  = (inr tt,
     (self,
      match list_find (has_name w nm) (table w) with
      | Some (_, oid) =>
          match objects w !! oid with
          | Some p => with_objects (<[oid := with_rating rating p]> (objects w)) w
          | None => w
          end
      | None => w
      end)).
Proof.
  erewrite bind_ok; [|apply on_snd_eq, query_policy_by_name_eq].
  destruct (list_find _ _) as [[i oid]|] eqn:Hfind; [|done]. simpl.
  apply list_find_Some in Hfind as (_ & Hname & _). unfold has_name in Hname.
  destruct (objects w !! oid) as [p|] eqn:Hp; [|done].
  erewrite bind_ok; [|apply on_snd_eq; rewrite get_policy_eq, Hp; reflexivity].
  reflexivity.
Qed.

Lemma write_back_loop (l : list (string * Rating Float)) self w :
  NoDup l.*1 →
  ∃ w',
    for_ l (λ '(nm, rating),
      policy ← on_snd (query_policy_by_name nm);
      match policy with
      | Some oid =>
          p ← on_snd (get_policy oid);
          on_snd (set_policy oid (with_rating rating p));;
          on_snd (update_policy oid)
      | None => ret tt
      end) (self, w) = (inr tt, (self, w')) ∧
    table w' = table w ∧ heap w' = heap w ∧ files w' = files w ∧
    (∀ oid, name <$> objects w' !! oid = name <$> objects w !! oid) ∧
    (∀ nm r oid p, (nm, r) ∈ l → stored w nm oid p →
       objects w' !! oid = Some (with_rating r p)) ∧
    (∀ oid, (∀ nm r p, (nm, r) ∈ l → ¬ stored w nm oid p) →
       objects w' !! oid = objects w !! oid).
Proof.
  revert w. induction l as [|[nm r] l IH]; intros w Hnd.
  { exists w. split_and!; try done. by intros ? ? ? ? ?%elem_of_nil. }
  rewrite fmap_cons, NoDup_cons in Hnd. destruct Hnd as [Hnm Hnd].
  set (w1 := match list_find (has_name w nm) (table w) with
             | Some (_, oid) =>
                 match objects w !! oid with
                 | Some p =>
                     with_objects (<[oid := with_rating r p]> (objects w)) w
                 | None => w
                 end
             | None => w
             end).
  assert (table w1 = table w ∧ heap w1 = heap w ∧ files w1 = files w)
    as (Ht1 & Hh1 & Hf1).
  { unfold w1. destruct (list_find _ _) as [[? oid]|]; [|done].
    by destruct (objects w !! oid). }
  assert (∀ oid, name <$> objects w1 !! oid = name <$> objects w !! oid)
    as Hn1.
  { intros oid. unfold w1.
    destruct (list_find _ _) as [[? oid0]|]; [|done].
    destruct (objects w !! oid0) as [p|] eqn:Hp; [|done]. simpl.
    destruct (decide (oid0 = oid)) as [->|].
    - by rewrite lookup_insert_eq, Hp.
    - by rewrite lookup_insert_ne. }
  assert (∀ nm', list_find (has_name w1 nm') (table w1)
                 = list_find (has_name w nm') (table w)) as Hq1.
  { intros nm'. rewrite Ht1. apply list_find_ext. intros oid.
    unfold has_name. by rewrite Hn1. }
  destruct (IH w1 Hnd) as (w' & Hrun & Ht & Hh & Hf & Hn & Hin & Hout).
  exists w'. split_and!.
  - rewrite for_cons. erewrite bind_ok; [exact Hrun|]. apply write_back_eq.
  - congruence.
  - congruence.
  - congruence.
  - intros oid. by rewrite Hn.
  - intros nm' r' oid p [[= -> ->]|Hl]%elem_of_cons [Hq Hp].
    + rewrite Hout.
      * unfold w1. rewrite query_policy_by_name_eq in Hq. simpl in Hq.
        destruct (list_find _ _) as [[? oid0]|]; [|done].
        injection Hq as ->. rewrite Hp. simpl. apply lookup_insert_eq.
      * intros nm' r' p' Hl' [Hq' Hp']. apply Hnm.
        apply list_elem_of_fmap. exists (nm', r'). split; [|done]. simpl.
        rewrite query_policy_by_name_eq in Hq, Hq'. simpl in Hq, Hq'.
        rewrite Hq1 in Hq'.
        destruct (list_find (has_name w nm) _) as [[? o1]|] eqn:H1; [|done].
        destruct (list_find (has_name w nm') _) as [[? o2]|] eqn:H2; [|done].
        apply list_find_Some in H1 as (_ & H1 & _).
        apply list_find_Some in H2 as (_ & H2 & _).
        simpl in Hq, Hq'. injection Hq as ->. injection Hq' as ->.
        unfold has_name in *. congruence.
    + apply Hin with nm'; [done|]. split.
      * rewrite query_policy_by_name_eq in *. simpl in *. by rewrite Hq1.
      * unfold w1. destruct (list_find (has_name w nm) _) as [[? o1]|] eqn:H1;
          [|done].
        destruct (objects w !! o1) as [p1|] eqn:Hp1; [|done]. simpl.
        rewrite lookup_insert_ne; [done|]. intros ->.
        apply Hnm. apply list_elem_of_fmap. exists (nm', r'). split; [|done].
        simpl. rewrite query_policy_by_name_eq in Hq. simpl in Hq.
        destruct (list_find (has_name w nm') _) as [[? o2]|] eqn:H2; [|done].
        apply list_find_Some in H1 as (_ & H1 & _).
        apply list_find_Some in H2 as (_ & H2 & _).
        simpl in Hq. injection Hq as ->. unfold has_name in *. congruence.
  - intros oid Hnot. rewrite Hout.
    + unfold w1. destruct (list_find (has_name w nm) _) as [[? o1]|] eqn:H1;
        [|done].
      destruct (objects w !! o1) as [p1|] eqn:Hp1; [|done]. simpl.
      rewrite lookup_insert_ne; [done|]. intros ->.
      apply (Hnot nm r p1); [left|]. split; [|done].
      rewrite query_policy_by_name_eq. simpl. by rewrite H1.
    + intros nm' r' p' Hl' [Hq' Hp'].
      assert (∃ p0, objects w !! oid = Some p0) as [p0 Hp0].
      { specialize (Hn1 oid). rewrite Hp' in Hn1.
        destruct (objects w !! oid); [by eexists|done]. }
      apply (Hnot nm' r' p0); [by right|]. split; [|done].
      rewrite query_policy_by_name_eq in *. simpl in *. by rewrite <- Hq1.
Qed.

Lemma with_rating_id p (r : Rating Float) :
  mu p = rating_mu r → sigma p = rating_sigma r → with_rating r p = p.
Proof. destruct p. unfold with_rating. simpl. by intros <- <-. Qed.

(** What a rank update does, whatever the engine computes: the engine is
    given the ledger, every listed name that is stored gets the engine's
    rating, every other object is left alone, and the ledger is emptied. *)
Lemma update_ranks_run self w :
  ∃ w',
    update_ranks (self, w)
    = (inr tt,
       (with_scores [] (num_scores self)
          (with_tournament
             (rating_update (tournament self) (scores self).*1 (scores self).*2)
             self), w')) ∧
    table w' = table w ∧ heap w' = heap w ∧ files w' = files w ∧
    (∀ nm, (query_policy_by_name nm w').1 = (query_policy_by_name nm w).1) ∧
    (∀ nm r oid p,
       ratings (rating_update (tournament self) (scores self).*1
                  (scores self).*2) !! nm = Some r →
       stored w nm oid p → objects w' !! oid = Some (with_rating r p)) ∧
    (∀ nm oid p,
       ratings (rating_update (tournament self) (scores self).*1
                  (scores self).*2) !! nm = None →
       stored w nm oid p → objects w' !! oid = Some p).
Proof.
  set (t' := rating_update (tournament self) (scores self).*1 (scores self).*2).
  destruct (write_back_loop (map_to_list (ratings t')) (with_tournament t' self) w)
    as (w' & Hrun & Ht & Hh & Hf & Hn & Hin & Hout).
  { apply NoDup_fst_map_to_list. }
  exists w'. split_and!; try done.
  - unfold update_ranks.
    erewrite bind_ok; [|apply on_fst_eq; reflexivity].
    erewrite bind_ok; [|apply on_fst_eq; reflexivity].
    erewrite bind_ok; [|exact Hrun]. reflexivity.
  - intros nm. rewrite !query_policy_by_name_eq. simpl. rewrite Ht.
    f_equal. f_equal. apply list_find_ext. intros oid. unfold has_name.
    by rewrite Hn.
  - intros nm r oid p Hr Hst. eapply Hin; [|done].
    by apply elem_of_map_to_list.
  - intros nm oid p Hr [Hq Hp]. rewrite Hout; [done|].
    intros nm' r' p' Hl [Hq' Hp']. apply elem_of_map_to_list in Hl.
    rewrite query_policy_by_name_eq in Hq, Hq'. simpl in Hq, Hq'.
    destruct (list_find (has_name w nm) _) as [[? o1]|] eqn:H1; [|done].
    destruct (list_find (has_name w nm') _) as [[? o2]|] eqn:H2; [|done].
    apply list_find_Some in H1 as (_ & H1 & _).
    apply list_find_Some in H2 as (_ & H2 & _).
    simpl in Hq, Hq'. injection Hq as ->. injection Hq' as ->.
    unfold has_name in *. congruence.
Qed.

(** After a rank update the Store agrees with the engine on every name they
    both hold. *)
Lemma update_ranks_consistent self w self' w' nm oid p r :
  update_ranks (self, w) = (inr tt, (self', w')) →
  stored w' nm oid p → ratings (tournament self') !! nm = Some r →
  mu p = rating_mu r ∧ sigma p = rating_sigma r.
Proof.
  destruct (update_ranks_run self w)
    as (w1 & Hrun & _ & _ & _ & Hq & Hin & _).
  rewrite Hrun. intros [= <- <-] [Hq' Hp] Hr. simpl in Hr.
  assert (∃ p0, stored w nm oid p0) as [p0 Hp0].
  { rewrite Hq in Hq'. rewrite query_policy_by_name_eq in Hq'. simpl in Hq'.
    destruct (list_find _ _) as [[i o]|] eqn:Hfind; [|done].
    injection Hq' as ->. pose proof Hfind as Hfind'.
    apply list_find_Some in Hfind' as (_ & Hname & _).
    unfold has_name in Hname. destruct (objects w !! oid) as [p0|] eqn:E; [|done].
    exists p0. split; [|done]. rewrite query_policy_by_name_eq. simpl.
    by rewrite Hfind. }
  rewrite (Hin nm r oid p0 Hr Hp0) in Hp. by injection Hp as <-.
Qed.


End ranks.

Lemma np_random_choice_inr {A} (rng : nat → nat) (a : list A) (size : Z) l :
  np_random_choice rng a size = inr l →
  0 ≤ size ∧ length l = Z.to_nat size ∧ Forall (λ x, x ∈ a) l.
Proof.
  unfold np_random_choice. case_decide; [done|]. destruct a as [|x a].
  - case_decide; [|done]. intros [= <-]. subst. split_and!; [done|done|].
    constructor.
  - intros [= <-]. split_and!; [lia|by rewrite length_fmap, length_seq|].
    apply Forall_fmap, Forall_forall. intros i _. simpl.
    destruct ((x :: a) !! _) as [y|] eqn:Hy; simpl; [|left].
    by eapply list_elem_of_lookup_2.
Qed.

Lemma np_random_choice_total {A} (rng : nat → nat) (a : list A) (size : Z) :
  0 ≤ size → a ≠ [] → ∃ l, np_random_choice rng a size = inr l.
Proof.
  intros Hsize Ha. unfold np_random_choice. rewrite decide_False by lia.
  destruct a; [done|]. by eexists.
Qed.

(** ** The roster rotation *)

Section rotation.
Context {Float Params Value : Type} `{!RatingEngine Float Value}.
Implicit Types (w : World Float Params) (self : PolicyPool Float Value)
  (p : Policy Float) (st : PolicyPool Float Value * World Float Params).

(** One iteration of the activation loop (lines 278-279). *)
Lemma activate_eq (ll : nat) self w oid :
  (l ← on_snd (deepcopy ll); on_snd (load_model oid l)) (self, w)
  = match heap w !! ll with
    | None => (inl ReferenceError, (self, w))
    | Some lrn =>
      let l := fresh (dom (heap w)) in
      match objects w !! oid with
      | None =>
          (inl ReferenceError, (self, with_heap (<[l := lrn]> (heap w)) w))
      | Some p =>
        match files w !! model_path p with
        | None =>
            (inl FileNotFoundError,
             (self, with_heap (<[l := lrn]> (heap w)) w))
        | Some params =>
            (inr tt,
             (self,
              with_objects
                (<[oid := with_model l (model_class p) p]> (objects w))
                (with_heap
                   (<[l := {| module_class := module_class lrn;
                              state_dict := params |}]> (heap w)) w)))
        end
      end
    end.
Proof.
  unfold mbind, M_bind, bind, on_snd. simpl. rewrite deepcopy_eq.
  destruct (heap w !! ll) as [lrn|]; [|done].
  rewrite load_model_eq. simpl.
  destruct (objects w !! oid) as [p|]; [|done].
  destruct (files w !! model_path p); [|done].
  rewrite lookup_insert_eq. simpl. by rewrite insert_insert_eq.
Qed.

(** The state of the activation loop after the slots [pre]: files and rows
    are as at the start [w0], no module of [w0] was touched, the objects of
    the slots are activated and every other object is as it was. *)
Lemma activate_step (ll : nat) self lrn w0 (pre : list nat) w oid p0 params :
  heap w0 !! ll = Some lrn →
  files w = files w0 → table w = table w0 → heap w0 ⊆ heap w →
  (∀ o, o ∉ pre → objects w !! o = objects w0 !! o) →
  (∀ o, o ∈ pre → materialized lrn w0 w o) →
  objects w0 !! oid = Some p0 →
  files w0 !! model_path p0 = Some params →
  ∃ w',
    (l ← on_snd (deepcopy ll); on_snd (load_model oid l)) (self, w)
    = (inr tt, (self, w')) ∧
    files w' = files w0 ∧ table w' = table w0 ∧ heap w0 ⊆ heap w' ∧
    (∀ o, o ∉ pre ++ [oid] → objects w' !! o = objects w0 !! o) ∧
    (∀ o, o ∈ pre ++ [oid] → materialized lrn w0 w' o).
Proof.
  intros Hlrn Hf Ht Hh Hout Hin Hp0 Hparams.
  assert (heap w !! ll = Some lrn) as Hlrn'
    by (eapply lookup_weaken; done).
  assert (∃ p, objects w !! oid = Some p ∧ model_path p = model_path p0 ∧
               ∀ l, with_model l (model_class p) p
                    = with_model l (model_class p0) p0) as (p & Hp & Hpath & Hwm).
  { destruct (decide (oid ∈ pre)) as [Hpre|Hpre].
    - destruct (Hin oid Hpre) as (p1 & l1 & ? & Hp1 & Hp1' & _).
      rewrite Hp0 in Hp1. injection Hp1 as <-. eexists. split; [done|].
      by destruct p0.
    - exists p0. by rewrite Hout. }
  rewrite activate_eq, Hlrn', Hp, Hpath, Hf, Hparams. simpl.
  eexists. split; [reflexivity|]. simpl.
  assert (fresh (dom (heap w)) ∉ dom (heap w0)) as Hfresh.
  { intros Hd. apply (is_fresh (dom (heap w))).
    apply elem_of_dom in Hd as [x Hx]. apply elem_of_dom. exists x.
    by eapply lookup_weaken. }
  split_and!; [done|done| | |].
  - etrans; [exact Hh|]. apply insert_subseteq, not_elem_of_dom, is_fresh.
  - intros o Ho. rewrite not_elem_of_app, list_elem_of_singleton in Ho.
    destruct Ho as [Ho1 Ho2]. rewrite lookup_insert_ne by done. by apply Hout.
  - intros o Ho. destruct (decide (o = oid)) as [->|Hne].
    + exists p0, (fresh (dom (heap w))), params.
      rewrite Hwm. simpl. rewrite !lookup_insert_eq. done.
    + rewrite elem_of_app, list_elem_of_singleton in Ho.
      destruct Ho as [Ho|Ho]; [|done].
      destruct (Hin o Ho) as (p1 & l1 & params1 & ? & ? & ? & Hl1 & ?).
      exists p1, l1, params1. simpl. rewrite lookup_insert_ne by done.
      split_and!; try done. rewrite lookup_insert_ne; [done|].
      intros <-. apply (is_fresh (dom (heap w))). by apply elem_of_dom.
Qed.

(** If the loop goes through, every slot holds an object and all of them
    are activated. *)
Lemma activation_loop_ok (ll : nat) self lrn w0 (roster : list (option nat)) :
  heap w0 !! ll = Some lrn →
  ∀ (pre : list nat) w st',
  files w = files w0 → table w = table w0 → heap w0 ⊆ heap w →
  (∀ o, o ∉ pre → objects w !! o = objects w0 !! o) →
  (∀ o, o ∈ pre → materialized lrn w0 w o) →
  for_ roster (λ policy,
    match policy with
    | None => raise AttributeError
    | Some oid =>
        l ← on_snd (deepcopy ll); on_snd (load_model oid l)
    end) (self, w) = (inr tt, st') →
  ∃ oids w',
    roster = Some <$> oids ∧ st' = (self, w') ∧
    files w' = files w0 ∧ table w' = table w0 ∧ heap w0 ⊆ heap w' ∧
    (∀ o, o ∉ pre ++ oids → objects w' !! o = objects w0 !! o) ∧
    (∀ o, o ∈ pre ++ oids → materialized lrn w0 w' o).
Proof.
  intros Hlrn. induction roster as [|policy roster IH];
    intros pre w st' Hf Ht Hh Hout Hin Hrun.
  { injection Hrun as <-. exists [], w. rewrite app_nil_r. by split_and!. }
  rewrite for_cons in Hrun.
  apply bind_inv_ok in Hrun as ([] & st1 & Hstep & Hrest).
  destruct policy as [oid|]; [|done].
  assert (∃ p0 params, objects w0 !! oid = Some p0 ∧
                       files w0 !! model_path p0 = Some params)
    as (p0 & params & Hp0 & Hparams).
  { rewrite activate_eq in Hstep.
    destruct (heap w !! ll); [|done]. simpl in Hstep.
    destruct (objects w !! oid) as [p|] eqn:Hp; [|done].
    destruct (files w !! model_path p) as [params|] eqn:Hparams; [|done].
    rewrite Hf in Hparams.
    destruct (decide (oid ∈ pre)) as [Hpre|Hpre].
    - destruct (Hin oid Hpre) as (p1 & l1 & params1 & Hp1 & Hp1' & _ & _ & ?).
      by exists p1, params1.
    - exists p, params. by rewrite <- Hout. }
  destruct (activate_step ll self lrn w0 pre w oid p0 params)
    as (w1 & Hstep' & Hf1 & Ht1 & Hh1 & Hout1 & Hin1); [done..|].
  rewrite Hstep' in Hstep. injection Hstep as <-.
  destruct (IH (pre ++ [oid]) w1 st')
    as (oids & w' & -> & -> & Hf' & Ht' & Hh' & Hout' & Hin'); [done..|].
  exists (oid :: oids), w'. rewrite <- app_assoc in Hout', Hin'.
  by split_and!.
Qed.

(** The loop goes through when every slot holds an object of the start
    world whose snapshot file exists. *)
Lemma activation_loop_total (ll : nat) self lrn w0 (oids : list nat) :
  heap w0 !! ll = Some lrn →
  Forall (λ oid, ∃ p0, objects w0 !! oid = Some p0 ∧
                       is_Some (files w0 !! model_path p0)) oids →
  ∀ (pre : list nat) w,
  files w = files w0 → table w = table w0 → heap w0 ⊆ heap w →
  (∀ o, o ∉ pre → objects w !! o = objects w0 !! o) →
  (∀ o, o ∈ pre → materialized lrn w0 w o) →
  ∃ st',
    for_ (Some <$> oids) (λ policy,
      match policy with
      | None => raise AttributeError
      | Some oid =>
          l ← on_snd (deepcopy ll); on_snd (load_model oid l)
      end) (self, w) = (inr tt, st').
Proof.
  intros Hlrn Hall. induction Hall as [|oid oids (p0 & Hp0 & [params Hparams]) _ IH];
    intros pre w Hf Ht Hh Hout Hin; [by eexists|].
  destruct (activate_step ll self lrn w0 pre w oid p0 params)
    as (w1 & Hstep & Hf1 & Ht1 & Hh1 & Hout1 & Hin1); [done..|].
  destruct (IH (pre ++ [oid]) w1) as [st' Hst']; [done..|].
  exists st'. rewrite fmap_cons, for_cons. erewrite bind_ok; [|exact Hstep].
  exact Hst'.
Qed.

(** What a rotation that returns has done. *)
Lemma update_active_policies_ok rng self w self' w' :
  update_active_policies rng (self, w) = (inr tt, (self', w')) →
  ∃ lp sampled lrn,
    (query_policy_by_name (learner_name self) w).1 = inr (Some lp) ∧
    np_random_choice rng (table w) (num_active_policies self - 1)
      = inr sampled ∧
    heap w !! learner self = Some lrn ∧
    self' = with_active_policies (Some <$> lp :: sampled) self ∧
    files w' = files w ∧ table w' = table w ∧ heap w ⊆ heap w' ∧
    (∀ o, o ∉ lp :: sampled → objects w' !! o = objects w !! o) ∧
    (∀ o, o ∈ lp :: sampled → materialized lrn w w' o).
Proof.
  unfold update_active_policies.
  rewrite (bind_ok _ _ (self, w) self (self, w)) by done.
  erewrite bind_ok; [|apply on_snd_eq, query_policy_by_name_eq].
  erewrite (bind_ok _ _ _ (table w)); [|apply on_snd_eq; reflexivity].
  destruct (np_random_choice _ _ _) as [e|sampled] eqn:Hchoice.
  { erewrite bind_err; [|reflexivity]. done. }
  erewrite bind_ok; [|reflexivity].
  erewrite bind_ok; [|apply on_fst_eq; reflexivity].
  destruct (snd <$> list_find _ _) as [lp|] eqn:Hlp; [|done].
  intros Hrun.
  destruct (heap w !! learner self) as [lrn|] eqn:Hlrn; cycle 1.
  { rewrite for_cons in Hrun.
    apply bind_inv_ok in Hrun as ([] & st1 & Hstep & _).
    cbv beta iota in Hstep.
    rewrite activate_eq in Hstep. simpl in Hstep. by rewrite Hlrn in Hstep. }
  eapply (activation_loop_ok _ _ lrn w _ Hlrn []) in Hrun; [|done..| |].
  - destruct Hrun as (oids & w1 & Hoids & [= -> ->] & Hf' & Ht' & Hh' & Hout' & Hin').
    change (Some lp :: (Some <$> sampled)) with (Some <$> lp :: sampled) in Hoids.
    apply (inj (fmap Some)) in Hoids as <-.
    exists lp, sampled, lrn. rewrite query_policy_by_name_eq. simpl.
    rewrite Hlp. by split_and!.
  - done.
  - by intros o ?%elem_of_nil.
Qed.

Lemma update_active_policies_total rng self w :
  rotation_ready (self, w) →
  ∃ st', update_active_policies rng (self, w) = (inr tt, st').
Proof.
  intros ([lrn Hlrn] & [lp Hlp] & Hn & Hrows). cbn [fst snd] in *.
  rewrite query_policy_by_name_eq in Hlp. simpl in Hlp.
  destruct (list_find _ _) as [[i lp']|] eqn:Hfind; [|done].
  simpl in Hlp. injection Hlp as ->.
  assert (lp ∈ table w) as Hin.
  { apply list_find_Some in Hfind as [? _]. by eapply list_elem_of_lookup_2. }
  destruct (np_random_choice_total rng (table w) (num_active_policies self - 1))
    as [sampled Hsampled]; [lia|by intros E; rewrite E in Hin; apply elem_of_nil in Hin|].
  assert (Forall (λ oid, ∃ p0, objects w !! oid = Some p0 ∧
                           is_Some (files w !! model_path p0))
            (lp :: sampled)) as Hall.
  { apply np_random_choice_inr in Hsampled as (_ & _ & Hall).
    constructor; [by apply Hrows|].
    eapply Forall_impl; [exact Hall|]. intros oid Ho. by apply Hrows. }
  destruct (activation_loop_total (learner self)
              (with_active_policies (Some <$> lp :: sampled) self)
              lrn w (lp :: sampled) Hlrn Hall [] w) as [st' Hst'].
  { done. } { done. } { done. } { done. } { by intros o ?%elem_of_nil. }
  exists st'. unfold update_active_policies.
  rewrite (bind_ok _ _ (self, w) self (self, w)) by done.
  erewrite bind_ok; [|apply on_snd_eq, query_policy_by_name_eq].
  erewrite (bind_ok _ _ _ (table w)); [|apply on_snd_eq; reflexivity].
  rewrite Hsampled.
  erewrite bind_ok; [|reflexivity].
  erewrite bind_ok; [|apply on_fst_eq; reflexivity].
  rewrite Hfind. exact Hst'.
Qed.




Lemma materialized_name lrn w w' oid :
  materialized lrn w w' oid →
  name <$> objects w' !! oid = name <$> objects w !! oid.
Proof. intros (p0 & l & params & -> & -> & _). done. Qed.

(** C4.  A rotation goes through in every state that is [rotation_ready],
    and after every rotation that returns the roster has
    [num_active_policies] slots, slot 0 holds the record stored under the
    learner's name, and the other [num_active_policies - 1] slots hold the
    rows drawn by [np.random.choice] from all rows of the Store, each draw
    ranging over the whole table. *)
Theorem update_active_policies_roster rng self w :
  (rotation_ready (self, w) →
   ∃ st', update_active_policies rng (self, w) = (inr tt, st')) ∧
  ∀ self' w',
    update_active_policies rng (self, w) = (inr tt, (self', w')) →
    learner_name self' = learner_name self ∧
    num_active_policies self' = num_active_policies self ∧
    Z.of_nat (length (active_policies self')) = num_active_policies self' ∧
    (∃ oid p,
       active_policies self' !! 0%nat = Some (Some oid) ∧
       stored w' (learner_name self') oid p ∧
       name p = learner_name self') ∧
    (∃ sampled,
       np_random_choice rng (table w) (num_active_policies self - 1)
         = inr sampled ∧
       tail (active_policies self') = Some <$> sampled ∧
       Forall (λ oid, oid ∈ table w) sampled) ∧
    table w' = table w.
Proof.
  split; [apply update_active_policies_total|].
  intros self' w' Hrun.
  apply update_active_policies_ok in Hrun
    as (lp & sampled & lrn & Hlp & Hsampled & Hlrn & -> & Hf & Ht & Hh & Hout & Hin).
  pose proof (np_random_choice_inr _ _ _ _ Hsampled) as (Hsize & Hlen & Hall).
  assert (∀ oid, name <$> objects w' !! oid = name <$> objects w !! oid) as Hn.
  { intros oid. destruct (decide (oid ∈ lp :: sampled)).
    - by eapply materialized_name, Hin.
    - by rewrite Hout. }
  simpl. split_and!; try done.
  - rewrite length_fmap, Hlen. lia.
  - destruct (Hin lp) as (p0 & l & params & Hp0 & Hp' & _); [left|].
    exists lp, (with_model l (model_class p0) p0). split_and!; [done| |].
    + split; [|done]. rewrite query_policy_by_name_eq. simpl. rewrite Ht.
      rewrite query_policy_by_name_eq in Hlp. simpl in Hlp. rewrite <- Hlp.
      f_equal. f_equal. apply list_find_ext. intros oid. unfold has_name.
      by rewrite Hn.
    + simpl. rewrite query_policy_by_name_eq in Hlp. simpl in Hlp.
      destruct (list_find _ _) as [[i o]|] eqn:Hfind; [|done].
      injection Hlp as ->. apply list_find_Some in Hfind as (_ & Hname & _).
      unfold has_name in Hname. rewrite Hp0 in Hname. by injection Hname.
  - by exists sampled.
Qed.


End rotation.

(** ** The snapshot taken at registration *)

Section snapshot.
Context {Float Params Value : Type} `{!RatingEngine Float Value}.
Implicit Types (w : World Float Params) (self : PolicyPool Float Value)
  (p : Policy Float) (st : PolicyPool Float Value * World Float Params).

Lemma update_ranks_heap st : heap (update_ranks st).2.2 = heap st.2.
Proof.
  destruct st as [self w].
  destruct (update_ranks_run self w) as (w' & -> & _ & Hh & _). done.
Qed.

(** No call on the pool writes to a module object that already exists. *)
Lemma run_call_heap (c : call) st : heap st.2 ⊆ heap (run_call c st).2.2.
Proof.
  destruct c; simpl.
  - apply add_policy_heap.
  - apply add_policy_copy_heap.
  - apply update_active_policies_heap.
  - unfold mbind, M_bind, bind.
    pose proof (update_scores_world infos info_key st) as Hw.
    destruct (update_scores infos info_key st) as [[e|a] st']; simpl in *;
      by rewrite Hw.
  - by rewrite update_ranks_heap.
Qed.

Lemma run_calls_heap (cs : list call) st :
  heap st.2 ⊆ heap (run_calls cs st).2.
Proof.
  revert st. induction cs as [|c cs IH]; intros st; [done|]. simpl.
  etrans; [apply (run_call_heap c)|apply IH].
Qed.

(** C9.  [add_policy] stores a copy: the record's [model] is a new module
    [l], different from the caller's, holding the caller's parameters as they
    were at the call, and these are the parameters written to the snapshot
    file.  Overwriting the caller's module afterwards changes neither the
    file, nor the record, nor the copy; and no later sequence of calls on the
    pool changes the caller's module. *)
Theorem add_policy_snapshot_by_value live_model nm is_tenured mu_arg sigma_arg
    anchor overwrite_existing self w m r0 :
  heap w !! live_model = Some m →
  store_ok w →
  ((∃ oid, (query_policy_by_name nm w).1 = inr (Some oid)) →
   overwrite_existing ≠ Some false) →
  (anchor = false →
   ratings (rating_add_policy (tournament self) nm) !! nm = Some r0) →
  ∃ self' w' oid p l,
    add_policy live_model nm is_tenured mu_arg sigma_arg anchor overwrite_existing
      (self, w) = (inr tt, (self', w')) ∧
    stored w' nm oid p ∧
    model p = Some l ∧
    l ≠ live_model ∧
    (l ∉ dom (heap w)) ∧
    heap w' !! l = Some m ∧
    files w' !! model_path p = Some (state_dict m) ∧
    heap w' !! live_model = Some m ∧
    (∀ m',
       let w'' := with_heap (<[live_model := m']> (heap w')) w' in
       files w'' !! model_path p = Some (state_dict m) ∧
       stored w'' nm oid p ∧
       heap w'' !! l = Some m) ∧
    (∀ calls : list call,
       heap (run_calls calls (self', w')).2 !! live_model = Some m).
Proof.
  intros Hm Hok Hov Hreg.
  assert (fresh (dom (heap w)) ≠ live_model) as Hne.
  { intros E. apply (is_fresh (dom (heap w))). rewrite E.
    by apply elem_of_dom. }
  pose proof (add_policy_run live_model nm is_tenured mu_arg sigma_arg anchor
    overwrite_existing self w m r0 Hm Hok) as Hrun. simpl in Hrun.
  eexists _, _, (fresh (dom (objects w))), _, (fresh (dom (heap w))).
  assert (∀ A B C D : Prop, A → C → (C → B) → D → A ∧ (B ∧ C) ∧ D)
    as Hsplit by tauto.
  apply Hsplit.
  - apply Hrun; [|done]. intros [[i old] Hfind].
    destruct overwrite_existing as [[|]|]; [done| |done].
    destruct Hov; [|done]. exists old. rewrite query_policy_by_name_eq. simpl.
    by rewrite Hfind.
  - apply lookup_insert_eq.
  - intros _. rewrite query_policy_by_name_eq. simpl.
    edestruct (list_find_added w) as [j Hj]; [done|reflexivity| | |].
    3:{ rewrite Hj. reflexivity. }
    + reflexivity.
    + reflexivity.
  - simpl. split_and!; [done|done|apply is_fresh|apply lookup_insert_eq
                        |apply lookup_insert_eq| | |].
    + by rewrite lookup_insert_ne.
    + intros m'. simpl. split_and!.
      * apply lookup_insert_eq.
      * split; [|apply lookup_insert_eq].
        rewrite query_policy_by_name_eq. simpl.
        edestruct (list_find_added w) as [j Hj]; [done|reflexivity| | |].
        3:{ rewrite Hj. reflexivity. }
        -- reflexivity.
        -- reflexivity.
      * rewrite lookup_insert_ne by done. apply lookup_insert_eq.
    + intros calls. eapply lookup_weaken; [|apply run_calls_heap]. simpl.
      by rewrite lookup_insert_ne.
Qed.

End snapshot.

(** ** The score ledger *)

Section dict_facts.
Context {V : Type}.
Implicit Types (d : list (string * V)).

Lemma dict_get_set_eq k v d : dict_get k (dict_set k v d) = Some v.
Proof.
  induction d as [|[k' v'] d IH]; simpl; [by rewrite decide_True|].
  destruct (decide (k' = k)) as [->|Hne]; simpl.
  - by rewrite decide_True.
  - by rewrite decide_False.
Qed.

Lemma dict_get_set_ne k k' v d :
  k ≠ k' → dict_get k' (dict_set k v d) = dict_get k' d.
Proof.
  intros Hne. induction d as [|[k0 v0] d IH]; simpl; [by rewrite decide_False|].
  destruct (decide (k0 = k)) as [->|Hne0]; simpl.
  - by rewrite !decide_False.
  - by rewrite IH.
Qed.
End dict_facts.

Lemma dict_append_all {V} (nm nm' : string) (vs : list V)
    (d : list (string * list V)) :
  default [] (dict_get nm' (foldl (λ d v, dict_append nm v d) d vs))
  = default [] (dict_get nm' d) ++ (if decide (nm' = nm) then vs else []).
Proof.
  revert d. induction vs as [|v vs IH]; intros d; simpl.
  { case_decide; by rewrite app_nil_r. }
  rewrite IH. unfold dict_append. destruct (decide (nm' = nm)) as [->|Hne].
  - rewrite dict_get_set_eq. simpl. by rewrite <- app_assoc.
  - by rewrite dict_get_set_ne.
Qed.

Section scores.
Context {Float Params Value : Type} `{!RatingEngine Float Value}.
Implicit Types (w : World Float Params) (self : PolicyPool Float Value)
  (p : Policy Float) (st : PolicyPool Float Value * World Float Params).

(** The entries taken at a slot's indices yield the slot's samples. *)
Lemma np_take_samples (agent_infos : list (gmap string Value)) info_key samp
    pol_infos :
  np_take agent_infos samp = inr pol_infos →
  omap (λ i : gmap string Value, i !! info_key) pol_infos
  = slot_samples agent_infos info_key samp.
Proof.
  unfold np_take, slot_samples. revert pol_infos.
  induction samp as [|idx samp IH]; intros pol_infos; simpl.
  { by intros [= <-]. }
  destruct (py_index agent_infos idx) as [e|i]; simpl; [done|].
  destruct (res_map _ samp) as [e|rest]; simpl; [done|].
  intros [= <-]. specialize (IH rest eq_refl). simpl.
  destruct (i !! info_key); [f_equal|]; exact IH.
Qed.

(** The inner loop of [update_scores] (lines 245-250). *)
Lemma score_loop nm info_key (pol_infos : list (gmap string Value)) self w :
  for_ pol_infos (λ i,
    match i !! info_key with
    | None => ret tt
    | Some v =>
        on_fst (modify (λ self,
          with_scores (dict_append nm v (scores self))
                      (num_scores self + 1) self))
    end) (self, w)
  = (inr tt,
     (with_scores
        (foldl (λ d v, dict_append nm v d) (scores self)
           (omap (λ i : gmap string Value, i !! info_key) pol_infos))
        (num_scores self
         + Z.of_nat (length (omap (λ i : gmap string Value, i !! info_key)
                               pol_infos)))
        self, w)).
Proof.
  revert self. induction pol_infos as [|i pol_infos IH]; intros self.
  { simpl. rewrite Z.add_0_r. by destruct self. }
  rewrite for_cons. simpl. destruct (i !! info_key) as [v|] eqn:Hv.
  - erewrite bind_ok; [|apply on_fst_eq; reflexivity].
    rewrite IH. unfold with_scores. simpl. do 2 f_equal.
    f_equal. rewrite Nat2Z.inj_succ. unfold omap. lia.
  - erewrite bind_ok; [|reflexivity]. apply IH.
Qed.

(** One iteration of the slot loop of [update_scores] (lines 238-250). *)
Lemma score_slot (agent_infos : list (gmap string Value)) info_key
    acc samp policy self w :
  (pol_infos ← lift_res (np_take agent_infos samp);
   nm ← match policy with
        | None => raise AttributeError
        | Some oid => p ← on_snd (get_policy oid); ret (name p)
        end;
   let policy_infos := dict_extend nm pol_infos acc in
   for_ pol_infos (λ i,
     match i !! info_key with
     | None => ret tt
     | Some v =>
         on_fst (modify (λ self,
           with_scores (dict_append nm v (scores self))
                       (num_scores self + 1) self))
     end);;
   ret policy_infos) (self, w)
  = match np_take agent_infos samp with
    | inl e => (inl e, (self, w))
    | inr pol_infos =>
      match policy with
      | None => (inl AttributeError, (self, w))
      | Some oid =>
        match slot_name w policy with
        | None => (inl ReferenceError, (self, w))
        | Some nm =>
          (inr (dict_extend nm pol_infos acc),
           (with_scores
              (foldl (λ d v, dict_append nm v d) (scores self)
                 (slot_samples agent_infos info_key samp))
              (num_scores self
               + Z.of_nat (length (slot_samples agent_infos info_key samp)))
              self, w))
        end
      end
    end.
Proof.
  destruct (np_take agent_infos samp) as [e|pol_infos] eqn:Htake.
  { by erewrite bind_err. }
  erewrite bind_ok; [|reflexivity].
  destruct policy as [oid|]; [|by erewrite bind_err]. simpl.
  destruct (objects w !! oid) as [p|] eqn:Hp; simpl.
  - erewrite bind_ok; cycle 1.
    { erewrite bind_ok; [reflexivity|].
      apply on_snd_eq. rewrite get_policy_eq, Hp. reflexivity. }
    simpl. erewrite bind_ok; [|apply score_loop].
    by rewrite (np_take_samples _ _ _ _ Htake).
  - erewrite bind_err; [done|]. erewrite bind_err; [done|].
    apply on_snd_eq. rewrite get_policy_eq, Hp. reflexivity.
Qed.

Lemma score_slots (agent_infos : list (gmap string Value)) info_key
    (slots : list (list Z * option nat)) w :
  ∀ acc self r st',
  fold_ slots acc (λ policy_infos '(samp, policy),
    pol_infos ← lift_res (np_take agent_infos samp);
    nm ← match policy with
         | None => raise AttributeError
         | Some oid => p ← on_snd (get_policy oid); ret (name p)
         end;
    let policy_infos := dict_extend nm pol_infos policy_infos in
    for_ pol_infos (λ i,
      match i !! info_key with
      | None => ret tt
      | Some v =>
          on_fst (modify (λ self,
            with_scores (dict_append nm v (scores self))
                        (num_scores self + 1) self))
      end);;
    ret policy_infos) (self, w) = (inr r, st') →
  ∃ self',
    st' = (self', w) ∧
    (∀ nm, ledger self' nm
           = ledger self nm ++ name_samples w agent_infos info_key nm slots) ∧
    num_scores self'
    = num_scores self
      + Z.of_nat (length (slots ≫= λ slot,
                            slot_samples agent_infos info_key slot.1)) ∧
    tournament self' = tournament self ∧
    active_policies self' = active_policies self ∧
    sample_idxs self' = sample_idxs self ∧
    Forall (λ slot, is_Some (slot_name w slot.2) ∧
                    ∃ pol_infos, np_take agent_infos slot.1 = inr pol_infos)
      slots.
Proof.
  induction slots as [|[samp policy] slots IH]; intros acc self r st' Hrun.
  { injection Hrun as <- <-. exists self. split_and!; try done.
    - intros nm. by rewrite app_nil_r.
    - simpl. lia. }
  rewrite fold_cons in Hrun.
  apply bind_inv_ok in Hrun as (acc1 & st1 & Hslot & Hrest).
  cbv beta iota in Hslot. rewrite score_slot in Hslot.
  destruct (np_take agent_infos samp) as [e|pol_infos] eqn:Htake; [done|].
  destruct policy as [oid|]; [|done].
  destruct (slot_name w (Some oid)) as [nm0|] eqn:Hnm0; [|done].
  injection Hslot as <- <-.
  apply IH in Hrest as (self' & -> & Hledger & Hnum & Ht & Ha & Hs & Hall).
  exists self'. split_and!; try done.
  - intros nm. rewrite Hledger. unfold ledger. cbn [scores with_scores].
    rewrite dict_append_all. rewrite <- app_assoc. f_equal.
    unfold name_samples. simpl. simpl in Hnm0. rewrite Hnm0.
    destruct (decide (nm = nm0)) as [->|Hne].
    + by rewrite decide_True.
    + rewrite decide_False; [done|]. congruence.
  - rewrite Hnum. cbn [num_scores with_scores].
    change (((samp, Some oid) :: slots) ≫= λ slot,
              slot_samples agent_infos info_key slot.1)
      with (slot_samples agent_infos info_key samp
            ++ (slots ≫= λ slot, slot_samples agent_infos info_key slot.1)).
    rewrite length_app. lia.
  - constructor; [|done]. cbn [fst snd]. rewrite Hnm0. eauto.
Qed.

Lemma score_slots_total (agent_infos : list (gmap string Value)) info_key
    (slots : list (list Z * option nat)) w :
  Forall (λ slot, is_Some (slot_name w slot.2) ∧
                  ∃ pol_infos, np_take agent_infos slot.1 = inr pol_infos)
    slots →
  ∀ acc self, ∃ r st',
  fold_ slots acc (λ policy_infos '(samp, policy),
    pol_infos ← lift_res (np_take agent_infos samp);
    nm ← match policy with
         | None => raise AttributeError
         | Some oid => p ← on_snd (get_policy oid); ret (name p)
         end;
    let policy_infos := dict_extend nm pol_infos policy_infos in
    for_ pol_infos (λ i,
      match i !! info_key with
      | None => ret tt
      | Some v =>
          on_fst (modify (λ self,
            with_scores (dict_append nm v (scores self))
                        (num_scores self + 1) self))
      end);;
    ret policy_infos) (self, w) = (inr r, st').
Proof.
  induction 1 as [|[samp policy] slots [[nm Hnm] [pol_infos Htake]] _ IH];
    intros acc self; [by eexists _, _|].
  rewrite fold_cons. cbn [fst snd] in *.
  erewrite bind_ok; cycle 1.
  { cbv beta iota. rewrite score_slot, Htake.
    destruct policy as [oid|]; [|done]. rewrite Hnm. reflexivity. }
  apply IH.
Qed.

(** C7.  [update_scores] returns when every slot holds an object and every
    index of its partition is within the flattened infos; when it returns,
    the world is unchanged and, for every name, the ledger has gained the
    samples of the slots holding that name, in slot order: for each slot the
    values under [info_key] of the entries at its indices that have the key,
    one per such entry, the others being skipped; [num_scores] grows by the
    number of samples.  Of two entries at a slot's indices of which one lacks
    the key, one sample results; two slots with the same name add to the
    same ledger entry. *)
Theorem update_scores_ledger infos info_key self w :
  let agent_infos := infos ≫= (λ info, info.*2) in
  let slots := zip (sample_idxs self) (active_policies self) in
  (Forall (λ slot, is_Some (slot_name w slot.2) ∧
                   ∃ pol_infos, np_take agent_infos slot.1 = inr pol_infos)
     slots →
   ∃ r st', update_scores infos info_key (self, w) = (inr r, st')) ∧
  (∀ r self' w',
     update_scores infos info_key (self, w) = (inr r, (self', w')) →
     w' = w ∧
     tournament self' = tournament self ∧
     (∀ nm, ledger self' nm
            = ledger self nm ++ name_samples w agent_infos info_key nm slots) ∧
     num_scores self'
     = num_scores self
       + Z.of_nat (length (slots ≫= λ slot,
                             slot_samples agent_infos info_key slot.1))) ∧
  (∀ idx1 idx2 e1 e2 v,
     py_index agent_infos idx1 = inr e1 → py_index agent_infos idx2 = inr e2 →
     e1 !! info_key = Some v → e2 !! info_key = None →
     slot_samples agent_infos info_key [idx1; idx2] = [v]) ∧
  (∀ nm samp1 samp2 policy1 policy2,
     slot_name w policy1 = Some nm → slot_name w policy2 = Some nm →
     name_samples w agent_infos info_key nm
       [(samp1, policy1); (samp2, policy2)]
     = slot_samples agent_infos info_key samp1
       ++ slot_samples agent_infos info_key samp2).
Proof.
  intros agent_infos slots. split_and!.
  - intros Hall. unfold update_scores.
    rewrite (bind_ok _ _ (self, w) self (self, w)) by done.
    apply score_slots_total, Hall.
  - intros r self' w' Hrun. unfold update_scores in Hrun.
    rewrite (bind_ok _ _ (self, w) self (self, w)) in Hrun by done.
    apply score_slots in Hrun
      as (self1 & [= -> ->] & Hledger & Hnum & Ht & _). by split_and!.
  - intros idx1 idx2 e1 e2 v H1 H2 Hv1 Hv2. unfold slot_samples. simpl.
    by rewrite H1, H2, Hv1, Hv2.
  - intros nm samp1 samp2 policy1 policy2 H1 H2. unfold name_samples. simpl.
    rewrite !decide_True by done. by rewrite app_nil_r.
Qed.

End scores.

(** ** Construction *)

Lemma make_sample_idxs_rejects sample_weights evaluation_batch_size :
  py_mod evaluation_batch_size (py_sum sample_weights) ≠ inr 0 →
  ∃ e, make_sample_idxs sample_weights evaluation_batch_size = inl e ∧
       (e = AssertionError ∨ e = ZeroDivisionError).
Proof.
  intros Hmod. unfold make_sample_idxs.
  destruct (py_mod _ _) as [e|r] eqn:Hr; simpl.
  - exists e. split; [done|]. unfold py_mod in Hr. case_decide; [|done].
    injection Hr as <-. by right.
  - rewrite decide_False by congruence. eauto.
Qed.

Section construction.
Context {Float Params Value : Type} `{!RatingEngine Float Value}.
Implicit Types (w : World Float Params) (self : PolicyPool Float Value).

(** C5, as amended.  Under either precondition [__init__] raises and no pool
    is produced.  When the length of [sample_weights] differs from
    [active_policies] it raises [AssertionError] at once and the world is
    untouched; when the lengths agree, the world left behind is the one
    reached by registering the learner and rotating the roster, which run
    before the divisibility check. *)
Theorem init_rejects_configuration rng evaluation_batch_size learner nm
    sample_weights active_policies path mu0 anchor_mu0 sigma0 w :
  Z.of_nat (length sample_weights) ≠ active_policies ∨
  py_mod evaluation_batch_size (py_sum sample_weights) ≠ inr 0 →
  ∃ e w',
    init rng evaluation_batch_size learner nm sample_weights active_policies
      path mu0 anchor_mu0 sigma0 w = (inl e, w') ∧
    (Z.of_nat (length sample_weights) ≠ active_policies →
     e = AssertionError ∧ w' = w) ∧
    (Z.of_nat (length sample_weights) = active_policies →
     w' = ((add_policy learner nm true (Some mu0) (Some sigma0) false None;;
            update_active_policies rng)
             (new_pool learner nm active_policies path mu0 anchor_mu0 sigma0,
              w)).2.2).
Proof.
  intros Hbad. unfold init.
  destruct (decide (Z.of_nat (length sample_weights) = active_policies))
    as [Hlen|Hlen].
  - destruct Hbad as [?|Hmod]; [done|].
    destruct (make_sample_idxs_rejects _ _ Hmod) as (e & He & _).
    set (run := (add_policy learner nm true (Some mu0) (Some sigma0) false
                   None;; update_active_policies rng)
                  (new_pool learner nm active_policies path mu0 anchor_mu0
                     sigma0, w)).
    destruct run as [[e1|[]] [self1 w1]]; simpl.
    + exists e1, w1. by split_and!.
    + rewrite He. exists e, w1. by split_and!.
  - exists AssertionError, w. by split_and!.
Qed.

End construction.

(** C5, as stated, fails: for weights [3, 1] and a batch of 7 the
    divisibility check raises only after the learner was stored and its
    snapshot written. *)
Lemma init_checks_divisibility_late :
  let r := init sample_rng 7 0%nat "learner" [3; 1] 2 "pool" 1000 1000 33
             sample_world in
  py_mod 7 (py_sum [3; 1]) ≠ inr 0 ∧
  (∃ e, r.1 = inl e) ∧
  r.2 ≠ sample_world ∧
  table r.2 = [0%nat] ∧
  files r.2 !! "pool/learner" = Some 7.
Proof.
  intros r. split; [by vm_compute|].
  split; [exists AssertionError; by vm_compute|].
  split_and!; [|by vm_compute..].
  intros E. apply (f_equal table) in E. by vm_compute in E.
Qed.

(** ** What holds of a constructed pool and of a registered name *)

(** [np.zeros] rejects a negative batch size. *)
Lemma make_learner_mask_negative sample_idxs evaluation_batch_size :
  evaluation_batch_size < 0 →
  make_learner_mask sample_idxs evaluation_batch_size = inl ValueError.
Proof. intros Hneg. unfold make_learner_mask. by rewrite decide_True. Qed.

Section construction_ok.
Context {Float Params Value : Type} `{!RatingEngine Float Value}.
Implicit Types (w : World Float Params) (self : PolicyPool Float Value).

(** The table of a constructed pool is the one of [make_sample_idxs], the
    divisibility assertion held and the batch size is not negative. *)
Lemma init_sample_idxs rng evaluation_batch_size learner nm sample_weights
    active_policies path mu0 anchor_mu0 sigma0 w self w' :
  init rng evaluation_batch_size learner nm sample_weights active_policies
    path mu0 anchor_mu0 sigma0 w = (inr self, w') →
  make_sample_idxs sample_weights evaluation_batch_size
    = inr (sample_idxs self) ∧
  py_mod evaluation_batch_size (py_sum sample_weights) = inr 0 ∧
  0 ≤ evaluation_batch_size ∧
  Z.of_nat (length sample_weights) = active_policies.
Proof.
  unfold init. case_decide as Hlen; [|done].
  set (run := (add_policy learner nm true (Some mu0) (Some sigma0) false
                 None;; update_active_policies rng)
                (new_pool learner nm active_policies path mu0 anchor_mu0
                   sigma0, w)).
  destruct run as [[e1|[]] [self1 w1]]; [done|].
  destruct (make_sample_idxs _ _) as [e|idxs] eqn:Hidxs; [done|].
  destruct (make_learner_mask _ _) as [e|mask] eqn:Hmask; [done|].
  intros [= <- <-]. split_and!; [done| | |done].
  - destruct (decide (py_mod evaluation_batch_size (py_sum sample_weights)
                      = inr 0)) as [|Hmod]; [done|].
    destruct (make_sample_idxs_rejects _ _ Hmod) as (e & He & _). congruence.
  - destruct (decide (evaluation_batch_size < 0)) as [Hneg|]; [|lia].
    by rewrite make_learner_mask_negative in Hmask.
Qed.

(** What a registration that returns has found. *)
Lemma add_policy_inr_inv live_model nm is_tenured mu_arg sigma_arg
    overwrite_existing self w st' :
  add_policy live_model nm is_tenured mu_arg sigma_arg false
    overwrite_existing (self, w) = (inr tt, st') →
  is_Some (heap w !! live_model) ∧
  is_Some (ratings (rating_add_policy (tournament self) nm) !! nm) ∧
  (is_Some (list_find (has_name w nm) (table w)) →
   default true overwrite_existing = true).
Proof.
  unfold add_policy, save_model, db_add_policy, deepcopy, get_module,
    new_policy, get_policy, torch_save, set_policy, query_policy_by_name,
    delete_policy, set_rating_mu, set_rating_sigma, get_self, on_fst, on_snd.
  munfold. intros Hrun.
  repeat (case_match; simpl in *; simplify_eq);
    split_and!; eauto;
    intros [[? ?] Hfind]; rewrite Hfind in *; by simplify_eq/=.
Qed.

(** A registration that is not an anchor leaves the Store and the engine in
    agreement on the new name. *)
Lemma add_policy_agrees live_model nm is_tenured mu_arg sigma_arg
    overwrite_existing self w self' w' oid p r :
  add_policy live_model nm is_tenured mu_arg sigma_arg false
    overwrite_existing (self, w) = (inr tt, (self', w')) →
  store_ok w →
  stored w' nm oid p → ratings (tournament self') !! nm = Some r →
  mu p = rating_mu r ∧ sigma p = rating_sigma r.
Proof.
  intros Hrun Hok Hst Hr.
  destruct (add_policy_inr_inv _ _ _ _ _ _ _ _ _ Hrun)
    as ([m Hm] & [r0 Hr0] & Hov).
  rewrite (add_policy_run live_model nm is_tenured mu_arg sigma_arg false
             overwrite_existing self w m r0 Hm Hok Hov) in Hrun by done.
  injection Hrun as <- <-. simpl in Hr. rewrite lookup_insert_eq in Hr.
  injection Hr as <-. destruct Hst as [Hq Hp].
  rewrite query_policy_by_name_eq in Hq. simpl in Hq.
  edestruct (list_find_added w) as [j Hj]; [done|reflexivity| | |].
  3:{ rewrite Hj in Hq. injection Hq as <-. simpl in Hp.
      rewrite lookup_insert_eq in Hp. by injection Hp as <-. }
  - reflexivity.
  - reflexivity.
Qed.

End construction_ok.

(** ** The properties on the concrete pool *)

Lemma stored_inv {Float Params : Type} (w : World Float Params) nm oid p :
  stored w nm oid p → oid ∈ table w ∧ name p = nm.
Proof.
  intros [Hq Hp]. rewrite query_policy_by_name_eq in Hq. simpl in Hq.
  destruct (list_find _ _) as [[i o]|] eqn:Hfind; [|done].
  injection Hq as ->. apply list_find_Some in Hfind as (Hi & Hname & _).
  split; [by eapply list_elem_of_lookup_2|].
  unfold has_name in Hname. rewrite Hp in Hname. by injection Hname.
Qed.


Lemma sample_store_ok : store_ok sample_state.2 ∧ store_ok sample_state2.2.
Proof.
  split; unfold store_ok;
    match goal with |- ?P => apply (bool_decide_unpack P) end; by vm_compute.
Qed.




Lemma add_policy_naming_conflict_witness :
  add_policy 0%nat "learner" false None None false (Some false)
    (sample_state.1, sample_state.2)
  = (inl ValueError, (sample_state.1, sample_state.2)).
Proof.
  apply (add_policy_naming_conflict _ _ _ _ _ _ _ _ 0%nat
    {| model_path := "pool/learner"; model_class := "Net";
       name := "learner"; mu := 1000; sigma := 33; episodes := 0;
       additional_data := [("tenured", true)]; model := Some 3%nat |}).
  vm_compute. split; reflexivity.
Defined.


Lemma add_policy_overwrites_by_default_witness :
  ∃ self' w' added p_new,
    add_policy 0%nat "learner" false (Some 1200) None false None
      (sample_state.1, sample_state.2) = (inr tt, (self', w')) ∧
    (0%nat ∉ table w') ∧ added ≠ 0%nat ∧
    stored w' "learner" added p_new ∧ mu p_new = 1200.
Proof.
  destruct (add_policy_overwrites_by_default 0%nat "learner" false (Some 1200)
              None false sample_state.1 sample_state.2
              {| module_class := "Net"; state_dict := 7 |} 0%nat
              {| model_path := "pool/learner"; model_class := "Net";
                 name := "learner"; mu := 1000; sigma := 33; episodes := 0;
                 additional_data := [("tenured", true)];
                 model := Some 3%nat |}
              {| rating_mu := 1000; rating_sigma := 33 |})
    as [(self' & w' & added & p_new & Hrun & Hold & Hne & Hst & Hmu & _) _].
  - vm_compute. split; reflexivity.
  - apply sample_store_ok.
  - vm_compute. reflexivity.
  - intros _. vm_compute. reflexivity.
  - exists self', w', added, p_new. rewrite Hmu. by split_and!.
Defined.

Lemma add_policy_snapshot_by_value_witness :
  ∃ self' w' oid p l,
    add_policy 0%nat "rival" false None None false None
      (sample_state.1, sample_state.2) = (inr tt, (self', w')) ∧
    stored w' "rival" oid p ∧ model p = Some l ∧ l ≠ 0%nat ∧
    files (with_heap (<[0%nat := {| module_class := "Net"; state_dict := 9 |}]>
                        (heap w')) w') !! model_path p = Some 7 ∧
    heap (run_calls [UpdateActivePolicies sample_rng; UpdateRanks] (self', w')).2
      !! 0%nat = Some {| module_class := "Net"; state_dict := 7 |}.
Proof.
  destruct (add_policy_snapshot_by_value 0%nat "rival" false None None false
              None sample_state.1 sample_state.2
              {| module_class := "Net"; state_dict := 7 |}
              {| rating_mu := 1000; rating_sigma := 33 |})
    as (self' & w' & oid & p & l & Hrun & Hst & Hmodel & Hne & _ & _ & _ & _
        & Hmut & Hcalls).
  - vm_compute. reflexivity.
  - apply sample_store_ok.
  - intros _. discriminate.
  - intros _. vm_compute. reflexivity.
  - exists self', w', oid, p, l.
    destruct (Hmut {| module_class := "Net"; state_dict := 9 |}) as (Hf & _).
    split; [exact Hrun|]. split; [exact Hst|]. split; [exact Hmodel|].
    split; [exact Hne|]. split; [exact Hf|apply Hcalls].
Defined.

Lemma init_rejects_configuration_witness :
  ∃ e w',
    init sample_rng 7 0%nat "learner" [3; 1] 2 "pool" 1000 1000 33
      sample_world = (inl e, w').
Proof.
  destruct (init_rejects_configuration sample_rng 7 0%nat "learner" [3; 1] 2
              "pool" 1000 1000 33 sample_world) as (e & w' & Hrun & _).
  - right. vm_compute. discriminate.
  - by exists e, w'.
Defined.

Lemma sample_state2_learner_name : learner_name sample_state2.1 = "learner".
Proof. by vm_compute. Qed.

Lemma sample_state2_num_active : num_active_policies sample_state2.1 = 2.
Proof. by vm_compute. Qed.

Lemma update_active_policies_roster_witness :
  let st := update_active_policies S (sample_state2.1, sample_state2.2) in
  st.1 = inr tt ∧
  Z.of_nat (length (active_policies st.2.1)) = 2 ∧
  (∃ oid p, active_policies st.2.1 !! 0%nat = Some (Some oid) ∧
            stored st.2.2 "learner" oid p) ∧
  tail (active_policies st.2.1) = [Some 1%nat].
Proof.
  intros st.
  assert (st.1 = inr tt) as Hok by (vm_compute; reflexivity).
  assert (st = (inr tt, (st.2.1, st.2.2))) as Heq.
  { rewrite <- Hok. clearbody st. by destruct st as [? [? ?]]. }
  destruct (update_active_policies_roster S sample_state2.1 sample_state2.2)
    as [_ Hpost].
  destruct (Hpost st.2.1 st.2.2 Heq)
    as (Hname & Hnum & Hlen & (oid & p & Hslot & Hst & _)
        & (sampled & Hsampled & Htail & _) & _).
  rewrite Hname, sample_state2_learner_name in Hst.
  rewrite Hnum, sample_state2_num_active in Hlen.
  split; [exact Hok|]. split; [exact Hlen|].
  split; [exists oid, p; split; [exact Hslot|exact Hst]|].
  rewrite Htail. vm_compute in Hsampled. by injection Hsampled as <-.
Defined.


Lemma update_scores_ledger_witness :
  let st := update_scores sample_infos "score"
              (sample_state2.1, sample_state2.2) in
  (∃ r, st.1 = inr r) ∧
  ledger st.2.1 "learner" = [10; 12; 14; 15; 16; 13; 17] ∧
  num_scores st.2.1 = 7.
Proof.
  intros st.
  assert (∃ r, st.1 = inr r) as [r Hok].
  { destruct st.1 as [e|r] eqn:Hr; [|by exists r].
    apply (f_equal (λ x, match x with inl _ => false | inr _ => true end))
      in Hr. by vm_compute in Hr. }
  assert (st = (inr r, (st.2.1, st.2.2))) as Heq.
  { rewrite <- Hok. clearbody st. by destruct st as [? [? ?]]. }
  destruct (update_scores_ledger sample_infos "score" sample_state2.1
              sample_state2.2) as (_ & Hpost & _).
  destruct (Hpost r st.2.1 st.2.2 Heq) as (_ & _ & Hledger & Hnum).
  split; [by exists r|]. split.
  - rewrite Hledger. vm_compute. reflexivity.
  - rewrite Hnum. vm_compute. reflexivity.
Defined.

(** * Further properties *)

(** ** The partition with weights that may be zero, and the learner mask *)

(** The table as a function of the pattern: sublist [i] lists, in order, the
    batch indices whose pattern entry is [i]. *)
Lemma make_sample_idxs_filter (sample_weights : list Z)
    (evaluation_batch_size : Z) :
  Forall (λ weight, 0 ≤ weight) sample_weights →
  py_mod evaluation_batch_size (py_sum sample_weights) = inr 0 →
  0 < py_sum sample_weights ∧
  Z.of_nat (length (pattern sample_weights)) = py_sum sample_weights ∧
  ∃ table,
    make_sample_idxs sample_weights evaluation_batch_size = inr table ∧
    length table = length sample_weights ∧
    ∀ i, (i < length sample_weights)%nat →
      table !! i
      = Some (filter (λ idx, pattern sample_weights
                               !! Z.to_nat (idx `mod` py_sum sample_weights)
                             = Some i)
                (py_range evaluation_batch_size)).
Proof.
  intros Hnn Hmod.
  set (c := py_sum sample_weights) in *.
  set (pat := pattern sample_weights).
  set (n := length sample_weights).
  assert (pat = mjoin (imap (λ i w, replicate (Z.to_nat w) (0 + i)%nat)
                         sample_weights)) as Hpat by apply pattern_replicate.
  assert (Z.of_nat (length pat) = c) as Hlen.
  { rewrite Hpat, length_pattern_from by done. by rewrite <- py_sum_foldr. }
  assert (Forall (λ s, (s < n)%nat) pat) as Hbound.
  { rewrite Hpat. apply (bound_pattern_from 0). }
  assert (c ≠ 0) as Hc0.
  { unfold py_mod in Hmod. by case_decide. }
  assert (0 < c) as Hc by lia.
  split_and!; [done..|].
  destruct (res_fold_distribute pat c n Hc Hlen Hbound
              (py_range evaluation_batch_size) (replicate n []))
    as (table & Htable & Hn & Hlook); [apply length_replicate|].
  exists table. split_and!; [|done|].
  - unfold make_sample_idxs. fold c. rewrite Hmod. simpl. exact Htable.
  - intros i Hi. rewrite Hlook, lookup_replicate_2 by done. done.
Qed.

(** X1.  A slot of weight zero is given no index, and any slot is given its
    share of the batch, for weights that are not negative and do not all
    vanish. *)
Theorem sample_idxs_zero_weight (sample_weights : list Z)
    (evaluation_batch_size : Z) :
  Forall (λ weight, 0 ≤ weight) sample_weights →
  0 ≤ evaluation_batch_size →
  py_mod evaluation_batch_size (py_sum sample_weights) = inr 0 →
  ∃ table,
    make_sample_idxs sample_weights evaluation_batch_size = inr table ∧
    length table = length sample_weights ∧
    (∀ i weight,
       sample_weights !! i = Some weight →
       ∃ sub, table !! i = Some sub ∧
         Z.of_nat (length sub)
         = (evaluation_batch_size * weight) `div` py_sum sample_weights) ∧
    (∀ i, sample_weights !! i = Some 0 → table !! i = Some []).
Proof.
  intros Hnn Hbatch Hmod.
  destruct (make_sample_idxs_filter _ _ Hnn Hmod)
    as (Hc & Hlen & table & Hmake & Hn & Hlook).
  set (c := py_sum sample_weights) in *.
  set (pat := pattern sample_weights) in *.
  assert (evaluation_batch_size `mod` c = 0) as Hdiv.
  { unfold py_mod in Hmod. case_decide; [done|]. by injection Hmod. }
  assert (∀ i weight, sample_weights !! i = Some weight →
            ∃ sub, table !! i = Some sub ∧
                   Z.of_nat (length sub) = (evaluation_batch_size * weight) `div` c)
    as Hcount.
  { intros i weight Hw. eexists. split; [by eapply Hlook, lookup_lt_Some|].
    assert (0 ≤ weight) as Hweight.
    { eapply Forall_forall in Hnn; [done|]. by eapply list_elem_of_lookup_2. }
    assert (pat ≠ []) as Hne
      by (intros E; rewrite E in Hlen; simpl in Hlen; lia).
    pose proof (count_cycles pat i (Z.to_nat (evaluation_batch_size `div` c)) Hne)
      as Hcycles.
    rewrite Hlen in Hcycles.
    assert (0 ≤ evaluation_batch_size `div` c) as Hq by (apply Z.div_pos; lia).
    assert (evaluation_batch_size = evaluation_batch_size `div` c * c) as Hbq.
    { rewrite (Z.div_mod evaluation_batch_size c) at 1 by lia. lia. }
    rewrite Z2Nat.id, <- Hbq in Hcycles by done.
    unfold py_range. rewrite Hcycles.
    unfold pat. rewrite pattern_replicate.
    rewrite (count_pattern_from 0), decide_True by lia.
    rewrite Nat.sub_0_r, Hw. simpl.
    rewrite Nat2Z.inj_mul, !Z2Nat.id by lia.
    rewrite Hbq at 2.
    replace (evaluation_batch_size `div` c * c * weight)
      with (evaluation_batch_size `div` c * weight * c) by lia.
    rewrite Z.div_mul; lia. }
  exists table. split_and!; [done..|].
  intros i Hw. destruct (Hcount i 0 Hw) as (sub & Hsub & Hlensub).
  rewrite Hsub. f_equal. apply nil_length_inv.
  rewrite Z.mul_0_r, Z.div_0_l in Hlensub; lia.
Qed.

Lemma sample_idxs_zero_weight_witness :
  make_sample_idxs [2; 0; 1] 6 = inr [[0; 1; 3; 4]; []; [2; 5]].
Proof.
  destruct (sample_idxs_zero_weight [2; 0; 1] 6)
    as (table & Hmake & _ & _ & Hzero).
  - repeat constructor; lia.
  - lia.
  - reflexivity.
  - rewrite Hmake. specialize (Hzero 1%nat eq_refl).
    vm_compute in Hmake. by injection Hmake as <-.
Defined.

(** X2.  The learner mask has one entry per batch index, and the entry is
    [1] exactly at the indices whose pattern entry is slot 0. *)
Theorem learner_mask_marks_slot_0 (sample_weights : list Z)
    (evaluation_batch_size : Z) :
  Forall (λ weight, 0 ≤ weight) sample_weights →
  0 ≤ evaluation_batch_size →
  py_mod evaluation_batch_size (py_sum sample_weights) = inr 0 →
  ∃ table mask,
    make_sample_idxs sample_weights evaluation_batch_size = inr table ∧
    make_learner_mask table evaluation_batch_size = inr mask ∧
    Z.of_nat (length mask) = evaluation_batch_size ∧
    ∀ idx, 0 ≤ idx < evaluation_batch_size →
      mask !! Z.to_nat idx
      = Some (if decide (pattern sample_weights
                           !! Z.to_nat (idx `mod` py_sum sample_weights)
                         = Some 0%nat)
              then 1 else 0).
Proof.
  intros Hnn Hbatch Hmod.
  destruct (make_sample_idxs_filter _ _ Hnn Hmod)
    as (Hc & Hlen & table & Hmake & Hn & Hlook).
  assert (0 < length sample_weights)%nat as Hslots.
  { destruct sample_weights; [|simpl; lia]. by vm_compute in Hc. }
  specialize (Hlook 0%nat Hslots).
  eexists table, _. split; [done|].
  assert (∀ A B C : Prop, A → (A → B ∧ C) → A ∧ B ∧ C) as Hsplit by tauto.
  apply Hsplit.
  - unfold make_learner_mask. rewrite decide_False by lia.
    unfold py_index. rewrite (decide_False (P := 0 < 0)) by lia.
    rewrite (decide_True (P := 0 ≤ 0)) by lia. simpl.
    change (Z.to_nat 0) with 0%nat. rewrite Hlook. simpl. reflexivity.
  - intros _. split.
    + rewrite length_fmap. unfold py_range. rewrite length_seqZ. lia.
    + intros idx Hidx. rewrite list_lookup_fmap. unfold py_range.
      rewrite lookup_seqZ_lt by lia. simpl. rewrite Z2Nat.id by lia.
      f_equal. rewrite Z.add_0_l.
      destruct (decide (pattern sample_weights !! _ = Some 0%nat)) as [Hp|Hp].
      * rewrite decide_True; [done|]. apply list_elem_of_filter.
        split; [done|]. unfold py_range. apply elem_of_seqZ. lia.
      * rewrite decide_False; [done|]. by intros [? _]%list_elem_of_filter.
Qed.

Lemma learner_mask_marks_slot_0_witness :
  make_learner_mask [[0; 1; 2; 4; 5; 6]; [3; 7]] 8
  = inr [1; 1; 1; 0; 1; 1; 1; 0].
Proof.
  destruct (learner_mask_marks_slot_0 [3; 1] 8)
    as (table & mask & Hmake & Hmask & _).
  - repeat constructor; lia.
  - lia.
  - reflexivity.
  - vm_compute in Hmake. injection Hmake as <-. rewrite Hmask.
    vm_compute in Hmask. by injection Hmask as <-.
Defined.

(** ** Searching a list *)

Lemma list_find_cons_snd {A} (P : A → Prop) `{!∀ x, Decision (P x)} x l :
  snd <$> list_find P (x :: l)
  = if decide (P x) then Some x else snd <$> list_find P l.
Proof.
  simpl. case_decide; [done|]. by destruct (list_find P l) as [[? ?]|].
Qed.

Lemma list_find_filter_snd {A} (P Q : A → Prop) `{!∀ x, Decision (P x)}
    `{!∀ x, Decision (Q x)} (l : list A) :
  (∀ x, x ∈ l → P x → Q x) →
  snd <$> list_find P (filter Q l) = snd <$> list_find P l.
Proof.
  induction l as [|x l IH]; intros HPQ; [done|].
  assert (snd <$> list_find P (filter Q l) = snd <$> list_find P l) as IH'.
  { apply IH. intros y Hy. apply HPQ. by right. }
  rewrite filter_cons, (list_find_cons_snd P x l).
  destruct (decide (Q x)) as [HQ|HQ].
  - rewrite list_find_cons_snd. by rewrite IH'.
  - rewrite decide_False; [done|]. intros HP. apply HQ, HPQ; [left|done].
Qed.

Lemma list_find_ext_in {A} (P Q : A → Prop) `{!∀ x, Decision (P x)}
    `{!∀ x, Decision (Q x)} (l : list A) :
  (∀ x, x ∈ l → P x ↔ Q x) → list_find P l = list_find Q l.
Proof.
  induction l as [|x l IH]; intros Hext; [done|]. simpl.
  rewrite IH by (intros y Hy; apply Hext; by right).
  assert (P x ↔ Q x) as Hx by (apply Hext; left).
  destruct (decide (P x)), (decide (Q x)); tauto || done.
Qed.

Lemma list_find_snoc_other {A} (P Q : A → Prop) `{!∀ x, Decision (P x)}
    `{!∀ x, Decision (Q x)} (l : list A) (x : A) :
  (∀ y, y ∈ l → P y ↔ Q y) → ¬ P x →
  snd <$> list_find P (l ++ [x]) = snd <$> list_find Q l.
Proof.
  intros Hext Hx. rewrite <- (list_find_ext_in P Q l Hext).
  destruct (list_find P l) as [[j o]|] eqn:Hfind.
  - by erewrite list_find_app_l.
  - rewrite list_find_app_r by done. simpl. by rewrite decide_False.
Qed.

(** ** The table and the snapshot files *)

Section store.
Context {Float Params : Type}.
Implicit Types (w : World Float Params) (p : Policy Float).


(** X4.  Inserting a row under a name no row has: the object becomes the row
    found under its name, every other name resolves as before and no object
    changes. *)
Theorem db_add_policy_lookup oid p w :
  objects w !! oid = Some p →
  (query_policy_by_name (name p) w).1 = inr None →
  ∃ w',
    db_add_policy oid w = (inr tt, w') ∧
    (query_policy_by_name (name p) w').1 = inr (Some oid) ∧
    (∀ nm, nm ≠ name p →
       (query_policy_by_name nm w').1 = (query_policy_by_name nm w).1) ∧
    objects w' = objects w.
Proof.
  intros Hp. rewrite db_add_policy_eq, Hp.
  rewrite query_policy_by_name_eq. cbn [fst].
  intros Hq. destruct (list_find _ _) as [[i o]|] eqn:Hfind; [done|].
  eexists. split; [reflexivity|]. split_and!; [| |done].
  - rewrite query_policy_by_name_eq. cbn [fst table with_table].
    rewrite (list_find_app_r _ _ _ Hfind). simpl.
    rewrite decide_True; [done|]. unfold has_name. simpl. by rewrite Hp.
  - intros nm Hnm. rewrite !query_policy_by_name_eq.
    cbn [fst table with_table]. f_equal.
    destruct (list_find (has_name w nm) (table w)) as [[j o]|] eqn:Hnmfind.
    + erewrite list_find_app_l; [done|].
      erewrite list_find_ext; [exact Hnmfind|done].
    + rewrite list_find_app_r.
      2:{ erewrite list_find_ext; [exact Hnmfind|done]. }
      simpl. rewrite decide_False; [done|]. unfold has_name. simpl.
      rewrite Hp. simpl. congruence.
Qed.

(** The column [name] is unique: inserting an object whose name a row has
    raises [IntegrityError] and leaves the world as it was. *)
Lemma db_add_policy_duplicate oid p old w :
  objects w !! oid = Some p →
  (query_policy_by_name (name p) w).1 = inr (Some old) →
  db_add_policy oid w = (inl IntegrityError, w).
Proof.
  intros Hp Hq. rewrite db_add_policy_eq, Hp.
  rewrite query_policy_by_name_eq in Hq. cbn [fst] in Hq.
  by destruct (list_find _ _) as [[i o]|].
Qed.

(** X5.  Deleting the row of a name: the name is no longer found, every
    other name resolves as before and the table keeps its integrity. *)
Theorem delete_policy_lookup w nm oid p :
  store_ok w →
  stored w nm oid p →
  ∃ w',
    delete_policy oid w = (inr tt, w') ∧
    (query_policy_by_name nm w').1 = inr None ∧
    (∀ nm', nm' ≠ nm →
       (query_policy_by_name nm' w').1 = (query_policy_by_name nm' w).1) ∧
    objects w' = objects w ∧
    store_ok w'.
Proof.
  intros Hok Hst. pose proof Hst as [Hq Hp].
  destruct (stored_inv _ _ _ _ Hst) as [Hin Hname].
  rewrite query_policy_by_name_eq in Hq. simpl in Hq.
  destruct (list_find (has_name w nm) (table w)) as [[i o]|] eqn:Hfind;
    [|done]. simpl in Hq. injection Hq as ->.
  eexists. split; [reflexivity|]. split_and!.
  - rewrite query_policy_by_name_eq. simpl.
    pose proof (list_find_deleted w w nm Hok (λ _ _, eq_refl)) as Hdel.
    rewrite Hfind in Hdel. replace (list_find _ _) with (@None (nat * nat)).
    done.
  - intros nm' Hne. rewrite !query_policy_by_name_eq. simpl. f_equal.
    apply (list_find_filter_snd (has_name w nm') (λ o, o ≠ oid)).
    intros x _ Hx ->. unfold has_name in Hx. rewrite Hp in Hx. simpl in Hx.
    congruence.
  - done.
  - destruct Hok as [Hall Hnd]. split; simpl.
    + apply Forall_forall. intros x [_ Hx]%list_elem_of_filter.
      eapply Forall_forall in Hall; done.
    + eapply sublist_NoDup; [exact Hnd|]. apply fmap_sublist, sublist_filter.
Qed.

End store.


Lemma db_add_policy_lookup_witness :
  ∃ w',
    db_add_policy 2%nat sample_store = (inr tt, w') ∧
    (query_policy_by_name "c" w').1 = inr (Some 2%nat) ∧
    (query_policy_by_name "b" w').1 = inr (Some 1%nat).
Proof.
  destruct (db_add_policy_lookup 2%nat (sample_policy "c" None) sample_store)
    as (w' & Hrun & Hnew & Hold & _).
  - vm_compute. reflexivity.
  - vm_compute. reflexivity.
  - exists w'. split; [exact Hrun|]. split; [exact Hnew|].
    rewrite (Hold "b"); [|discriminate]. vm_compute. reflexivity.
Defined.

Lemma delete_policy_lookup_witness :
  ∃ w',
    delete_policy 0%nat sample_store = (inr tt, w') ∧
    (query_policy_by_name "a" w').1 = inr None ∧
    (query_policy_by_name "b" w').1 = inr (Some 1%nat) ∧
    store_ok w'.
Proof.
  destruct (delete_policy_lookup sample_store "a" 0%nat
              (sample_policy "a" None))
    as (w' & Hrun & Hgone & Hold & _ & Hok).
  - match goal with |- ?P => apply (bool_decide_unpack P) end. by vm_compute.
  - vm_compute. split; reflexivity.
  - exists w'. split; [exact Hrun|]. split; [exact Hgone|].
    split; [|exact Hok].
    rewrite (Hold "b"); [|discriminate]. vm_compute. reflexivity.
Defined.

(** ** The integrity of the table is an invariant *)

Section integrity.
Context {Float Params Value : Type} `{!RatingEngine Float Value}.
Implicit Types (w : World Float Params) (self : PolicyPool Float Value)
  (p : Policy Float) (st : PolicyPool Float Value * World Float Params).

Lemma store_ok_names w w' :
  table w' = table w →
  (∀ o, o ∈ table w → is_Some (objects w !! o) →
     is_Some (objects w' !! o) ∧
     name <$> objects w' !! o = name <$> objects w !! o) →
  store_ok w → store_ok w'.
Proof.
  intros Htab Hobj [Hall Hnd]. split; rewrite Htab.
  - apply Forall_forall. intros o Ho.
    apply Hobj; [done|]. by eapply Forall_forall in Hall.
  - erewrite list_fmap_ext; [exact Hnd|]. intros i o Hi. simpl.
    apply list_elem_of_lookup_2 in Hi.
    apply Hobj; [done|]. by eapply Forall_forall in Hall.
Qed.

Lemma store_ok_set w oid p p' :
  objects w !! oid = Some p → name p' = name p →
  store_ok w → store_ok (with_objects (<[oid := p']> (objects w)) w).
Proof.
  intros Hp Hname. apply store_ok_names; [done|]. intros o _ Ho. simpl.
  destruct (decide (o = oid)) as [->|Hne].
  - rewrite lookup_insert_eq, Hp. simpl. by rewrite Hname.
  - by rewrite lookup_insert_ne.
Qed.

Lemma store_ok_new w p :
  store_ok w →
  store_ok (with_objects (<[fresh (dom (objects w)) := p]> (objects w)) w).
Proof.
  intros Hok. revert Hok. apply store_ok_names; [done|]. intros o _ Ho. simpl.
  rewrite lookup_insert_ne; [done|]. intros <-.
  apply elem_of_dom in Ho. by apply is_fresh in Ho.
Qed.

Lemma store_ok_delete w oid :
  store_ok w → store_ok (with_table (filter (λ o, o ≠ oid) (table w)) w).
Proof.
  intros [Hall Hnd]. split; simpl.
  - apply Forall_forall. intros x [_ Hx]%list_elem_of_filter.
    eapply Forall_forall in Hall; done.
  - eapply sublist_NoDup; [exact Hnd|]. apply fmap_sublist, sublist_filter.
Qed.

Lemma store_ok_insert w oid p :
  objects w !! oid = Some p →
  list_find (has_name w (name p)) (table w) = None →
  store_ok w → store_ok (with_table (table w ++ [oid]) w).
Proof.
  intros Hp Hfind [Hall Hnd]. split; simpl.
  - apply Forall_app. split; [done|]. apply Forall_singleton. by rewrite Hp.
  - rewrite fmap_app. apply NoDup_app. split_and!; [done| |].
    + intros x Hx Hx'. apply list_elem_of_fmap in Hx as (o & -> & Ho).
      simpl in Hx'. apply list_elem_of_singleton in Hx'.
      apply list_find_None in Hfind. eapply Forall_forall in Hfind; [|done].
      apply Hfind. unfold has_name. rewrite Hx', Hp. done.
    + simpl. apply NoDup_singleton.
Qed.

Lemma keeps_store_same {A} (m : M (World Float Params) A) :
  (∀ w, objects (m w).2 = objects w ∧ table (m w).2 = table w) →
  keeps_store m.
Proof.
  intros Hm w. destruct (Hm w) as [Hobj Htab].
  apply store_ok_names; [done|]. intros o _ Ho. by rewrite Hobj.
Qed.

Lemma keeps_store_bind {A B} (m : M (World Float Params) A)
    (k : A → M (World Float Params) B) :
  keeps_store m → (∀ a, keeps_store (k a)) → keeps_store (m ≫= k).
Proof.
  intros Hm Hk w Hok. specialize (Hm w Hok).
  unfold mbind, M_bind, bind. destruct (m w) as [[e|a] w1]; [done|].
  by apply Hk.
Qed.

Lemma deepcopy_keeps l :
  keeps_store (deepcopy (Float := Float) (Params := Params) l).
Proof.
  apply keeps_store_same. intros w. rewrite deepcopy_eq.
  by destruct (heap w !! l).
Qed.

Lemma get_module_keeps l :
  keeps_store (get_module (Float := Float) (Params := Params) l).
Proof.
  apply keeps_store_same. intros w. rewrite get_module_eq.
  by destruct (heap w !! l).
Qed.

Lemma query_policy_by_name_keeps nm :
  keeps_store (query_policy_by_name (Float := Float) (Params := Params) nm).
Proof. by apply keeps_store_same. Qed.

Lemma query_all_policies_keeps :
  keeps_store (query_all_policies (Float := Float) (Params := Params)).
Proof. by apply keeps_store_same. Qed.

Lemma new_policy_keeps p :
  keeps_store (new_policy (Params := Params) p).
Proof. intros w. rewrite new_policy_eq. apply store_ok_new. Qed.

Lemma delete_policy_keeps oid :
  keeps_store (delete_policy (Float := Float) (Params := Params) oid).
Proof. intros w. apply store_ok_delete. Qed.

Lemma db_add_policy_keeps oid :
  keeps_store (db_add_policy (Float := Float) (Params := Params) oid).
Proof.
  intros w Hok. rewrite db_add_policy_eq.
  destruct (objects w !! oid) as [p|] eqn:Hp; [|done].
  destruct (list_find _ _) eqn:Hfind; [done|]. by eapply store_ok_insert.
Qed.

Lemma save_model_keeps oid l :
  keeps_store (save_model (Float := Float) (Params := Params) oid l).
Proof.
  intros w Hok. rewrite save_model_eq.
  destruct (heap w !! l) as [m|]; [|done].
  destruct (objects w !! oid) as [p|] eqn:Hp; [|done]. simpl.
  apply (store_ok_set (with_files _ w) oid p); done.
Qed.

Lemma load_model_keeps oid l :
  keeps_store (load_model (Float := Float) (Params := Params) oid l).
Proof.
  intros w Hok. rewrite load_model_eq.
  destruct (objects w !! oid) as [p|] eqn:Hp; [|done].
  destruct (files w !! model_path p); [|done].
  destruct (heap w !! l) as [m|]; [|done]. simpl.
  apply (store_ok_set (with_heap _ w) oid p); done.
Qed.

Lemma on_snd_keeps {A} (m : M (World Float Params) A) :
  keeps_store m →
  keeps_store_st (Params := Params) (on_snd (S1 := PolicyPool Float Value) m).
Proof.
  intros Hm [self w] Hok. specialize (Hm w Hok). unfold on_snd. simpl in *.
  by destruct (m w).
Qed.

Lemma on_fst_keeps {A} (m : M (PolicyPool Float Value) A) :
  keeps_store_st (Params := Params) (on_fst (S2 := World Float Params) m).
Proof. intros [self w] Hok. unfold on_fst. simpl. by destruct (m self). Qed.

Lemma keeps_store_st_bind {A B}
    (m : M (PolicyPool Float Value * World Float Params) A)
    (k : A → M (PolicyPool Float Value * World Float Params) B) :
  keeps_store_st (Params := Params) m →
  (∀ a, keeps_store_st (Params := Params) (k a)) →
  keeps_store_st (Params := Params) (m ≫= k).
Proof.
  intros Hm Hk st Hok. specialize (Hm st Hok).
  unfold mbind, M_bind, bind. destruct (m st) as [[e|a] st1]; [done|].
  by apply Hk.
Qed.

Lemma keeps_store_st_for {A} (l : list A)
    (body : A → M (PolicyPool Float Value * World Float Params) unit) :
  (∀ x, keeps_store_st (Params := Params) (body x)) →
  keeps_store_st (Params := Params) (for_ l body).
Proof.
  intros Hbody. induction l as [|x l IH]; [by intros st|].
  rewrite for_cons. apply keeps_store_st_bind; [apply Hbody|done].
Qed.

Lemma keeps_store_st_pure {A} (r : res A) :
  keeps_store_st (Params := Params) (λ st, (r, st)).
Proof. by intros st. Qed.

Lemma set_rating_mu_keeps nm x :
  keeps_store_st (Params := Params) (set_rating_mu nm x).
Proof.
  unfold set_rating_mu. apply keeps_store_st_bind; [apply on_fst_keeps|].
  intros self. destruct (ratings _ !! nm); [apply on_fst_keeps|by intros st].
Qed.

Lemma set_rating_sigma_keeps nm x :
  keeps_store_st (Params := Params) (set_rating_sigma nm x).
Proof.
  unfold set_rating_sigma. apply keeps_store_st_bind; [apply on_fst_keeps|].
  intros self. destruct (ratings _ !! nm); [apply on_fst_keeps|by intros st].
Qed.

Lemma add_policy_keeps model nm is_tenured mu_arg sigma_arg anchor
    overwrite_existing :
  keeps_store_st (Params := Params)
    (add_policy model nm is_tenured mu_arg sigma_arg anchor overwrite_existing).
Proof.
  unfold add_policy.
  apply keeps_store_st_bind; [apply on_fst_keeps|]. intros self.
  apply keeps_store_st_bind;
    [apply on_snd_keeps, query_policy_by_name_keeps|]. intros existing.
  apply keeps_store_st_bind.
  { destruct existing as [old|]; [|by intros st].
    destruct (default true overwrite_existing); [|by intros st].
    apply on_snd_keeps, delete_policy_keeps. }
  intros _.
  apply keeps_store_st_bind; [apply on_snd_keeps, deepcopy_keeps|]. intros l.
  apply keeps_store_st_bind; [apply on_snd_keeps, get_module_keeps|]. intros m.
  apply keeps_store_st_bind; [apply on_snd_keeps, new_policy_keeps|].
  intros policy.
  apply keeps_store_st_bind; [apply on_snd_keeps, save_model_keeps|]. intros _.
  apply keeps_store_st_bind; [apply on_snd_keeps, db_add_policy_keeps|].
  intros _. destruct anchor; [apply on_fst_keeps|].
  apply keeps_store_st_bind; [apply on_fst_keeps|]. intros _.
  apply keeps_store_st_bind; [apply set_rating_mu_keeps|]. intros _.
  apply set_rating_sigma_keeps.
Qed.

Lemma get_policy_keeps oid :
  keeps_store (get_policy (Float := Float) (Params := Params) oid).
Proof.
  apply keeps_store_same. intros w. rewrite get_policy_eq.
  by destruct (objects w !! oid).
Qed.

Lemma add_policy_copy_keeps key nm is_tenured anchor :
  keeps_store_st (Params := Params) (add_policy_copy key nm is_tenured anchor).
Proof.
  unfold add_policy_copy.
  apply keeps_store_st_bind;
    [apply on_snd_keeps, query_policy_by_name_keeps|].
  intros [original|]; [|by intros st].
  apply keeps_store_st_bind; [apply on_snd_keeps, get_policy_keeps|].
  intros p. destruct (model p); [apply add_policy_keeps|by intros st].
Qed.

Lemma update_active_policies_keeps rng :
  keeps_store_st (Params := Params) (update_active_policies rng).
Proof.
  unfold update_active_policies.
  apply keeps_store_st_bind; [apply on_fst_keeps|]. intros self.
  apply keeps_store_st_bind;
    [apply on_snd_keeps, query_policy_by_name_keeps|]. intros learner_policy.
  apply keeps_store_st_bind;
    [apply on_snd_keeps, query_all_policies_keeps|]. intros all_policies.
  apply keeps_store_st_bind; [by intros st|]. intros sampled.
  apply keeps_store_st_bind; [apply on_fst_keeps|]. intros _.
  apply keeps_store_st_for. intros [oid|]; [|by intros st].
  apply keeps_store_st_bind; [apply on_snd_keeps, deepcopy_keeps|]. intros l.
  apply on_snd_keeps, load_model_keeps.
Qed.

Lemma update_ranks_keeps : keeps_store_st (Params := Params) update_ranks.
Proof.
  unfold update_ranks.
  apply keeps_store_st_bind; [apply on_fst_keeps|]. intros _.
  apply keeps_store_st_bind; [apply on_fst_keeps|]. intros self.
  apply keeps_store_st_bind; [|intros _; apply on_fst_keeps].
  apply keeps_store_st_for. intros [nm rating].
  apply keeps_store_st_bind;
    [apply on_snd_keeps, query_policy_by_name_keeps|].
  intros [oid|]; [|by intros st].
  intros [self1 w1] Hok. unfold mbind, M_bind, bind, on_snd. simpl.
  rewrite get_policy_eq. destruct (objects w1 !! oid) as [p|] eqn:Hp; [|done].
  simpl. by apply (store_ok_set w1 oid p).
Qed.

(** X6.  The table keeps its integrity through every call, returning or
    raising: after any sequence of calls every row still has its object and
    no two rows have the same name. *)
Theorem run_calls_store_ok (cs : list call) st :
  store_ok st.2 → store_ok (run_calls cs st).2.
Proof.
  revert st. induction cs as [|c cs IH]; intros st Hok; [done|].
  simpl. apply IH. destruct c; simpl.
  - by apply add_policy_keeps.
  - by apply add_policy_copy_keeps.
  - by apply update_active_policies_keeps.
  - pose proof (update_scores_world infos info_key st) as Hw.
    unfold mbind, M_bind, bind.
    destruct (update_scores infos info_key st) as [[e|a] st1]; simpl in *;
      by rewrite Hw.
  - by apply update_ranks_keeps.
Qed.

End integrity.

Lemma run_calls_store_ok_witness :
  store_ok
    (run_calls
       [AddPolicy 0%nat "rival" false None None false None;
        AddPolicyCopy "ghost" "copy" false false;
        AddPolicyCopy "rival" "learner" false true;
        UpdateActivePolicies sample_rng;
        UpdateScores sample_infos "score";
        UpdateRanks] sample_state).2.
Proof. apply run_calls_store_ok, sample_store_ok. Defined.

(** ** A rotation that fails *)

Section rotation_fails.
Context {Float Params Value : Type} `{!RatingEngine Float Value}.
Implicit Types (w : World Float Params) (self : PolicyPool Float Value)
  (p : Policy Float) (st : PolicyPool Float Value * World Float Params).

(** X7.  When no row has the learner's name the rotation raises
    [AttributeError] at the first slot: the roster has been replaced by
    then, slot 0 holding [None], and nothing was copied or loaded. *)
Theorem update_active_policies_unregistered rng self w sampled :
  (query_policy_by_name (learner_name self) w).1 = inr None →
  np_random_choice rng (table w) (num_active_policies self - 1)
    = inr sampled →
  update_active_policies rng (self, w)
  = (inl AttributeError,
     (with_active_policies (None :: (Some <$> sampled)) self, w)).
Proof.
  rewrite query_policy_by_name_eq. cbn [fst]. intros Hq Hchoice.
  unfold update_active_policies.
  rewrite (bind_ok _ _ (self, w) self (self, w)) by done.
  erewrite bind_ok; [|apply on_snd_eq, query_policy_by_name_eq].
  erewrite (bind_ok _ _ _ (table w)); [|apply on_snd_eq; reflexivity].
  rewrite Hchoice. erewrite bind_ok; [|reflexivity].
  erewrite bind_ok; [|apply on_fst_eq; reflexivity].
  destruct (snd <$> list_find _ _) as [lp|]; [done|].
  rewrite for_cons. by erewrite bind_err.
Qed.

(** X8.  Whether it returns or raises, a rotation leaves the rows and the
    snapshot files as they were, never removes or overwrites a module, and
    changes no column of an object: only the attribute [model] and the
    recorded class may differ. *)
Theorem update_active_policies_frame rng st :
  files (update_active_policies rng st).2.2 = files st.2 ∧
  table (update_active_policies rng st).2.2 = table st.2 ∧
  heap st.2 ⊆ heap (update_active_policies rng st).2.2 ∧
  ∀ oid p, objects st.2 !! oid = Some p →
    ∃ p', objects (update_active_policies rng st).2.2 !! oid = Some p' ∧
          model_path p' = model_path p ∧ name p' = name p ∧
          mu p' = mu p ∧ sigma p' = sigma p ∧ episodes p' = episodes p ∧
          additional_data p' = additional_data p.
Proof.
  pose (R := λ s s' : PolicyPool Float Value * World Float Params,
          files s'.2 = files s.2 ∧ table s'.2 = table s.2 ∧
          heap s.2 ⊆ heap s'.2 ∧
          ∀ oid p, objects s.2 !! oid = Some p →
            ∃ p', objects s'.2 !! oid = Some p' ∧
                  model_path p' = model_path p ∧ name p' = name p ∧
                  mu p' = mu p ∧ sigma p' = sigma p ∧
                  episodes p' = episodes p ∧
                  additional_data p' = additional_data p).
  assert (∀ s s', s'.2 = s.2 → R s s') as R_same.
  { intros s s' Heq. unfold R. rewrite Heq. split_and!; [done..|].
    intros oid p Hp. by exists p. }
  assert (∀ s, R s s) as R_refl by (intros s; by apply R_same).
  assert (∀ s1 s2 s3, R s1 s2 → R s2 s3 → R s1 s3) as R_trans.
  { intros s1 s2 s3 (Hf1 & Ht1 & Hh1 & Ho1) (Hf2 & Ht2 & Hh2 & Ho2).
    split_and!; [congruence|congruence|by etrans|].
    intros oid p Hp.
    destruct (Ho1 oid p Hp) as (p1 & Hp1 & ? & ? & ? & ? & ? & ?).
    destruct (Ho2 oid p1 Hp1) as (p2 & Hp2 & ? & ? & ? & ? & ? & ?).
    exists p2. split_and!; congruence. }
  change (R st (update_active_policies rng st).2).
  revert st. unfold update_active_policies.
  apply (bind_preserves R R_trans); [by intros [? ?]; apply R_same|].
  intros self.
  apply (bind_preserves R R_trans); [by intros [? ?]; apply R_same|].
  intros lp.
  apply (bind_preserves R R_trans); [by intros [? ?]; apply R_same|].
  intros all.
  apply (bind_preserves R R_trans); [by intros [? ?]; apply R_same|].
  intros sampled.
  apply (bind_preserves R R_trans); [by intros [? ?]; apply R_same|].
  intros _.
  apply (for_preserves R R_refl R_trans). intros [oid|] [self1 w1];
    [|apply R_refl].
  rewrite activate_eq. destruct (heap w1 !! learner self) as [lrn|];
    [|apply R_refl].
  assert (R (self1, w1)
            (self1, with_heap (<[fresh (dom (heap w1)) := lrn]> (heap w1)) w1))
    as Hcopy.
  { split_and!; [done|done|apply insert_fresh_subseteq|].
    intros o p Hp. by exists p. }
  cbv zeta. destruct (objects w1 !! oid) as [p1|] eqn:Hp1; [|exact Hcopy].
  destruct (files w1 !! model_path p1) as [params|]; [|exact Hcopy].
  split_and!; [done|done|apply insert_fresh_subseteq|]. simpl.
  intros o p Hp. destruct (decide (o = oid)) as [->|Hne].
  - rewrite lookup_insert_eq. eexists. split; [done|].
    rewrite Hp1 in Hp. injection Hp as <-. done.
  - rewrite lookup_insert_ne by done. by exists p.
Qed.

End rotation_fails.

Lemma update_active_policies_unregistered_witness :
  update_active_policies sample_rng
    (new_pool 0%nat "learner" 2 "pool" 1000 1000 33, sample_store)
  = (inl AttributeError,
     (with_active_policies [None; Some 0%nat]
        (new_pool 0%nat "learner" 2 "pool" 1000 1000 33), sample_store)).
Proof.
  apply (update_active_policies_unregistered sample_rng
           (new_pool 0%nat "learner" 2 "pool" 1000 1000 33) sample_store
           [0%nat]).
  - vm_compute. reflexivity.
  - vm_compute. reflexivity.
Defined.

Lemma update_active_policies_frame_witness :
  ∃ p',
    objects (update_active_policies sample_rng
               (sample_state2.1, sample_state2.2)).2.2 !! 1%nat = Some p' ∧
    name p' = "rival" ∧ mu p' = 1000.
Proof.
  destruct (update_active_policies_frame sample_rng
              (sample_state2.1, sample_state2.2)) as (_ & _ & _ & Hobj).
  destruct (Hobj 1%nat
    {| model_path := "pool/rival"; model_class := "Net";
       name := "rival"; mu := 1000; sigma := 33; episodes := 0;
       additional_data := [("tenured", false)]; model := Some 4%nat |})
    as (p' & Hp' & _ & Hname & Hmu & _).
  - vm_compute. reflexivity.
  - exists p'. split; [exact Hp'|]. split; [exact Hname|exact Hmu].
Defined.

(** ** What a registration leaves alone *)

Section registration_frame.
Context {Float Params Value : Type} `{!RatingEngine Float Value}.
Implicit Types (w : World Float Params) (self : PolicyPool Float Value)
  (p : Policy Float) (st : PolicyPool Float Value * World Float Params).

Lemma list_find_has_name w1 w2 nm (l : list nat) :
  (∀ o, o ∈ l → objects w1 !! o = objects w2 !! o) →
  list_find (has_name w1 nm) l = list_find (has_name w2 nm) l.
Proof.
  intros Hobj. apply list_find_ext_in. intros o Ho. unfold has_name.
  by rewrite Hobj.
Qed.

(** [add_policy] on every state: the points at which it can raise and the
    state it leaves at each. *)
Lemma add_policy_eq model nm is_tenured mu_arg sigma_arg anchor
    overwrite_existing self w :
  let tb := match list_find (has_name w nm) (table w) with
            | Some (_, old) => filter (λ o, o ≠ old) (table w)
            | None => table w
            end in
  let l := fresh (dom (heap w)) in
  let oid := fresh (dom (objects w)) in
  add_policy model nm is_tenured mu_arg sigma_arg anchor overwrite_existing
    (self, w)
  = if bool_decide (is_Some (list_find (has_name w nm) (table w)) ∧
                    default true overwrite_existing = false)
    then (inl ValueError, (self, w))
    else
      match heap w !! model with
      | None => (inl ReferenceError, (self, with_table tb w))
      | Some m =>
        let p := {| model_path := path self +:+ "/" +:+ nm;
                    model_class := module_class m; name := nm;
                    mu := default (pool_mu self) mu_arg;
                    sigma := default (pool_sigma self) sigma_arg;
                    episodes := 0;
                    additional_data := [("tenured", is_tenured)];
                    model := Some l |} in
        let w4 := {| heap := <[l := m]> (heap w);
                     files := <[model_path p := state_dict m]> (files w);
                     objects := <[oid := p]> (objects w);
                     table := tb |} in
        match list_find (has_name w4 nm) tb with
        | Some _ => (inl IntegrityError, (self, w4))
        | None =>
          let w5 := with_table (tb ++ [oid]) w4 in
          if anchor
          then (inr tt,
                (with_tournament (rating_set_anchor (tournament self) nm) self,
                 w5))
          else
            let t := rating_add_policy (tournament self) nm in
            match ratings t !! nm with
            | None => (inl KeyError, (with_tournament t self, w5))
            | Some r0 =>
              (inr tt,
               (with_tournament
                  (with_ratings
                     (<[nm := {| rating_mu := default (pool_mu self) mu_arg;
                                 rating_sigma :=
                                   default (pool_sigma self) sigma_arg |}]>
                        (ratings t)) t) self,
                w5))
            end
        end
      end.
Proof.
  intros tb l oid. unfold add_policy.
  rewrite (bind_ok _ _ (self, w) self (self, w)) by done.
  erewrite bind_ok; [|apply on_snd_eq, query_policy_by_name_eq].
  case_bool_decide as Hconf.
  { destruct Hconf as [[[i old] Hfind] Hov]. rewrite Hfind. simpl.
    by rewrite Hov. }
  erewrite (bind_ok _ _ _ tt (self, with_table tb w)); cycle 1.
  { subst tb. destruct (list_find _ _) as [[i old]|] eqn:Hfind; simpl.
    - destruct (default true overwrite_existing) eqn:Hov; [done|].
      destruct Hconf. eauto.
    - by destruct w. }
  destruct (heap w !! model) as [m|] eqn:Hm; cycle 1.
  { erewrite bind_err; [done|].
    apply on_snd_eq. rewrite deepcopy_eq. simpl. by rewrite Hm. }
  erewrite bind_ok;
    [|apply on_snd_eq; rewrite deepcopy_eq; simpl; rewrite Hm; done].
  erewrite bind_ok; cycle 1.
  { apply on_snd_eq. rewrite get_module_eq. simpl. by rewrite lookup_insert_eq. }
  erewrite bind_ok; [|apply on_snd_eq, new_policy_eq].
  cbv zeta.
  set (p := {| model_path := path self +:+ "/" +:+ nm;
               model_class := module_class m; name := nm;
               mu := default (pool_mu self) mu_arg;
               sigma := default (pool_sigma self) sigma_arg;
               episodes := 0;
               additional_data := [("tenured", is_tenured)];
               model := Some l |}).
  set (w4 := {| heap := <[l := m]> (heap w);
                files := <[model_path p := state_dict m]> (files w);
                objects := <[oid := p]> (objects w);
                table := tb |}).
  erewrite (bind_ok _ _ _ tt (self, w4)); cycle 1.
  { apply on_snd_eq. rewrite save_model_eq. simpl.
    rewrite !lookup_insert_eq. unfold with_objects. simpl.
    by rewrite insert_insert_eq. }
  assert (on_snd (db_add_policy oid) (self, w4)
          = match list_find (has_name w4 nm) tb with
            | Some _ => (inl IntegrityError, (self, w4))
            | None => (inr tt, (self, with_table (tb ++ [oid]) w4))
            end) as Hadd.
  { unfold on_snd. cbn [snd fst]. rewrite db_add_policy_eq.
    cbn [objects table w4]. rewrite lookup_insert_eq. cbn [name p].
    by destruct (list_find (has_name w4 nm) tb). }
  destruct (list_find (has_name w4 nm) tb) as [[j o]|] eqn:Hdup.
  { by erewrite bind_err. }
  erewrite bind_ok; [|exact Hadd].
  destruct anchor; [reflexivity|].
  erewrite bind_ok; [|apply on_fst_eq; reflexivity].
  destruct (ratings (rating_add_policy (tournament self) nm) !! nm)
    as [r0|] eqn:Hreg.
  - erewrite bind_ok; cycle 1.
    { unfold set_rating_mu.
      erewrite bind_ok; [|apply on_fst_eq; reflexivity].
      simpl. rewrite Hreg. apply on_fst_eq. reflexivity. }
    unfold set_rating_sigma.
    erewrite bind_ok; [|apply on_fst_eq; reflexivity].
    simpl. rewrite lookup_insert_eq. simpl. rewrite insert_insert_eq.
    reflexivity.
  - erewrite bind_err; [done|]. unfold set_rating_mu.
    erewrite bind_ok; [|apply on_fst_eq; reflexivity].
    simpl. rewrite Hreg. reflexivity.
Qed.

(** No object is removed or overwritten by a registration. *)
Lemma add_policy_objects_subseteq model nm is_tenured mu_arg sigma_arg anchor
    overwrite_existing self w :
  objects w ⊆
  objects (add_policy model nm is_tenured mu_arg sigma_arg anchor
             overwrite_existing (self, w)).2.2.
Proof.
  rewrite add_policy_eq. cbv zeta.
  case_bool_decide; [done|].
  destruct (heap w !! model) as [m|]; [|done].
  match goal with
  | |- context [match list_find ?P ?l with
                | Some _ => (inl IntegrityError, _) | None => _ end] =>
      destruct (list_find P l) as [[j o]|]
  end; [apply insert_fresh_subseteq|].
  destruct anchor; [apply insert_fresh_subseteq|].
  destruct (ratings _ !! nm); apply insert_fresh_subseteq.
Qed.

(** X9.  Whatever its outcome, [add_policy] changes no attribute of the pool
    but the engine, removes or overwrites no module and no object, and
    writes to no file but the snapshot of the name. *)
Theorem add_policy_frame model nm is_tenured mu_arg sigma_arg anchor
    overwrite_existing self w :
  let st' := (add_policy model nm is_tenured mu_arg sigma_arg anchor
                overwrite_existing (self, w)).2 in
  (∃ t, st'.1 = with_tournament t self) ∧
  heap w ⊆ heap st'.2 ∧
  objects w ⊆ objects st'.2 ∧
  (∀ f, f ≠ path self +:+ "/" +:+ nm → files st'.2 !! f = files w !! f).
Proof.
  pose (F := λ st' : PolicyPool Float Value * World Float Params,
          (∃ t, st'.1 = with_tournament t self) ∧
          heap w ⊆ heap st'.2 ∧ objects w ⊆ objects st'.2 ∧
          ∀ f, f ≠ path self +:+ "/" +:+ nm →
               files st'.2 !! f = files w !! f).
  assert (∀ t w', heap w ⊆ heap w' → objects w ⊆ objects w' →
            (∀ f, f ≠ path self +:+ "/" +:+ nm →
                  files w' !! f = files w !! f) →
            F (with_tournament t self, w')) as Hpool.
  { intros t w' ? ? ?. split_and!; [by exists t|done..]. }
  assert (∀ w', heap w ⊆ heap w' → objects w ⊆ objects w' →
            (∀ f, f ≠ path self +:+ "/" +:+ nm →
                  files w' !! f = files w !! f) →
            F (self, w')) as Hsame.
  { intros w' ? ? ?. split_and!; [|done..].
    exists (tournament self). by destruct self. }
  change (F (add_policy model nm is_tenured mu_arg sigma_arg anchor
               overwrite_existing (self, w)).2).
  rewrite add_policy_eq. cbv zeta.
  case_bool_decide; [by apply Hsame|].
  destruct (heap w !! model) as [m|]; [|by apply Hsame].
  assert (∀ f, f ≠ path self +:+ "/" +:+ nm →
            <[path self +:+ "/" +:+ nm := state_dict m]> (files w) !! f
            = files w !! f) as Hfiles
    by (intros f Hf; by rewrite lookup_insert_ne).
  match goal with
  | |- context [match list_find ?P ?l with
                | Some _ => (inl IntegrityError, _) | None => _ end] =>
      destruct (list_find P l) as [[j o]|]
  end.
  { apply Hsame; [apply insert_fresh_subseteq..|exact Hfiles]. }
  destruct anchor.
  { apply Hpool; [apply insert_fresh_subseteq..|exact Hfiles]. }
  destruct (ratings _ !! nm);
    apply Hpool; (apply insert_fresh_subseteq || exact Hfiles).
Qed.

(** X10.  On an intact Store a registration under [nm], whatever its
    outcome, leaves every other name resolving to the row it had, and this
    row's object as it was. *)
Theorem add_policy_other_names model nm is_tenured mu_arg sigma_arg anchor
    overwrite_existing self w nm' :
  store_ok w →
  nm' ≠ nm →
  let w' := (add_policy model nm is_tenured mu_arg sigma_arg anchor
               overwrite_existing (self, w)).2.2 in
  (query_policy_by_name nm' w').1 = (query_policy_by_name nm' w).1 ∧
  ∀ oid p, stored w nm' oid p → stored w' nm' oid p.
Proof.
  intros Hok Hne w'.
  assert ((query_policy_by_name nm' w').1 = (query_policy_by_name nm' w).1)
    as Hq; cycle 1.
  { split; [done|]. intros oid p [Hq' Hp]. split; [by rewrite Hq|].
    eapply lookup_weaken; [exact Hp|]. apply add_policy_objects_subseteq. }
  subst w'. rewrite add_policy_eq. cbv zeta.
  set (tb := match list_find (has_name w nm) (table w) with
             | Some (_, old) => filter (λ o, o ≠ old) (table w)
             | None => table w
             end).
  assert (snd <$> list_find (has_name w nm') tb
          = snd <$> list_find (has_name w nm') (table w)) as Htb.
  { subst tb. destruct (list_find (has_name w nm) (table w))
      as [[i old]|] eqn:Hfind; [|done].
    apply list_find_filter_snd. intros x _ Hx ->.
    apply list_find_Some in Hfind as (_ & Hold & _).
    unfold has_name in *. congruence. }
  assert (∀ w'' (p : Policy Float),
            objects w'' = <[fresh (dom (objects w)) := p]> (objects w) →
            ∀ o, o ∈ tb → objects w'' !! o = objects w !! o) as Hrows.
  { intros w'' p Hobj o Ho. rewrite Hobj, lookup_insert_ne; [done|].
    apply not_eq_sym, row_not_fresh; [apply Hok|].
    subst tb. destruct (list_find (has_name w nm) (table w)) as [[i old]|];
      [|done]. by apply list_elem_of_filter in Ho as [_ ?]. }
  assert (∀ w'' (p : Policy Float),
            objects w'' = <[fresh (dom (objects w)) := p]> (objects w) →
            name p = nm →
            snd <$> list_find (has_name w'' nm')
                      (tb ++ [fresh (dom (objects w))])
            = snd <$> list_find (has_name w nm') (table w)) as Hadded.
  { intros w'' p Hobj Hp. rewrite <- Htb. apply list_find_snoc_other.
    - intros o Ho. unfold has_name. by rewrite (Hrows w'' p Hobj o Ho).
    - unfold has_name. rewrite Hobj, lookup_insert_eq. simpl. congruence. }
  rewrite !query_policy_by_name_eq. cbn [fst]. f_equal.
  case_bool_decide; [done|].
  destruct (heap w !! model) as [m|]; cycle 1.
  { cbn [snd table with_table].
    by rewrite (list_find_has_name (with_table tb w) w), Htb. }
  match goal with
  | |- context [match list_find ?P ?l with
                | Some _ => (inl IntegrityError, _) | None => _ end] =>
      destruct (list_find P l) as [[j o]|]
  end.
  { cbn [snd table]. rewrite <- Htb. f_equal.
    apply list_find_has_name. by eapply Hrows. }
  destruct anchor; [by eapply Hadded|].
  destruct (ratings _ !! nm); by eapply Hadded.
Qed.


End registration_frame.

Lemma add_policy_frame_witness :
  let st' := (add_policy 0%nat "rival" false None None false None
                (sample_state.1, sample_state.2)).2 in
  files st'.2 !! "pool/learner" = files sample_state.2 !! "pool/learner" ∧
  objects sample_state.2 ⊆ objects st'.2.
Proof.
  destruct (add_policy_frame 0%nat "rival" false None None false None
              sample_state.1 sample_state.2) as (_ & _ & Hobj & Hfiles).
  split; [|exact Hobj]. apply Hfiles. vm_compute. discriminate.
Defined.

Lemma add_policy_other_names_witness :
  let w' := (add_policy 0%nat "rival" true None None false None
               (sample_state2.1, sample_state2.2)).2.2 in
  (query_policy_by_name "learner" w').1
  = (query_policy_by_name "learner" sample_state2.2).1.
Proof.
  apply (add_policy_other_names 0%nat "rival" true None None false None
           sample_state2.1 sample_state2.2 "learner").
  - apply sample_store_ok.
  - discriminate.
Defined.


(** ** Registering a copy of a stored policy *)

Section copy.
Context {Float Params Value : Type} `{!RatingEngine Float Value}.
Implicit Types (w : World Float Params) (self : PolicyPool Float Value)
  (p : Policy Float) (st : PolicyPool Float Value * World Float Params).

(** X12.  A key that is not in the Store: [add_policy_copy] raises
    [AssertionError] and the pool and the world are as they were. *)
Theorem add_policy_copy_missing_key key nm is_tenured anchor self w :
  (query_policy_by_name key w).1 = inr None →
  add_policy_copy key nm is_tenured anchor (self, w)
  = (inl AssertionError, (self, w)).
Proof.
  rewrite query_policy_by_name_eq. cbn [fst]. intros [= Hq].
  unfold add_policy_copy.
  erewrite bind_ok; [|apply on_snd_eq, query_policy_by_name_eq].
  by rewrite Hq.
Qed.


End copy.

Lemma add_policy_copy_missing_key_witness :
  add_policy_copy "ghost" "copy" false false (sample_state.1, sample_state.2)
  = (inl AssertionError, (sample_state.1, sample_state.2)).
Proof.
  apply add_policy_copy_missing_key. vm_compute. reflexivity.
Defined.


(** ** What a rank update leaves alone *)

Section ranks_frame.
Context {Float Params Value : Type} `{!RatingEngine Float Value}.
Implicit Types (w : World Float Params) (self : PolicyPool Float Value)
  (p : Policy Float) (st : PolicyPool Float Value * World Float Params).

(** The write-back loop changes no attribute of an object but [mu] and
    [sigma], and creates no object. *)
Lemma write_back_objects (l : list (string * Rating Float)) st :
  let st' := (for_ l (λ '(nm, rating),
                policy ← on_snd (query_policy_by_name nm);
                match policy with
                | Some oid =>
                    p ← on_snd (get_policy oid);
                    on_snd (set_policy oid (with_rating rating p));;
                    on_snd (update_policy oid)
                | None => ret tt
                end) st).2 in
  (∀ oid p, objects st.2 !! oid = Some p →
     ∃ r, objects st'.2 !! oid = Some (with_rating r p)) ∧
  (∀ oid, objects st.2 !! oid = None → objects st'.2 !! oid = None).
Proof.
  pose (R := λ s s' : PolicyPool Float Value * World Float Params,
          (∀ oid p, objects s.2 !! oid = Some p →
             ∃ r, objects s'.2 !! oid = Some (with_rating r p)) ∧
          (∀ oid, objects s.2 !! oid = None → objects s'.2 !! oid = None)).
  assert (∀ s, R s s) as R_refl.
  { intros s. split; [|done]. intros oid p Hp.
    exists {| rating_mu := mu p; rating_sigma := sigma p |}.
    by rewrite with_rating_id. }
  assert (∀ s1 s2 s3, R s1 s2 → R s2 s3 → R s1 s3) as R_trans.
  { intros s1 s2 s3 [Ho1 Hn1] [Ho2 Hn2]. split; [|by auto].
    intros oid p Hp. destruct (Ho1 oid p Hp) as [r1 Hp1].
    destruct (Ho2 oid _ Hp1) as [r2 Hp2]. exists r2. by rewrite Hp2. }
  change (R st (for_ l (λ '(nm, rating),
                policy ← on_snd (query_policy_by_name nm);
                match policy with
                | Some oid =>
                    p ← on_snd (get_policy oid);
                    on_snd (set_policy oid (with_rating rating p));;
                    on_snd (update_policy oid)
                | None => ret tt
                end) st).2).
  revert st. apply (for_preserves R R_refl R_trans).
  intros [nm rating] [self w]. rewrite write_back_eq. cbn [snd].
  destruct (list_find _ _) as [[i oid]|]; [|apply R_refl].
  destruct (objects w !! oid) as [p|] eqn:Hp; [|apply R_refl].
  split; simpl.
  - intros o p' Hp'. destruct (decide (o = oid)) as [->|Hne].
    + rewrite lookup_insert_eq. exists rating. congruence.
    + rewrite lookup_insert_ne by done.
      exists {| rating_mu := mu p'; rating_sigma := sigma p' |}.
      by rewrite with_rating_id.
  - intros o Ho. rewrite lookup_insert_ne; [done|]. congruence.
Qed.

(** X14.  A rank update always returns. Of the pool it changes the engine
    and the ledger and nothing else: the counter [num_scores] is not reset
    with the ledger. Of the world it changes nothing but the [mu] and
    [sigma] of objects: rows, modules and snapshot files are as they were,
    every name resolves as before, and no object is created or loses another
    attribute. *)
Theorem update_ranks_frame self w :
  let r := update_ranks (self, w) in
  r.1 = inr tt ∧
  r.2.1 = with_scores [] (num_scores self)
            (with_tournament
               (rating_update (tournament self) (scores self).*1
                  (scores self).*2) self) ∧
  num_scores r.2.1 = num_scores self ∧
  table r.2.2 = table w ∧ heap r.2.2 = heap w ∧ files r.2.2 = files w ∧
  (∀ nm, (query_policy_by_name nm r.2.2).1 = (query_policy_by_name nm w).1) ∧
  (∀ oid p, objects w !! oid = Some p →
     ∃ rt, objects r.2.2 !! oid = Some (with_rating rt p)) ∧
  (∀ oid, objects w !! oid = None → objects r.2.2 !! oid = None).
Proof.
  intros r.
  assert ((∀ oid p, objects w !! oid = Some p →
             ∃ rt, objects r.2.2 !! oid = Some (with_rating rt p)) ∧
          (∀ oid, objects w !! oid = None → objects r.2.2 !! oid = None))
    as [Hobj Hnone].
  { subst r. unfold update_ranks.
    erewrite bind_ok; [|apply on_fst_eq; reflexivity].
    erewrite bind_ok; [|apply on_fst_eq; reflexivity].
    match goal with
    | |- context [mbind ?k (for_ ?l ?body) ?st] =>
        pose proof (write_back_objects l st) as Hloop;
        destruct (for_ l body st) as [[e|[]] [self1 w1]] eqn:Hfor
    end.
    - erewrite bind_err; [|exact Hfor]. exact Hloop.
    - erewrite bind_ok; [|exact Hfor]. exact Hloop. }
  destruct (update_ranks_run self w)
    as (w' & Hrun & Ht & Hh & Hf & Hq & _ & _).
  subst r. rewrite Hrun in *. by split_and!.
Qed.

(** X15.  After a rank update the Store and the engine agree: every stored
    record whose name the engine lists carries the engine's [mu] and [sigma]
    for that name. *)
Theorem update_ranks_store_agrees self w nm oid p r :
  let st' := (update_ranks (self, w)).2 in
  stored st'.2 nm oid p →
  ratings (tournament st'.1) !! nm = Some r →
  mu p = rating_mu r ∧ sigma p = rating_sigma r.
Proof.
  intros st' Hst Hr. destruct (update_ranks_run self w) as (w' & Hrun & _).
  eapply (update_ranks_consistent self w st'.1 st'.2); [|exact Hst|exact Hr].
  subst st'. by rewrite Hrun.
Qed.

End ranks_frame.

Lemma update_ranks_frame_witness :
  let r := update_ranks (sample_state3.1, sample_state3.2) in
  num_scores r.2.1 = 3 ∧ scores r.2.1 = [] ∧
  ∃ rt, objects r.2.2 !! 1%nat
        = Some (with_rating rt
            {| model_path := "pool/rival"; model_class := "Net";
               name := "rival"; mu := 1000; sigma := 33; episodes := 0;
               additional_data := [("tenured", false)];
               model := Some 4%nat |}).
Proof.
  destruct (update_ranks_frame sample_state3.1 sample_state3.2)
    as (_ & Hpool & Hn & _ & _ & _ & _ & Hobj & _).
  split; [exact Hn|]. split; [by rewrite Hpool|].
  apply Hobj. vm_compute. reflexivity.
Defined.

Lemma update_ranks_store_agrees_witness :
  let st' := (update_ranks (sample_state3.1, sample_state3.2)).2 in
  ∃ p r,
    stored st'.2 "learner" 0%nat p ∧
    ratings (tournament st'.1) !! "learner" = Some r ∧
    mu p = 1007 ∧ rating_mu r = 1007 ∧
    mu p = rating_mu r ∧ sigma p = rating_sigma r.
Proof.
  assert (let st' := (update_ranks (sample_state3.1, sample_state3.2)).2 in
          stored st'.2 "learner" 0%nat
            {| model_path := "pool/learner"; model_class := "Net";
               name := "learner"; mu := 1007; sigma := 33; episodes := 0;
               additional_data := [("tenured", true)];
               model := Some 3%nat |}) as Hst
    by (vm_compute; split; reflexivity).
  assert (let st' := (update_ranks (sample_state3.1, sample_state3.2)).2 in
          ratings (tournament st'.1) !! "learner"
          = Some {| rating_mu := 1007; rating_sigma := 33 |}) as Hr
    by (vm_compute; reflexivity).
  eexists _, _. split; [exact Hst|]. split; [exact Hr|].
  split; [reflexivity|]. split; [reflexivity|].
  exact (update_ranks_store_agrees sample_state3.1 sample_state3.2
           "learner" 0%nat _ _ Hst Hr).
Defined.

(** ** The entries returned by [update_scores] *)

Section dict_keys.
Context {V : Type}.
Implicit Types (d : list (string * V)).

Lemma dict_get_None k d : dict_get k d = None ↔ k ∉ d.*1.
Proof.
  induction d as [|[k' v'] d IH]; simpl.
  - split; [intros _; apply not_elem_of_nil|done].
  - rewrite not_elem_of_cons. destruct (decide (k' = k)) as [->|Hne].
    + split; [done|]. by intros [? _].
    + rewrite IH. split; [by intros ?|by intros [_ ?]].
Qed.

Lemma dict_set_keys k v d :
  (dict_set k v d).*1 = if decide (k ∈ d.*1) then d.*1 else d.*1 ++ [k].
Proof.
  induction d as [|[k' v'] d IH].
  - rewrite decide_False; [done|]. apply not_elem_of_nil.
  - cbn [dict_set]. destruct (decide (k' = k)) as [->|Hne].
    + rewrite !fmap_cons. cbn [fst]. rewrite decide_True; [done|]. left.
    + rewrite !fmap_cons, IH. cbn [fst].
      destruct (decide (k ∈ d.*1)) as [Hin|Hnin].
      * rewrite decide_True; [done|]. by right.
      * rewrite decide_False; [done|]. rewrite not_elem_of_cons. by split.
Qed.
End dict_keys.

Lemma dict_extend_get {V} (nm nm' : string) (xs : list V)
    (d : list (string * list V)) :
  default [] (dict_get nm' (dict_extend nm xs d))
  = default [] (dict_get nm' d) ++ (if decide (nm' = nm) then xs else []).
Proof.
  unfold dict_extend. destruct (decide (nm' = nm)) as [->|Hne].
  - destruct (dict_get nm d) as [old|] eqn:Hold;
      by rewrite dict_get_set_eq.
  - destruct (dict_get nm d) as [old|];
      rewrite dict_get_set_ne by done; by rewrite app_nil_r.
Qed.

Lemma dict_extend_keys {V} (nm : string) (xs : list V)
    (d : list (string * list V)) :
  (dict_extend nm xs d).*1 = if decide (nm ∈ d.*1) then d.*1 else d.*1 ++ [nm].
Proof. unfold dict_extend. destruct (dict_get nm d); apply dict_set_keys. Qed.

Lemma fold_app {S A B} (l1 l2 : list A) (acc : B) (body : B → A → M S B) s :
  fold_ (l1 ++ l2) acc body s
  = (fold_ l1 acc body ≫= λ acc', fold_ l2 acc' body) s.
Proof.
  revert acc s. induction l1 as [|x l1 IH]; intros acc s; [done|].
  rewrite <- app_comm_cons, !fold_cons. unfold mbind, M_bind, bind.
  destruct (body acc x s) as [[e|acc1] s1]; [done|]. apply IH.
Qed.

Lemma py_index_is_inr {A} (l : list A) (i : Z) :
  (∃ x, py_index l i = inr x)
  ↔ - Z.of_nat (length l) ≤ i < Z.of_nat (length l).
Proof.
  unfold py_index. cbv zeta.
  destruct (decide (i < 0)) as [Hneg|Hpos].
  - destruct (decide (0 ≤ i + Z.of_nat (length l))) as [Hj|Hj].
    + destruct (l !! Z.to_nat (i + Z.of_nat (length l))) as [x|] eqn:Hx.
      * split; [intros _; lia|by eexists].
      * apply lookup_ge_None in Hx. split; [by intros [? ?]|lia].
    + split; [by intros [? ?]|lia].
  - destruct (decide (0 ≤ i)) as [Hj|Hj]; [|lia].
    destruct (l !! Z.to_nat i) as [x|] eqn:Hx.
    + apply lookup_lt_Some in Hx. split; [intros _; lia|by eexists].
    + apply lookup_ge_None in Hx. split; [by intros [? ?]|lia].
Qed.

Lemma np_take_is_inr {A} (a : list A) (idxs : list Z) :
  (∃ xs, np_take a idxs = inr xs)
  ↔ Forall (λ i, - Z.of_nat (length a) ≤ i < Z.of_nat (length a)) idxs.
Proof.
  unfold np_take. induction idxs as [|i idxs IH]; simpl.
  { split; [constructor|by eexists]. }
  rewrite Forall_cons, <- IH, <- py_index_is_inr.
  destruct (py_index a i) as [e|x]; simpl.
  { split; [by intros [? ?]|by intros [[? ?] _]]. }
  destruct (res_map (py_index a) idxs) as [e|xs]; simpl.
  { split; [by intros [? ?]|by intros [_ [? ?]]]. }
  split; [intros _; split; by eexists|by eexists].
Qed.

Section entries.
Context {Float Params Value : Type} `{!RatingEngine Float Value}.
Implicit Types (w : World Float Params) (self : PolicyPool Float Value)
  (p : Policy Float) (st : PolicyPool Float Value * World Float Params).

Lemma np_take_entries (agent_infos : list (gmap string Value)) samp
    pol_infos :
  np_take agent_infos samp = inr pol_infos →
  pol_infos = slot_entries agent_infos samp.
Proof.
  unfold np_take, slot_entries. revert pol_infos.
  induction samp as [|idx samp IH]; intros pol_infos; simpl.
  { by intros [= <-]. }
  destruct (py_index agent_infos idx) as [e|i]; simpl; [done|].
  destruct (res_map _ samp) as [e|rest]; simpl; [done|].
  intros [= <-]. f_equal. by apply IH.
Qed.

(** The dictionary built by the loop of [update_scores]. *)
Lemma score_slots_entries (agent_infos : list (gmap string Value)) info_key
    (slots : list (list Z * option nat)) w :
  ∀ acc self r st',
  fold_ slots acc (λ policy_infos '(samp, policy),
    pol_infos ← lift_res (np_take agent_infos samp);
    nm ← match policy with
         | None => raise AttributeError
         | Some oid => p ← on_snd (get_policy oid); ret (name p)
         end;
    let policy_infos := dict_extend nm pol_infos policy_infos in
    for_ pol_infos (λ i,
      match i !! info_key with
      | None => ret tt
      | Some v =>
          on_fst (modify (λ self,
            with_scores (dict_append nm v (scores self))
                        (num_scores self + 1) self))
      end);;
    ret policy_infos) (self, w) = (inr r, st') →
  (∀ nm, default [] (dict_get nm r)
         = default [] (dict_get nm acc) ++ name_entries w agent_infos nm slots) ∧
  (∀ nm, nm ∈ r.*1 ↔
         nm ∈ acc.*1 ∨ ∃ slot, slot ∈ slots ∧ slot_name w slot.2 = Some nm) ∧
  (NoDup acc.*1 → NoDup r.*1).
Proof.
  induction slots as [|[samp policy] slots IH]; intros acc self r st' Hrun.
  { injection Hrun as <- <-. split_and!; [| |done].
    - intros nm. by rewrite app_nil_r.
    - intros nm. split; [by left|].
      by intros [?|(slot & ?%elem_of_nil & _)]. }
  rewrite fold_cons in Hrun.
  apply bind_inv_ok in Hrun as (acc1 & st1 & Hslot & Hrest).
  cbv beta iota in Hslot. rewrite score_slot in Hslot.
  destruct (np_take agent_infos samp) as [e|pol_infos] eqn:Htake; [done|].
  destruct policy as [oid|]; [|done].
  destruct (slot_name w (Some oid)) as [nm0|] eqn:Hnm0; [|done].
  injection Hslot as <- <-.
  apply IH in Hrest as (Hget & Hkeys & Hnd).
  apply np_take_entries in Htake as ->. split_and!.
  - intros nm. rewrite Hget, dict_extend_get, <- app_assoc. f_equal.
    unfold name_entries. rewrite bind_cons. f_equal. rewrite Hnm0.
    destruct (decide (nm = nm0)) as [->|Hne].
    + by rewrite decide_True.
    + rewrite decide_False; [done|]. congruence.
  - intros nm. rewrite Hkeys, dict_extend_keys. split.
    + intros [Hin|(slot & Hslot & Hname)].
      * destruct (decide (nm0 ∈ acc.*1)); [by left|].
        apply elem_of_app in Hin as [?|Hin]; [by left|].
        apply list_elem_of_singleton in Hin as ->. right.
        exists (samp, Some oid). split; [left|exact Hnm0].
      * right. exists slot. split; [by right|done].
    + intros [Hin|(slot & Hslot & Hname)].
      * left. destruct (decide (nm0 ∈ acc.*1)); [done|].
        apply elem_of_app. by left.
      * apply elem_of_cons in Hslot as [->|Hslot].
        -- left. cbn [snd] in Hname. rewrite Hnm0 in Hname.
           injection Hname as ->.
           destruct (decide (nm ∈ acc.*1)); [done|].
           apply elem_of_app. right. left.
        -- right. by exists slot.
  - intros Hacc. apply Hnd. rewrite dict_extend_keys.
    destruct (decide (nm0 ∈ acc.*1)) as [Hin|Hnin]; [done|].
    apply NoDup_app. split_and!; [done| |apply NoDup_singleton].
    intros x Hx ->%list_elem_of_singleton. done.
Qed.

(** X16.  What [update_scores] returns: a dictionary whose keys are the
    names held by the slots of the roster, each once, and whose value under
    a name is the list of the entries at the indices of the slots holding
    that name, in slot order, whether or not an entry has the key
    [info_key]. *)
Theorem update_scores_returns_entries infos info_key self w r st' :
  let agent_infos := infos ≫= (λ info, info.*2) in
  let slots := zip (sample_idxs self) (active_policies self) in
  update_scores infos info_key (self, w) = (inr r, st') →
  (∀ nm, default [] (dict_get nm r) = name_entries w agent_infos nm slots) ∧
  (∀ nm, nm ∈ r.*1 ↔ ∃ slot, slot ∈ slots ∧ slot_name w slot.2 = Some nm) ∧
  NoDup r.*1.
Proof.
  intros agent_infos slots Hrun. unfold update_scores in Hrun.
  rewrite (bind_ok _ _ (self, w) self (self, w)) in Hrun by done.
  apply score_slots_entries in Hrun as (Hget & Hkeys & Hnd).
  split_and!; [done| |apply Hnd, NoDup_nil_2].
  intros nm. rewrite Hkeys. split; [|by right].
  by intros [[]%elem_of_nil|?].
Qed.

(** X17.  [update_scores] is not atomic: when the slot after the slots [pre]
    fails, on an index outside the flattened infos or on a roster entry that
    is no object, the call raises, and the samples of the slots [pre] are in
    the ledger and counted in [num_scores] all the same. *)
Theorem update_scores_failure_keeps_prefix infos info_key self w
    pre samp policy post :
  let agent_infos := infos ≫= (λ info, info.*2) in
  zip (sample_idxs self) (active_policies self)
  = pre ++ (samp, policy) :: post →
  Forall (λ slot, is_Some (slot_name w slot.2) ∧
                  ∃ pol_infos, np_take agent_infos slot.1 = inr pol_infos)
    pre →
  (∃ e, np_take agent_infos samp = inl e) ∨ slot_name w policy = None →
  ∃ e self',
    update_scores infos info_key (self, w) = (inl e, (self', w)) ∧
    (∀ nm, ledger self' nm
           = ledger self nm ++ name_samples w agent_infos info_key nm pre) ∧
    num_scores self'
    = num_scores self
      + Z.of_nat (length (pre ≫= λ slot,
                            slot_samples agent_infos info_key slot.1)).
Proof.
  intros agent_infos Hzip Hpre Hbad. unfold update_scores.
  rewrite (bind_ok _ _ (self, w) self (self, w)) by done.
  fold agent_infos. rewrite Hzip, fold_app.
  destruct (score_slots_total agent_infos info_key pre w Hpre [] self)
    as (r1 & st1 & Hrun1).
  pose proof Hrun1 as Hpost.
  apply score_slots in Hpost as (self1 & -> & Hledger & Hnum & _).
  erewrite bind_ok; [|exact Hrun1]. rewrite fold_cons.
  assert (∃ e, (pol_infos ← lift_res (np_take agent_infos samp);
                nm ← match policy with
                     | None => raise AttributeError
                     | Some oid => p ← on_snd (get_policy oid); ret (name p)
                     end;
                let policy_infos := dict_extend nm pol_infos r1 in
                for_ pol_infos (λ i,
                  match i !! info_key with
                  | None => ret tt
                  | Some v =>
                      on_fst (modify (λ self,
                        with_scores (dict_append nm v (scores self))
                                    (num_scores self + 1) self))
                  end);;
                ret policy_infos) (self1, w) = (inl e, (self1, w)))
    as [e He].
  { rewrite score_slot.
    destruct (np_take agent_infos samp) as [e|pol_infos]; [by eexists|].
    destruct Hbad as [[e ?]|Hname]; [done|].
    destruct policy as [oid|]; [|by eexists]. rewrite Hname. by eexists. }
  exists e, self1. split; [|done]. by erewrite bind_err.
Qed.

(** X18.  [update_scores] returns exactly when every slot of the roster
    holds an object and every index of the partition is within the flattened
    infos, counting from either end. *)
Theorem update_scores_returns_iff infos info_key self w :
  let agent_infos := infos ≫= (λ info, info.*2) in
  let n := Z.of_nat (length agent_infos) in
  (∃ r st', update_scores infos info_key (self, w) = (inr r, st'))
  ↔ Forall (λ slot, is_Some (slot_name w slot.2) ∧
                    Forall (λ idx, - n ≤ idx < n) slot.1)
      (zip (sample_idxs self) (active_policies self)).
Proof.
  intros agent_infos n.
  assert (Forall (λ slot, is_Some (slot_name w slot.2) ∧
                          Forall (λ idx, - n ≤ idx < n) slot.1)
            (zip (sample_idxs self) (active_policies self))
          ↔ Forall (λ slot, is_Some (slot_name w slot.2) ∧
                            ∃ pol_infos,
                              np_take agent_infos slot.1 = inr pol_infos)
              (zip (sample_idxs self) (active_policies self))) as ->.
  { apply Forall_proper; [|done]. intros slot. by rewrite np_take_is_inr. }
  unfold update_scores. split.
  - intros (r & st' & Hrun).
    rewrite (bind_ok _ _ (self, w) self (self, w)) in Hrun by done.
    by apply score_slots in Hrun as (? & _ & _ & _ & _ & _ & _ & Hall).
  - intros Hall. rewrite (bind_ok _ _ (self, w) self (self, w)) by done.
    by apply score_slots_total.
Qed.

End entries.

Lemma update_scores_returns_entries_witness :
  let st := update_scores sample_infos "score"
              (sample_state2.1, sample_state2.2) in
  ∃ r, st.1 = inr r ∧
       length (default [] (dict_get "learner" r)) = 8%nat ∧
       NoDup r.*1.
Proof.
  intros st.
  assert (∃ r, st.1 = inr r) as [r Hok].
  { destruct st.1 as [e|r] eqn:Hr; [|by exists r].
    apply (f_equal (λ x, match x with inl _ => false | inr _ => true end))
      in Hr. by vm_compute in Hr. }
  assert (st = (inr r, (st.2.1, st.2.2))) as Heq.
  { rewrite <- Hok. clearbody st. by destruct st as [? [? ?]]. }
  destruct (update_scores_returns_entries sample_infos "score"
              sample_state2.1 sample_state2.2 r (st.2.1, st.2.2) Heq)
    as (Hget & _ & Hnd).
  exists r. split; [done|]. split; [|exact Hnd].
  rewrite Hget. vm_compute. reflexivity.
Defined.

Lemma update_scores_failure_keeps_prefix_witness :
  ∃ e self',
    update_scores
      [[(0, {["score" := 10]}); (1, {["other" := 11]});
        (2, {["score" := 12]}); (3, {["score" := 13]})];
       [(4, {["score" := 14]}); (5, {["score" := 15]});
        (6, {["score" := 16]})]] "score"
      (sample_state2.1, sample_state2.2)
    = (inl e, (self', sample_state2.2)) ∧
    ledger self' "learner" = [10; 12; 14; 15; 16] ∧
    num_scores self' = 5.
Proof.
  destruct (update_scores_failure_keeps_prefix
              [[(0, {["score" := 10]}); (1, {["other" := 11]});
                (2, {["score" := 12]}); (3, {["score" := 13]})];
               [(4, {["score" := 14]}); (5, {["score" := 15]});
                (6, {["score" := 16]})]] "score"
              sample_state2.1 sample_state2.2
              [([0; 1; 2; 4; 5; 6], Some 0%nat)] [3; 7] (Some 0%nat) [])
    as (e & self' & Hrun & Hledger & Hnum).
  - vm_compute. reflexivity.
  - constructor; [|constructor]. split.
    + vm_compute. by eexists.
    + apply np_take_is_inr.
      match goal with |- ?P => apply (bool_decide_unpack P) end.
      by vm_compute.
  - left. vm_compute. by eexists.
  - exists e, self'. split; [exact Hrun|]. split.
    + rewrite Hledger. vm_compute. reflexivity.
    + rewrite Hnum. vm_compute. reflexivity.
Defined.

Lemma update_scores_returns_iff_witness :
  ∃ r st',
    update_scores sample_infos "score" (sample_state2.1, sample_state2.2)
    = (inr r, st').
Proof.
  apply (update_scores_returns_iff sample_infos "score" sample_state2.1
           sample_state2.2).
  match goal with |- ?P => apply (bool_decide_unpack P) end. by vm_compute.
Defined.

(** ** The constructed pool *)

Section constructed.
Context {Float Params Value : Type} `{!RatingEngine Float Value}.
Implicit Types (w : World Float Params) (self : PolicyPool Float Value)
  (p : Policy Float) (st : PolicyPool Float Value * World Float Params).


End constructed.


(** ** What no call on a pool changes *)

Section invariants.
Context {Float Params Value : Type} `{!RatingEngine Float Value}.
Implicit Types (w : World Float Params) (self : PolicyPool Float Value)
  (p : Policy Float) (st : PolicyPool Float Value * World Float Params).









Lemma call_kept_same st st' :
  same_configuration st.1 st'.1 → num_scores st.1 ≤ num_scores st'.1 →
  active_policies st'.1 = active_policies st.1 → call_kept st st'.
Proof. intros ? ? ?. split_and!; [done..|by left]. Qed.

Lemma same_configuration_refl self : same_configuration self self.
Proof. by split_and!. Qed.

Lemma add_policy_call_kept model nm is_tenured mu_arg sigma_arg anchor
    overwrite_existing st :
  call_kept st
    (add_policy model nm is_tenured mu_arg sigma_arg anchor
       overwrite_existing st).2.
Proof.
  destruct st as [self w]. rewrite add_policy_eq. cbv zeta.
  assert (∀ t w', call_kept (self, w) (with_tournament t self, w')) as Hpool.
  { intros t w'. apply call_kept_same; [by split_and!|done|done]. }
  assert (∀ w', call_kept (self, w) (self, w')) as Hsame.
  { intros w'. apply call_kept_same; [by split_and!|done|done]. }
  case_bool_decide; [apply Hsame|].
  destruct (heap w !! model) as [m|]; [|apply Hsame].
  match goal with
  | |- context [match list_find ?P ?l with
                | Some _ => (inl IntegrityError, _) | None => _ end] =>
      destruct (list_find P l) as [[j o]|]
  end; [apply Hsame|].
  destruct anchor; [apply Hpool|].
  destruct (ratings _ !! nm); apply Hpool.
Qed.

Lemma add_policy_copy_call_kept key nm is_tenured anchor st :
  call_kept st (add_policy_copy key nm is_tenured anchor st).2.
Proof.
  destruct st as [self w].
  assert (call_kept (self, w) (self, w)) as Hsame
    by (apply call_kept_same; [by split_and!|done|done]).
  unfold add_policy_copy.
  erewrite bind_ok; [|apply on_snd_eq, query_policy_by_name_eq].
  destruct (snd <$> list_find _ _) as [original|]; [|exact Hsame].
  unfold mbind at 1, M_bind, bind, on_snd. cbn [snd fst].
  rewrite get_policy_eq.
  destruct (objects w !! original) as [p|]; [|exact Hsame].
  destruct (model p); [|exact Hsame].
  apply (add_policy_call_kept _ _ _ _ _ _ _ (self, w)).
Qed.

Lemma update_ranks_call_kept st : call_kept st (update_ranks st).2.
Proof.
  destruct st as [self w].
  destruct (update_ranks_run self w) as (w' & -> & _).
  apply call_kept_same; [by split_and!|done|done].
Qed.

Lemma update_scores_call_kept infos info_key st :
  call_kept st (update_scores infos info_key st).2.
Proof.
  pose (R := λ s s' : PolicyPool Float Value * World Float Params,
          same_configuration s.1 s'.1 ∧ num_scores s.1 ≤ num_scores s'.1 ∧
          active_policies s'.1 = active_policies s.1).
  assert (∀ s s', s'.1 = s.1 → R s s') as R_same.
  { intros s s' Heq. unfold R. rewrite Heq. by split_and!. }
  assert (∀ s, R s s) as R_refl by (intros s; by apply R_same).
  assert (∀ s1 s2 s3, R s1 s2 → R s2 s3 → R s1 s3) as R_trans.
  { intros s1 s2 s3 (Hc1 & Hn1 & Ha1) (Hc2 & Hn2 & Ha2).
    split_and!; [|lia|congruence].
    destruct Hc1 as (? & ? & ? & ? & ? & ? & ? & ? & ?).
    destruct Hc2 as (? & ? & ? & ? & ? & ? & ? & ? & ?).
    split_and!; congruence. }
  assert (R st (update_scores infos info_key st).2) as (? & ? & ?);
    [|by apply call_kept_same].
  revert st. unfold update_scores.
  apply (bind_preserves R R_trans); [by intros [? ?]; apply R_same|].
  intros self.
  apply (fold_preserves R R_refl R_trans). intros acc [samp policy].
  apply (bind_preserves R R_trans); [by intros [? ?]; apply R_same|].
  intros pol_infos.
  apply (bind_preserves R R_trans).
  { intros [self1 w1]. destruct policy as [oid|]; [|by apply R_same].
    unfold mbind, M_bind, bind, on_snd. cbn [snd fst].
    rewrite get_policy_eq. destruct (objects w1 !! oid); by apply R_same. }
  intros nm.
  apply (bind_preserves R R_trans); [|by intros ? [? ?]; apply R_same].
  apply (for_preserves R R_refl R_trans). intros i [self1 w1].
  destruct (i !! info_key); [|by apply R_same].
  split_and!; [by split_and!|simpl; lia|done].
Qed.

Lemma update_active_policies_call_kept rng st :
  call_kept st (update_active_policies rng st).2.
Proof.
  destruct st as [self w].
  assert (call_kept (self, w) (self, w)) as Hsame
    by (apply call_kept_same; [by split_and!|done|done]).
  unfold update_active_policies.
  rewrite (bind_ok _ _ (self, w) self (self, w)) by done.
  erewrite bind_ok; [|apply on_snd_eq, query_policy_by_name_eq].
  erewrite (bind_ok _ _ _ (table w)); [|apply on_snd_eq; reflexivity].
  destruct (np_random_choice _ _ _) as [e|sampled] eqn:Hchoice.
  { by erewrite bind_err. }
  erewrite bind_ok; [|reflexivity].
  erewrite bind_ok; [|apply on_fst_eq; reflexivity].
  apply np_random_choice_inr in Hchoice as (Hsize & Hlen & _).
  match goal with
  | |- call_kept _ (for_ ?l ?body ?s).2 =>
      assert ((for_ l body s).2.1 = s.1) as Hpool
  end.
  { apply eq_sym.
    apply (for_preserves
             (λ s s' : PolicyPool Float Value * World Float Params,
                s.1 = s'.1)); [done|congruence|].
    intros [oid|] [self1 w1]; [|done].
    rewrite activate_eq. destruct (heap w1 !! learner self); [|done].
    cbv zeta. destruct (objects w1 !! oid) as [p1|]; [|done].
    by destruct (files w1 !! model_path p1). }
  split_and!; rewrite Hpool; cbn [fst]; [by split_and!|done|].
  right. cbn [active_policies with_active_policies].
  rewrite length_cons, length_fmap, Hlen. lia.
Qed.

(** X21.  After any sequence of calls on a pool whose roster has
    [num_active_policies] slots, the pool has the learner, the names, the
    path, the defaults, the slot count, the partition table and the learner
    mask it had; the roster has [num_active_policies] slots; and
    [num_scores] has not decreased. *)
Theorem run_calls_configuration (cs : list call) st :
  Z.of_nat (length (active_policies st.1)) = num_active_policies st.1 →
  same_configuration st.1 (run_calls cs st).1 ∧
  num_scores st.1 ≤ num_scores (run_calls cs st).1 ∧
  Z.of_nat (length (active_policies (run_calls cs st).1))
  = num_active_policies (run_calls cs st).1.
Proof.
  revert st. induction cs as [|c cs IH]; intros st Hlen.
  { split_and!; [apply same_configuration_refl|done|done]. }
  assert (call_kept st (run_call c st).2) as (Hc & Hn & Ha).
  { destruct c; simpl.
    - apply add_policy_call_kept.
    - apply add_policy_copy_call_kept.
    - apply update_active_policies_call_kept.
    - pose proof (update_scores_call_kept infos info_key st) as Hk.
      unfold mbind, M_bind, bind.
      by destruct (update_scores infos info_key st) as [[e|a] st1].
    - apply update_ranks_call_kept. }
  pose proof Hc as (? & ? & ? & ? & ? & ? & Hnum & ? & ?).
  destruct (IH (run_call c st).2) as (Hc' & Hn' & Ha').
  { rewrite Hnum. destruct Ha as [-> | ->]; done. }
  simpl. split_and!; [|lia|done].
  destruct Hc' as (? & ? & ? & ? & ? & ? & ? & ? & ?).
  split_and!; congruence.
Qed.

End invariants.


Lemma run_calls_configuration_witness :
  let st := (sample_state.1, sample_state.2) in
  let st' := run_calls
               [AddPolicy 0%nat "rival" false None None false None;
                UpdateActivePolicies sample_rng;
                UpdateScores sample_infos "score";
                UpdateRanks] st in
  sample_idxs st'.1 = sample_idxs st.1 ∧
  num_scores st.1 ≤ num_scores st'.1 ∧
  Z.of_nat (length (active_policies st'.1)) = num_active_policies st'.1.
Proof.
  intros st st'.
  destruct (run_calls_configuration
              [AddPolicy 0%nat "rival" false None None false None;
               UpdateActivePolicies sample_rng;
               UpdateScores sample_infos "score";
               UpdateRanks] st)
    as ((_ & _ & _ & _ & _ & _ & _ & Hidxs & _) & Hn & Hlen).
  - vm_compute. reflexivity.
  - split; [exact Hidxs|]. split; [exact Hn|exact Hlen].
Defined.

(** ** A constructed pool scores a full batch *)

Lemma res_fold_distribute_inv (P : Z → Prop) (pat : list nat) (c : Z)
    (idxs : list Z) :
  Forall P idxs →
  ∀ acc tbl,
    res_fold (distribute pat c) acc idxs = inr tbl →
    Forall (Forall P) acc → Forall (Forall P) tbl.
Proof.
  induction 1 as [|idx idxs Hidx _ IH]; intros acc tbl Hrun Hacc.
  { by injection Hrun as <-. }
  simpl in Hrun. destruct (distribute pat c acc idx) as [e|acc'] eqn:Hd;
    [done|].
  simpl in Hrun. eapply IH; [exact Hrun|].
  unfold distribute in Hd. destruct (py_mod idx c) as [e|r]; [done|].
  simpl in Hd. destruct (py_index pat r) as [e|s]; [done|]. simpl in Hd.
  destruct (acc !! s) as [sub|] eqn:Hsub; [|done]. injection Hd as <-.
  apply Forall_insert; [done|]. apply Forall_app. split; [|by constructor].
  eapply Forall_lookup_1 in Hacc; done.
Qed.

(** Every index of a partition table is a batch index. *)
Lemma make_sample_idxs_range sample_weights evaluation_batch_size table :
  make_sample_idxs sample_weights evaluation_batch_size = inr table →
  Forall (Forall (λ idx, 0 ≤ idx < evaluation_batch_size)) table.
Proof.
  unfold make_sample_idxs. destruct (py_mod _ _) as [e|r]; [done|]. simpl.
  case_decide; [|done]. intros Hrun.
  eapply res_fold_distribute_inv; [|exact Hrun|].
  - apply Forall_forall. intros idx Hidx. unfold py_range in Hidx.
    apply elem_of_seqZ in Hidx. lia.
  - apply Forall_forall. intros sub [-> _]%elem_of_replicate. constructor.
Qed.

Section scores_after_init.
Context {Float Params Value : Type} `{!RatingEngine Float Value}.
Implicit Types (w : World Float Params) (self : PolicyPool Float Value)
  (p : Policy Float) (st : PolicyPool Float Value * World Float Params).

(** X22.  On the pool that [__init__] returns, in the world it leaves,
    [update_scores] returns for every list of infos that holds at least
    [evaluation_batch_size] entries: every slot of the roster holds an
    object and every index of the partition is a batch index. *)
Theorem init_then_update_scores rng evaluation_batch_size learner_model nm
    sample_weights num_active pool_path mu0 anchor_mu0 sigma0 w self w'
    infos info_key :
  init rng evaluation_batch_size learner_model nm sample_weights num_active
    pool_path mu0 anchor_mu0 sigma0 w = (inr self, w') →
  evaluation_batch_size ≤ Z.of_nat (length (infos ≫= λ info, info.*2)) →
  ∃ r self',
    update_scores infos info_key (self, w') = (inr r, (self', w')) ∧
    same_configuration self self' ∧
    active_policies self' = active_policies self.
Proof.
  intros Hinit Hinfos. unfold init in Hinit. case_decide as Hlen; [|done].
  destruct ((add_policy learner_model nm true (Some mu0) (Some sigma0) false
               None;; update_active_policies rng)
              (new_pool learner_model nm num_active pool_path mu0 anchor_mu0
                 sigma0, w)) as [[e|[]] [self2 w2]] eqn:Hrun; [done|].
  destruct (make_sample_idxs _ _) as [e|idxs] eqn:Hidxs; [done|].
  destruct (make_learner_mask _ _) as [e|mask] eqn:Hmask; [done|].
  injection Hinit as <- <-.
  apply bind_inv_ok in Hrun as ([] & [self1 w1] & _ & Hrot).
  apply update_active_policies_ok in Hrot
    as (lp & sampled & lrn & _ & _ & _ & -> & _ & _ & _ & _ & Hin).
  apply make_sample_idxs_range in Hidxs.
  assert (∃ r st', update_scores infos info_key
                     (with_partition idxs mask
                        (with_active_policies (Some <$> lp :: sampled) self1),
                      w2) = (inr r, st')) as (r & st' & Hscores).
  { unfold update_scores.
    erewrite (bind_ok _ _ _ _ (_, w2)); [|reflexivity].
    apply score_slots_total. apply Forall_forall. intros [samp policy] Hslot.
    cbn [sample_idxs active_policies with_partition with_active_policies]
      in Hslot.
    pose proof (elem_of_zip_l _ _ _ _ Hslot) as Hsamp.
    pose proof (elem_of_zip_r _ _ _ _ Hslot) as Hpolicy.
    cbn [fst snd]. split.
    - apply list_elem_of_fmap in Hpolicy as (o & -> & Ho).
      destruct (Hin o Ho) as (p0 & l & params & _ & Hp & _).
      simpl. rewrite Hp. by eexists.
    - apply np_take_is_inr. eapply Forall_forall in Hidxs; [|exact Hsamp].
      eapply Forall_impl; [exact Hidxs|]. intros idx ?. simpl in *. lia. }
  pose proof (update_scores_world infos info_key
                (with_partition idxs mask
                   (with_active_policies (Some <$> lp :: sampled) self1), w2))
    as Hworld.
  pose proof (update_scores_call_kept infos info_key
                (with_partition idxs mask
                   (with_active_policies (Some <$> lp :: sampled) self1), w2))
    as Hkept.
  rewrite Hscores in Hworld, Hkept. destruct st' as [self' w'].
  cbn [fst snd] in Hworld. subst w'. exists r, self'. split; [done|].
  unfold update_scores in Hscores.
  erewrite (bind_ok _ _ _ _ (_, w2)) in Hscores; [|reflexivity].
  apply score_slots in Hscores as (self'' & [= <-] & _ & _ & _ & Ha & _).
  split; [apply Hkept|done].
Qed.

End scores_after_init.

Lemma init_then_update_scores_witness :
  ∃ r self',
    update_scores sample_infos "score" (sample_state.1, sample_state.2)
    = (inr r, (self', sample_state.2)) ∧
    active_policies self' = active_policies sample_state.1.
Proof.
  assert (sample_init = (inr sample_state.1, sample_state.2)) as Hinit.
  { assert (∃ pool, sample_init.1 = inr pool) as [pool Hpool].
    { destruct sample_init.1 as [e|pool] eqn:Hr; [|by exists pool].
      apply (f_equal (λ x, match x with inl _ => false | inr _ => true end))
        in Hr. by vm_compute in Hr. }
    unfold sample_state. destruct sample_init as [[e|pool'] w0]; [done|].
    reflexivity. }
  destruct (init_then_update_scores sample_rng 8 0%nat "learner" [3; 1] 2
              "pool" 1000 1000 33 sample_world sample_state.1 sample_state.2
              sample_infos "score" Hinit)
    as (r & self' & Hrun & _ & Hroster).
  - vm_compute. discriminate.
  - exists r, self'. split; [exact Hrun|exact Hroster].
Defined.
